(** * SGAR advocacy tool: name resolution, styling and filtering

    A shallow embedding of the JavaScript of the repository
    (map-controller.js, sgar-tracker.js, utils.js, main.js,
    ui-controller.js) and the properties of its entity-resolution and
    render-filter pipeline, of its pagination, of its utilities and of its
    notifications.

    Conventions of the embedding.
    - A JavaScript string is a [string] of the Standard Library.  The
      character functions below implement the ASCII range of
      [toUpperCase], [toLowerCase], [\s], [\w] and [\b]; code units above
      127 are treated as caseless symbols that are neither white space nor
      word characters.
    - [undefined] and [null] are explicit constructors ([jsname]) or [None]
      of an [option], as each definition says.
    - A call that can raise a JavaScript exception returns a [completion]. *)

From Stdlib Require Import Strings.String Strings.Ascii Lists.List Bool.Bool
  Arith.PeanoNat Arith.Arith ZArith.ZArith micromega.Lia
  Sorting.Permutation Sorting.Sorted Structures.OrdersEx.
Import ListNotations.

Open Scope string_scope.
Open Scope bool_scope.

(* ================================================================== *)
(** ** JavaScript strings *)
(* ================================================================== *)

Module JsString.

Definition code (c : ascii) : nat := nat_of_ascii c.

Definition is_upper (c : ascii) : bool := Nat.leb 65 (code c) && Nat.leb (code c) 90.
Definition is_lower (c : ascii) : bool := Nat.leb 97 (code c) && Nat.leb (code c) 122.
Definition is_digit (c : ascii) : bool := Nat.leb 48 (code c) && Nat.leb (code c) 57.

(** [\w] : letters, digits and the underscore. *)
Definition is_word (c : ascii) : bool :=
  is_upper c || is_lower c || is_digit c || Nat.eqb (code c) 95.

(** [\s], also the characters removed by [trim]: TAB, LF, VT, FF, CR, SPACE. *)
Definition is_space (c : ascii) : bool :=
  (Nat.leb 9 (code c) && Nat.leb (code c) 13) || Nat.eqb (code c) 32.

Definition upper_char (c : ascii) : ascii :=
  if is_lower c then ascii_of_nat (code c - 32) else c.

Definition lower_char (c : ascii) : ascii :=
  if is_upper c then ascii_of_nat (code c + 32) else c.

Fixpoint map_chars (f : ascii -> ascii) (s : string) : string :=
  match s with
  | EmptyString => EmptyString
  | String c t => String (f c) (map_chars f t)
  end.

(** [s.toUpperCase()], [s.toLowerCase()] *)
Definition toUpperCase (s : string) : string := map_chars upper_char s.
Definition toLowerCase (s : string) : string := map_chars lower_char s.

Fixpoint trimStart (s : string) : string :=
  match s with
  | EmptyString => EmptyString
  | String c t => if is_space c then trimStart t else s
  end.

Fixpoint trimEnd (s : string) : string :=
  match s with
  | EmptyString => EmptyString
  | String c t =>
      match trimEnd t with
      | EmptyString => if is_space c then EmptyString else String c EmptyString
      | t' => String c t'
      end
  end.

(** [s.trim()] *)
Definition trim (s : string) : string := trimEnd (trimStart s).

(** [s.startsWith(p)] *)
Fixpoint startsWith (s p : string) : bool :=
  match p with
  | EmptyString => true
  | String a p' =>
      match s with
      | EmptyString => false
      | String c s' => Ascii.eqb a c && startsWith s' p'
      end
  end.

(** [s.includes(sub)] *)
Fixpoint includes (s sub : string) : bool :=
  startsWith s sub ||
  match s with
  | EmptyString => false
  | String _ t => includes t sub
  end.

(** [parts.join(sep)] *)
Fixpoint join (sep : string) (parts : list string) : string :=
  match parts with
  | [] => ""
  | [p] => p
  | p :: rest => p ++ sep ++ join sep rest
  end.

(** [arr.includes(x)] on an array of strings *)
Definition array_includes (arr : list string) (x : string) : bool :=
  existsb (String.eqb x) arr.

(** *** Regular expressions of the form [/\b(lit1|lit2|...)\b/g]

    [prev] is the character of the subject just before the current
    position ([None] at the start): [\b] looks at it and at the next
    character. *)

Definition word_before (prev : option ascii) : bool :=
  match prev with Some c => is_word c | None => false end.

Definition word_at (s : string) : bool :=
  match s with String c _ => is_word c | EmptyString => false end.

(** [\b] between [prev] and the head of [s]. *)
Definition boundary (prev : option ascii) (s : string) : bool :=
  xorb (word_before prev) (word_at s).

(** Match the literal [lit] at the head of [s]; on success the last
    character consumed and the rest of the subject. *)
Fixpoint match_literal (lit s : string) (prev : option ascii)
  : option (option ascii * string) :=
  match lit with
  | EmptyString => Some (prev, s)
  | String a lit' =>
      match s with
      | EmptyString => None
      | String c s' =>
          if Ascii.eqb a c then match_literal lit' s' (Some c) else None
      end
  end.

(** The alternatives are tried from left to right; an alternative whose
    literal matches but is not followed by [\b] is abandoned for the
    next one (backtracking).  The result is the length of the match. *)
Fixpoint match_alternatives (alts : list string) (prev : option ascii)
  (s : string) : option nat :=
  match alts with
  | [] => None
  | lit :: rest =>
      match match_literal lit s prev with
      | Some (p', s') =>
          if boundary p' s' then Some (String.length lit)
          else match_alternatives rest prev s
      | None => match_alternatives rest prev s
      end
  end.

Definition match_at (alts : list string) (prev : option ascii) (s : string)
  : option nat :=
  if boundary prev s then match_alternatives alts prev s else None.

(** [s.replace(/\b(alts)\b/g, '')]: scan from the left; [skip] counts the
    characters of the current match still to be dropped. *)
Fixpoint replace_go (alts : list string) (prev : option ascii) (skip : nat)
  (s : string) : string :=
  match s with
  | EmptyString => EmptyString
  | String c t =>
      match skip with
      | S k => replace_go alts (Some c) k t
      | O =>
          match match_at alts prev s with
          | Some (S k) => replace_go alts (Some c) k t
          | _ => String c (replace_go alts (Some c) 0 t)
          end
      end
  end.

Definition remove_words (alts : list string) (s : string) : string :=
  replace_go alts None 0 s.

(** [s.replace(/\s+/g, ' ')]: [in_run] tells that the previous character
    belonged to the run of white space already replaced. *)
Fixpoint collapse_go (in_run : bool) (s : string) : string :=
  match s with
  | EmptyString => EmptyString
  | String c t =>
      if is_space c
      then if in_run then collapse_go true t
           else String " "%char (collapse_go true t)
      else String c (collapse_go false t)
  end.

Definition collapse_spaces (s : string) : string := collapse_go false s.

(** [/^[^\s@]+$/] *)
Fixpoint plain_part (s : string) : bool :=
  match s with
  | EmptyString => false
  | String c t =>
      negb (is_space c) && negb (Ascii.eqb c "@"%char) &&
      match t with EmptyString => true | _ => plain_part t end
  end.

(** All the ways of cutting [s] at an occurrence of [sep]. *)
Fixpoint splits_at (sep : ascii) (s : string) : list (string * string) :=
  match s with
  | EmptyString => []
  | String c t =>
      (if Ascii.eqb c sep then [(EmptyString, t)] else []) ++
      map (fun '(l, r) => (String c l, r)) (splits_at sep t)
  end.

End JsString.

(* ================================================================== *)
(** ** JavaScript values and completions *)
(* ================================================================== *)

Inductive js_error : Type :=
| TypeError (message : string)
| SyntaxError (message : string)
| Error (message : string).

(** The outcome of evaluating a call: a value, or a thrown exception. *)
Inductive completion (A : Type) : Type :=
| Normal (v : A)
| Throw (e : js_error).

Arguments Normal {A} v.
Arguments Throw {A} e.

Definition bind {A B : Type} (m : completion A) (k : A -> completion B)
  : completion B :=
  match m with
  | Normal v => k v
  | Throw e => Throw e
  end.

Notation "x <- m ;; k" := (bind m (fun x => k))
  (at level 61, m at next level, right associativity).

(** [try { body } catch (error) { handler }] *)
Definition try_catch {A : Type} (body : completion A)
  (handler : js_error -> completion A) : completion A :=
  match body with
  | Normal v => Normal v
  | Throw e => handler e
  end.

(** A value that is expected to be a string: a name read from a feature,
    a candidate given to the resolver. *)
Inductive jsname : Type :=
| JUndefined
| JNull
| JString (s : string).

(** Truthiness ([if (x)], [!x], [x || y]) of such a value. *)
Definition truthy (v : jsname) : bool :=
  match v with
  | JString s => negb (String.eqb s "")
  | _ => false
  end.

Definition truthy_string (s : string) : bool := negb (String.eqb s "").

(** [arr.find(p)] where the callback may throw. *)
Fixpoint array_find {A : Type} (p : A -> completion bool) (arr : list A)
  : completion (option A) :=
  match arr with
  | [] => Normal None
  | x :: rest =>
      b <- p x ;;
      if b then Normal (Some x) else array_find p rest
  end.

(** [arr.filter(p)] where the callback may throw. *)
Fixpoint array_filter {A : Type} (p : A -> completion bool) (arr : list A)
  : completion (list A) :=
  match arr with
  | [] => Normal []
  | x :: rest =>
      b <- p x ;;
      kept <- array_filter p rest ;;
      Normal (if b then x :: kept else kept)
  end.

(** *** Plain objects used as maps ([const o = {}; o[k] = v; o[k]])

    The own properties are an association list, the newest first.  A read
    of a key that is not an own property goes to [Object.prototype]. *)
Module JsObject.

Definition t : Type := list (string * string).

Definition empty : t := [].

Definition object_prototype_keys : list string :=
  [ "constructor"; "__defineGetter__"; "__defineSetter__"; "hasOwnProperty";
    "__lookupGetter__"; "__lookupSetter__"; "isPrototypeOf";
    "propertyIsEnumerable"; "toString"; "valueOf"; "__proto__";
    "toLocaleString" ].

Inductive value : Type :=
| Undefined
| Str (s : string)
| Inherited.           (* a function or object found on the prototype *)

Fixpoint own (o : t) (k : string) : option string :=
  match o with
  | [] => None
  | (k', v) :: rest => if String.eqb k k' then Some v else own rest k
  end.

(** [o[k] = v]; assigning a string to [__proto__] is ignored by its setter. *)
Definition set (o : t) (k v : string) : t :=
  if String.eqb k "__proto__" then o else (k, v) :: o.

(** [o[k]] *)
Definition get (o : t) (k : string) : value :=
  match own o k with
  | Some v => Str v
  | None =>
      if JsString.array_includes object_prototype_keys k
      then Inherited else Undefined
  end.

Definition value_truthy (v : value) : bool :=
  match v with
  | Undefined => false
  | Str s => truthy_string s
  | Inherited => true
  end.

End JsObject.

(** The order in which [Object.keys] and [Object.entries] list the own
    string keys of an ordinary object: the array indices in ascending
    order, then the other keys in the order of their creation. *)
Module OwnKeys.
Import JsString.

Fixpoint digits_value (acc : N) (s : string) : option N :=
  match s with
  | EmptyString => Some acc
  | String c t =>
      if is_digit c
      then digits_value (acc * 10 + N.of_nat (code c - 48)) t
      else None
  end.

(** The array index a key denotes: a decimal numeral without a leading
    zero, below [2^32 - 1]. *)
Definition array_index (k : string) : option N :=
  match k with
  | EmptyString => None
  | String c t =>
      if Ascii.eqb c "0" && negb (String.eqb t "") then None
      else match digits_value 0 k with
           | Some n => if N.ltb n 4294967295 then Some n else None
           | None => None
           end
  end.

Fixpoint insert {V : Type} (n : N) (entry : string * V)
  (sorted : list (N * (string * V))) : list (N * (string * V)) :=
  match sorted with
  | [] => [(n, entry)]
  | (m, other) :: rest =>
      if N.leb n m then (n, entry) :: sorted
      else (m, other) :: insert n entry rest
  end.

(** The entries under an array index, by ascending index. *)
Fixpoint indexed {V : Type} (created : list (string * V))
  : list (N * (string * V)) :=
  match created with
  | [] => []
  | entry :: rest =>
      match array_index (fst entry) with
      | Some n => insert n entry (indexed rest)
      | None => indexed rest
      end
  end.

Definition named {V : Type} (created : list (string * V)) : list (string * V) :=
  filter (fun entry =>
            match array_index (fst entry) with
            | Some _ => false
            | None => true
            end)
         created.

(** [Object.entries(o)] for the own properties of [o] in the order of
    their creation. *)
Definition entries {V : Type} (created : list (string * V)) : list (string * V) :=
  (map snd (indexed created) ++ named created)%list.

End OwnKeys.

(* ================================================================== *)
(** ** utils.js *)
(* ================================================================== *)

(** One value of the council data document: the fields may be absent. *)
Module RawCouncil.
Record t : Type := mk {
  sgars : option string;
  notes : option string;
  email : option string
}.
End RawCouncil.

Module Validation.
Record t : Type := mk {
  isValid : bool;
  errors : list string
}.
End Validation.

Module Utils.
Import JsString.

(** [/^[^\s@]+@[^\s@]+\.[^\s@]+$/.test(email)] *)
Definition isValidEmail (email : string) : bool :=
  existsb
    (fun '(local, domain) =>
       plain_part local &&
       existsb (fun '(host, tld) => plain_part host && plain_part tld)
               (splits_at "."%char domain))
    (splits_at "@"%char email).

Definition requiredFields : list string := ["sgars"; "notes"; "email"].

Definition validStatuses : list string := ["Yes"; "No"; "Unknown"].

(** [field in councilData] *)
Definition has_field (d : RawCouncil.t) (field : string) : bool :=
  if String.eqb field "sgars" then
    match RawCouncil.sgars d with Some _ => true | None => false end
  else if String.eqb field "notes" then
    match RawCouncil.notes d with Some _ => true | None => false end
  else if String.eqb field "email" then
    match RawCouncil.email d with Some _ => true | None => false end
  else false.

Definition validateCouncilData (councilData : RawCouncil.t) : Validation.t :=
  let missing :=
    flat_map
      (fun field =>
         if has_field councilData field then []
         else ["Missing required field: " ++ field])
      requiredFields in
  let badStatus :=
    match RawCouncil.sgars councilData with
    | Some sgars =>
        if truthy_string sgars && negb (array_includes validStatuses sgars)
        then ["Invalid SGAR status: " ++ sgars ++ ". Must be one of: "
                ++ join ", " validStatuses]
        else []
    | None => []
    end in
  let badEmail :=
    match RawCouncil.email councilData with
    | Some email =>
        if truthy_string email && negb (isValidEmail email)
        then ["Invalid email format: " ++ email]
        else []
    | None => []
    end in
  let errors := (missing ++ badStatus ++ badEmail)%list in
  Validation.mk (Nat.eqb (List.length errors) 0) errors.

(** [str.toLowerCase().replace(/\b\w/g, l => l.toUpperCase())] *)
Fixpoint capitalize_words (prev : option ascii) (s : string) : string :=
  match s with
  | EmptyString => EmptyString
  | String c t =>
      String (if is_word c && negb (word_before prev) then upper_char c else c)
             (capitalize_words (Some c) t)
  end.

(** [titleCase(str)], with the case mappings of the ASCII range (see the
    conventions of the embedding). *)
Definition titleCase (str : string) : string :=
  if negb (truthy_string str) then ""
  else capitalize_words None (toLowerCase str).

End Utils.

(* ================================================================== *)
(** ** sgar-tracker.js *)
(* ================================================================== *)

(** A council of the catalog.  [status], [notes] and [contactEmail] are
    copied from the raw document and are [None] ([undefined]) when the raw
    field is absent. *)
Module Council.
Record t : Type := mk {
  name : string;
  status : option string;
  notes : option string;
  contactEmail : option string;
  region : string;
  lastUpdated : string
}.
End Council.

(** [this.filters] of the tracker, also the argument of the map's
    [applyFilter]. *)
Module Filters.
Record t : Type := mk {
  status : list string;
  region : list string;
  search : string;
  quickFilter : option string
}.
End Filters.

Module Tracker.
Import JsString.

Definition regions : list (string * list string) :=
  [ ("Hunter",
     ["CENTRAL COAST"; "CESSNOCK"; "DUNGOG"; "LAKE MACQUARIE"; "MAITLAND";
      "MUSWELLBROOK"; "NEWCASTLE"; "PORT STEPHENS"; "SINGLETON";
      "UPPER HUNTER"]);
    ("Illawarra",
     ["KIAMA"; "SHELLHARBOUR"; "SHOALHAVEN"; "WINGECARRIBEE"; "WOLLONDILLY";
      "WOLLONGONG"]);
    ("Metro North",
     ["HORNSBY"; "HUNTERS HILL"; "KU-RING-GAI"; "LANE COVE"; "MOSMAN";
      "NORTH SYDNEY"; "NORTHERN BEACHES"; "RYDE"; "THE HILLS SHIRE";
      "WILLOUGHBY"]);
    ("Metro South",
     ["BAYSIDE"; "BURWOOD"; "CANADA BAY"; "CANTERBURY-BANKSTOWN";
      "GEORGES RIVER"; "INNER WEST"; "RANDWICK"; "STRATHFIELD";
      "SUTHERLAND SHIRE"; "SYDNEY"; "WAVERLEY"; "WOOLLAHRA"]);
    ("Metro West",
     ["BLACKTOWN"; "BLUE MOUNTAINS"; "CAMDEN"; "CAMPBELLTOWN";
      "CITY OF PARRAMATTA"; "CUMBERLAND"; "FAIRFIELD"; "HAWKESBURY";
      "LIVERPOOL"; "PENRITH"]);
    ("Mid North Coast",
     ["BELLINGEN"; "COFFS HARBOUR"; "KEMPSEY"; "MID-COAST";
      "NAMBUCCA VALLEY"; "PORT MACQUARIE-HASTINGS"]);
    ("North Coast",
     ["BALLINA"; "BYRON"; "CLARENCE VALLEY"; "KYOGLE"; "LISMORE";
      "RICHMOND VALLEY"; "TWEED"]);
    ("Northern Inland",
     ["ARMIDALE REGIONAL"; "GLEN INNES SEVERN"; "GUNNEDAH"; "GWYDIR";
      "INVERELL"; "LIVERPOOL PLAINS"; "MOREE PLAINS"; "NARRABRI";
      "TAMWORTH REGIONAL"; "TENTERFIELD"; "URALLA"; "WALCHA"]);
    ("Central West",
     ["BATHURST REGIONAL"; "BLAYNEY"; "CABONNE"; "COWRA"; "FORBES";
      "LACHLAN"; "LITHGOW CITY"; "OBERON"; "ORANGE"; "PARKES"; "WEDDIN"]);
    ("Orana",
     ["BOGAN"; "BOURKE"; "BREWARRINA"; "BROKEN HILL"; "CENTRAL DARLING";
      "COBAR"; "COONAMBLE"; "DUBBO REGIONAL"; "GILGANDRA";
      "MID-WESTERN REGIONAL"; "NARROMINE"; "WALGETT"; "WARREN";
      "WARRUMBUNGLE"]);
    ("South East",
     ["BEGA VALLEY"; "EUROBODALLA"; "GOULBURN MULWAREE";
      "QUEANBEYAN-PALERANG REGIONAL"; "SNOWY MONARO REGIONAL";
      "UPPER LACHLAN SHIRE"; "YASS VALLEY"]);
    ("South West",
     ["ALBURY CITY"; "BALRANALD"; "BERRIGAN"; "BLAND"; "CARRATHOOL";
      "COOLAMON"; "COOTAMUNDRA-GUNDAGAI REGIONAL"; "EDWARD RIVER";
      "FEDERATION"; "GREATER HUME SHIRE"; "GRIFFITH"; "HAY"; "HILLTOPS";
      "JUNEE"; "LEETON"; "LOCKHART"; "MURRAY RIVER"; "MURRUMBIDGEE";
      "NARRANDERA"; "SNOWY VALLEYS"; "TEMORA"; "WAGGA WAGGA"; "WENTWORTH"])
  ].

Fixpoint region_of (table : list (string * list string)) (upperName : string)
  : string :=
  match table with
  | [] => "Other"
  | (region, councils) :: rest =>
      if array_includes councils upperName then region
      else region_of rest upperName
  end.

Definition getCouncilRegion (councilName : string) : string :=
  region_of regions (toUpperCase councilName).

(** The constructor of [SGARTracker]: [this.councils], built from
    [Object.entries(councilData)] given in that order. *)
Definition councils_of (councilData : list (string * RawCouncil.t))
  : list Council.t :=
  map (fun '(name, data) =>
         Council.mk (Utils.titleCase name)
                    (RawCouncil.sgars data)
                    (RawCouncil.notes data)
                    (RawCouncil.email data)
                    (getCouncilRegion name)
                    "2025-01-22")
      councilData.

(** [arr.includes(council.status)] for a status that may be [undefined]. *)
Definition includes_status (arr : list string) (status : option string)
  : bool :=
  match status with
  | Some s => array_includes arr s
  | None => false
  end.

(** The callback of [getFilteredCouncils].  [council.notes.toLowerCase()]
    throws when the notes are [undefined]. *)
Definition passesFilters (filters : Filters.t) (council : Council.t)
  : completion bool :=
  if Nat.ltb 0 (List.length (Filters.status filters)) &&
     negb (includes_status (Filters.status filters) (Council.status council))
  then Normal false
  else if Nat.ltb 0 (List.length (Filters.region filters)) &&
          negb (array_includes (Filters.region filters) (Council.region council))
  then Normal false
  else if truthy_string (Filters.search filters) then
    let searchTerm := toLowerCase (Filters.search filters) in
    if includes (toLowerCase (Council.name council)) searchTerm then Normal true
    else if includes (toLowerCase (Council.region council)) searchTerm
    then Normal true
    else match Council.notes council with
         | Some notes => Normal (includes (toLowerCase notes) searchTerm)
         | None =>
             Throw (TypeError "Cannot read properties of undefined (reading 'toLowerCase')")
         end
  else Normal true.

Definition getFilteredCouncils (councils : list Council.t) (filters : Filters.t)
  : completion (list Council.t) :=
  array_filter (passesFilters filters) councils.

End Tracker.

Module UtilsFilter.
Import JsString.

(** An element of an array given to [join]: [undefined] prints as the
    empty string. *)
Definition join_item (v : option string) : string :=
  match v with Some s => s | None => "" end.

Definition searchableText (council : Council.t) : string :=
  toLowerCase
    (join " " [ Council.name council;
                Council.region council;
                join_item (Council.notes council);
                join_item (Council.contactEmail council) ]).

(** The callback of [filterCouncils(councils, criteria)] of utils.js.  An
    absent field of [criteria] behaves as the empty array or string, which
    the guards skip as well. *)
Definition matchesCriteria (criteria : Filters.t) (council : Council.t) : bool :=
  if Nat.ltb 0 (List.length (Filters.status criteria)) &&
     negb (Tracker.includes_status (Filters.status criteria) (Council.status council))
  then false
  else if Nat.ltb 0 (List.length (Filters.region criteria)) &&
          negb (array_includes (Filters.region criteria) (Council.region council))
  then false
  else if truthy_string (Filters.search criteria) &&
          negb (includes (searchableText council)
                         (toLowerCase (Filters.search criteria)))
  then false
  else true.

Definition filterCouncils (councils : list Council.t) (criteria : Filters.t)
  : list Council.t :=
  filter (matchesCriteria criteria) councils.

End UtilsFilter.

(* ================================================================== *)
(** ** map-controller.js *)
(* ================================================================== *)

(** [new ol.style.Style({fill, stroke})]: the fill colour and the stroke,
    each absent when the option is not given. *)
Module Style.
Record stroke_t : Type := mkStroke {
  color : string;
  width : nat
}.
Record t : Type := mk {
  fill : option string;
  stroke : option stroke_t
}.
End Style.

Module StatusColors.
Record t : Type := mk {
  fill : string;
  border : option string;
  hover : string
}.
End StatusColors.

(** A GeoJSON feature: its property bag. *)
Module Feature.
Definition t : Type := list (string * jsname).

(** [feature.get(key)] *)
Fixpoint get (feature : t) (key : string) : jsname :=
  match feature with
  | [] => JUndefined
  | (k, v) :: rest => if String.eqb key k then v else get rest key
  end.
End Feature.

(** What [fetch('./data/council_name_mapping.json')] and [response.json()]
    can do. *)
Inductive json_result : Type :=
| JsonRejects                                  (* the body is not JSON *)
| JsonNull                                     (* the document is [null] *)
| JsonObject (entries : list (string * string)).
                      (* an object: its properties, in the order of the document *)

Inductive fetch_result : Type :=
| FetchRejects (message : string)              (* network failure *)
| FetchResponds (ok : bool) (status : string) (body : json_result).

Module MapController.
Import JsString.

(** The style function installed on [lgaLayer]: the one of
    [loadCouncilBoundaries] or the one of [applyFilter(filter)]. *)
Inductive layer_style : Type :=
| StyleLGA
| StyleFiltered (filter : option Filters.t).

Record t : Type := mk {
  councils : list Council.t;
  currentFilter : option Filters.t;
  nameMapping : option (list (string * string));
  lgaLayer : option layer_style;
  warnings : list string
}.

(** [constructor(councils, sgarTracker)] *)
Definition new (councils : list Council.t) : t :=
  mk councils None None None [].

(** The [try] block of [loadNameMapping]: the value assigned to
    [this.nameMapping], unless the fetch rejects, the status is not ok or
    the body is not JSON. *)
Definition fetchedMapping (response : fetch_result)
  : completion (option (list (string * string))) :=
  match response with
  | FetchRejects message => Throw (TypeError message)
  | FetchResponds false status _ =>
      Throw (Error ("Failed to load name mapping: " ++ status))
  | FetchResponds true _ JsonRejects =>
      Throw (SyntaxError "Unexpected token in JSON")
  | FetchResponds true _ JsonNull => Normal None
  | FetchResponds true _ (JsonObject entries) => Normal (Some entries)
  end.

(** [loadNameMapping]: the [catch] block logs the error and warns;
    [nameMapping] is assigned only when the [try] block completes. *)
Definition loadNameMapping (this : t) (response : fetch_result) : completion t :=
  try_catch
    (mapping <- fetchedMapping response ;;
     Normal (mk (councils this) (currentFilter this) mapping (lgaLayer this)
                (warnings this)))
    (fun error =>
       Normal (mk (councils this) (currentFilter this) (nameMapping this)
                  (lgaLayer this)
                  (warnings this ++ ["Using fallback name matching without mapping file"])%list)).

(** [loadCouncilBoundaries]: the layer is created with the style function
    [feature => this.getLGAStyle(feature)]. *)
Definition loadCouncilBoundaries (this : t) : t :=
  mk (councils this) (currentFilter this) (nameMapping this) (Some StyleLGA)
     (warnings this).

(** [init]: [await this.loadNameMapping()], then the boundaries;
    [createMap], [createPopup] and [setupMapControls] only build OpenLayers
    objects and are left out. *)
Definition init (this : t) (response : fetch_result) : completion t :=
  this <- loadNameMapping this response ;;
  Normal (loadCouncilBoundaries this).

(** [getStatusColors(status, isHover = false)]: the [switch] compares
    [status] with each label by strict equality. *)
Definition getStatusColors (status : option string) (isHover : bool)
  : StatusColors.t :=
  let labelled label :=
    match status with Some s => String.eqb s label | None => false end in
  if labelled "Yes" then
    StatusColors.mk
      (if isHover then "rgba(220, 53, 69, 0.8)" else "rgba(220, 53, 69, 0.7)")
      None
      "rgba(220, 53, 69, 0.85)"
  else if labelled "No" then
    StatusColors.mk
      (if isHover then "rgba(40, 167, 69, 0.8)" else "rgba(40, 167, 69, 0.7)")
      None
      "rgba(40, 167, 69, 0.85)"
  else
    StatusColors.mk
      (if isHover then "rgba(108, 117, 125, 0.7)" else "rgba(108, 117, 125, 0.6)")
      None
      "rgba(108, 117, 125, 0.75)".

(** [new ol.style.Style({})]: nothing is drawn. *)
Definition hiddenStyle : Style.t := Style.mk None None.

Definition getDefaultStyle : Style.t :=
  Style.mk (Some "rgba(200, 200, 200, 0.1)")
           (Some (Style.mkStroke "#cccccc" 1)).

(** The nine alternatives of the pattern applied to the GIS name and the
    five of the pattern applied to a council name. *)
Definition gisQualifiers : list string :=
  [ "CITY"; "SHIRE"; "REGIONAL"; "MUNICIPAL"; "COUNCIL";
    "THE COUNCIL OF THE"; "MUNICIPALITY OF"; "CITY OF"; "SHIRE OF" ].

Definition councilQualifiers : list string :=
  [ "CITY"; "SHIRE"; "REGIONAL"; "MUNICIPAL"; "COUNCIL" ].

(** [cleanGisName], from [normalizedGisName] *)
Definition cleanGisName (normalizedGisName : string) : string :=
  trim (collapse_spaces (remove_words gisQualifiers normalizedGisName)).

(** [cleanCouncilName], from [councilName] *)
Definition cleanCouncilName (councilName : string) : string :=
  trim (collapse_spaces (remove_words councilQualifiers councilName)).

(** The normalization of a candidate name:
    [gisName.toUpperCase().trim()] and then [cleanGisName]. *)
Definition normalizeGis (gisName : string) : string :=
  cleanGisName (trim (toUpperCase gisName)).

(** The normalization of a catalog name:
    [council.name.toUpperCase()] and then [cleanCouncilName]. *)
Definition normalizeCouncil (name : string) : string :=
  cleanCouncilName (toUpperCase name).

(** The body of the loop that fills [reverseMapping]:
    [reverseMapping[gisFullName] = ourName]. *)
Definition recordEntry (reverseMapping : JsObject.t) (entry : string * string)
  : JsObject.t :=
  let '(ourName, gisFullName) := entry in
  JsObject.set reverseMapping gisFullName ourName.

(** [reverseMapping] after the loop over [Object.entries(this.nameMapping)].
    [nameMapping] holds the properties of the parsed document in the order
    of their creation; [Object.entries] lists those under an array index
    first. *)
Definition reverseMapping (nameMapping : list (string * string)) : JsObject.t :=
  fold_left recordEntry (OwnKeys.entries nameMapping) JsObject.empty.

(** The callback of the lookup after a hit in the reverse mapping. *)
Definition mappedMatch (ourName : string) (council : Council.t) : bool :=
  String.eqb (toUpperCase (Council.name council)) (toUpperCase ourName) ||
  String.eqb (collapse_spaces (toUpperCase (Council.name council)))
             (collapse_spaces (toUpperCase ourName)).

(** The callback of the fuzzy lookup. *)
Definition fuzzyMatch (normalizedGisName cleanGis : string)
  (council : Council.t) : bool :=
  let councilName := toUpperCase (Council.name council) in
  if String.eqb councilName normalizedGisName then true
  else
    let cleanCouncil := cleanCouncilName councilName in
    String.eqb cleanCouncil cleanGis ||
    includes cleanCouncil cleanGis ||
    includes cleanGis cleanCouncil.

(** The second half of [findCouncilByName]. *)
Definition fuzzyFind (councils : list Council.t) (gisName : string)
  : option Council.t :=
  let normalizedGisName := trim (toUpperCase gisName) in
  let cleanGis := cleanGisName normalizedGisName in
  find (fuzzyMatch normalizedGisName cleanGis) councils.

(** [findCouncilByName(gisName)]; [None] stands for [null] and for the
    [undefined] of a [find] without result.  When the value read from
    [reverseMapping] is not a string, [ourName.toUpperCase()] throws in
    the first call of the callback. *)
Definition findCouncilByName (this : t) (gisName : jsname)
  : completion (option Council.t) :=
  match gisName with
  | JString name =>
      if negb (truthy gisName) then Normal None
      else
        let fuzzy := Normal (fuzzyFind (councils this) name) in
        match nameMapping this with
        | Some mapping =>
            let entry := JsObject.get (reverseMapping mapping) name in
            if JsObject.value_truthy entry then
              match entry with
              | JsObject.Str ourName =>
                  Normal (find (mappedMatch ourName) (councils this))
              | _ =>
                  array_find
                    (fun _ => Throw (TypeError "ourName.toUpperCase is not a function"))
                    (councils this)
              end
            else fuzzy
        | None => fuzzy
        end
  | _ => Normal None
  end.

Definition nameKeys : list string :=
  [ "lga_name_2021"; "lga_name"; "LGA_NAME"; "name"; "NAME"; "lga_nam11";
    "lga_name16"; "LGA_NAME22"; "lgaName"; "LGA_NAM" ].

(** [feature.get(k1) || feature.get(k2) || ...]: the first truthy value,
    or the value of the last operand. *)
Fixpoint probe (feature : Feature.t) (keys : list string) : jsname :=
  match keys with
  | [] => JUndefined
  | [k] => Feature.get feature k
  | k :: rest =>
      if truthy (Feature.get feature k) then Feature.get feature k
      else probe feature rest
  end.

(** [getLGAStyle(feature)]; the call counters and the rate-limited log do
    not reach the style. *)
Definition getLGAStyle (this : t) (feature : Feature.t) : completion Style.t :=
  let councilName := probe feature nameKeys in
  council <- findCouncilByName this councilName ;;
  match council with
  | None => Normal (Style.mk (Some "rgba(248, 249, 250, 0.4)") None)
  | Some council =>
      let colors := getStatusColors (Council.status council) false in
      Normal (Style.mk (Some (StatusColors.fill colors)) None)
  end.

(** The style function that [applyFilter(filter)] installs. *)
Definition filteredStyle (this : t) (filter : option Filters.t)
  (feature : Feature.t) : completion Style.t :=
  let councilName := probe feature nameKeys in
  council <- findCouncilByName this councilName ;;
  match council with
  | None => Normal getDefaultStyle
  | Some council =>
      let hidden :=
        match filter with
        | Some filter =>
            Nat.ltb 0 (List.length (Filters.status filter)) &&
            negb (Tracker.includes_status (Filters.status filter)
                                          (Council.status council))
        | None => false
        end in
      if hidden then Normal hiddenStyle
      else getLGAStyle this feature
  end.

(** [applyFilter(filter)] *)
Definition applyFilter (this : t) (filter : option Filters.t) : t :=
  mk (councils this) filter (nameMapping this)
     (match lgaLayer this with
      | Some _ => Some (StyleFiltered filter)
      | None => None
      end)
     (warnings this).

(** The style OpenLayers obtains for a feature of [lgaLayer]. *)
Definition styleFeature (this : t) (feature : Feature.t)
  : option (completion Style.t) :=
  match lgaLayer this with
  | None => None
  | Some StyleLGA => Some (getLGAStyle this feature)
  | Some (StyleFiltered filter) => Some (filteredStyle this filter feature)
  end.

End MapController.

(* ================================================================== *)
(** ** main.js *)
(* ================================================================== *)

Module Main.

(** What [initializeApp] leaves behind: the two controllers and the
    console warning, or the error banner of its [catch]. *)
Inductive app_state : Type :=
| Running (councils : list Council.t) (mapController : MapController.t)
          (validationWarnings : list string)
| Failed (banner : string).

(** The entries of the document that do not validate, as
    [`${name}: ${validation.errors.join(', ')}`]. *)
Definition validationErrors (councilData : list (string * RawCouncil.t))
  : list string :=
  flat_map
    (fun '(name, data) =>
       let validation := Utils.validateCouncilData data in
       if Validation.isValid validation then []
       else [name ++ ": " ++ JsString.join ", " (Validation.errors validation)])
    councilData.

Definition banner : string := "Failed to load application. Please refresh the page.".

(** [initializeApp]: [councilData] is the value of
    [window.councilDataPromise] ([None] for [null] or [undefined]), given
    as [Object.entries]; [response] is the outcome of the fetch of the
    name mapping.  The validation errors are only printed with
    [console.warn]; whatever is thrown ends in the banner of the [catch]
    block.  The work of the constructors on the page is left out. *)
Definition initializeApp (councilData : option (list (string * RawCouncil.t)))
  (response : fetch_result) : app_state :=
  let attempt :=
    match councilData with
    | None => Throw (Error "Failed to load council data")
    | Some [] => Throw (Error "Failed to load council data")
    | Some entries =>
        let warnings := validationErrors entries in
        let councils := Tracker.councils_of entries in
        mapController <- MapController.init (MapController.new councils) response ;;
        Normal (Running councils mapController warnings)
    end in
  match attempt with
  | Normal state => state
  | Throw _ => Failed banner
  end.

End Main.

(* ================================================================== *)
(** ** Vocabulary of the properties *)
(* ================================================================== *)

(** Reading a CSS colour [rgba(r, g, b, 0.a)] back into its components;
    the alpha is counted in hundredths. *)
Module Rgba.
Import JsString.

Record t : Type := mk {
  red : nat;
  green : nat;
  blue : nat;
  alpha : nat
}.

(** The decimal digits at the head of [s], and what follows them. *)
Fixpoint digits (s : string) : list nat * string :=
  match s with
  | EmptyString => ([], EmptyString)
  | String c t =>
      if is_digit c
      then let '(ds, rest) := digits t in ((code c - 48) :: ds, rest)
      else ([], s)
  end.

Definition number (ds : list nat) : nat :=
  fold_left (fun acc d => 10 * acc + d) ds 0.

Definition expect (p s : string) : option string :=
  if startsWith s p then Some (substring (String.length p)
                                         (String.length s - String.length p) s)
  else None.

Definition component (s : string) : option (nat * string) :=
  match digits s with
  | ([], _) => None
  | (ds, rest) => Some (number ds, rest)
  end.

Definition fraction (s : string) : option (nat * string) :=
  match expect "0." s with
  | Some s1 =>
      match digits s1 with
      | ([d1], rest) => Some (10 * d1, rest)
      | ([d1; d2], rest) => Some (10 * d1 + d2, rest)
      | _ => None
      end
  | None => None
  end.

Definition parse (s : string) : option t :=
  match expect "rgba(" s with
  | None => None
  | Some s1 =>
  match component s1 with
  | None => None
  | Some (r, s2) =>
  match expect ", " s2 with
  | None => None
  | Some s3 =>
  match component s3 with
  | None => None
  | Some (g, s4) =>
  match expect ", " s4 with
  | None => None
  | Some s5 =>
  match component s5 with
  | None => None
  | Some (b, s6) =>
  match expect ", " s6 with
  | None => None
  | Some s7 =>
  match fraction s7 with
  | None => None
  | Some (a, s8) => if String.eqb s8 ")" then Some (mk r g b a) else None
  end end end end end end end end.

(** The same colour, [hundredths] hundredths more opaque. *)
Definition more_opaque (hundredths : nat) (c : t) : t :=
  mk (red c) (green c) (blue c) (alpha c + hundredths).

Inductive family : Type := RedFamily | GreenFamily | BlueFamily | GrayFamily.

(** A colour whose channels lie within an eighth of the range of each
    other is a gray; otherwise the strongest channel names the family. *)
Definition family_of (c : t) : family :=
  let hi := Nat.max (red c) (Nat.max (green c) (blue c)) in
  let lo := Nat.min (red c) (Nat.min (green c) (blue c)) in
  if Nat.leb (hi - lo) 32 then GrayFamily
  else if Nat.leb (green c) (red c) && Nat.leb (blue c) (red c) then RedFamily
  else if Nat.leb (blue c) (green c) then GreenFamily
  else BlueFamily.

(** What the style table is said to use for a status. *)
Definition family_for (status : option string) : family :=
  match status with
  | Some s =>
      if String.eqb s "Yes" then RedFamily
      else if String.eqb s "No" then GreenFamily
      else GrayFamily
  | None => GrayFamily
  end.

End Rgba.

(** Vocabulary about the resolver. *)
Module Resolver.

(** The fetch of the mapping document did not deliver a mapping: the
    request failed, the status was not ok, the body was not JSON, or the
    document was [null]. *)
Definition mapping_unavailable (response : fetch_result) : bool :=
  match response with
  | FetchResponds true _ (JsonObject _) => false
  | _ => true
  end.

(** The controller of a catalog after [init]. *)
Definition started (councils : list Council.t) (response : fetch_result)
  : MapController.t :=
  match MapController.init (MapController.new councils) response with
  | Normal this => this
  | Throw _ => MapController.new councils
  end.

(** The candidate is found (with a truthy value) in the reverse mapping. *)
Definition reverseHit (this : MapController.t) (name : string) : bool :=
  match MapController.nameMapping this with
  | Some mapping =>
      JsObject.value_truthy
        (JsObject.get (MapController.reverseMapping mapping) name)
  | None => false
  end.

(** The answer of the second step alone, for any candidate. *)
Definition fuzzyOnly (councils : list Council.t) (gisName : jsname)
  : option Council.t :=
  match gisName with
  | JString name =>
      if truthy gisName then MapController.fuzzyFind councils name else None
  | _ => None
  end.

(** The predicate of the second step for one candidate. *)
Definition fuzzyMatches (gisName : string) (council : Council.t) : bool :=
  MapController.fuzzyMatch
    (JsString.trim (JsString.toUpperCase gisName))
    (MapController.normalizeGis gisName)
    council.

End Resolver.

(** The two steps of the resolver in the words of the specification, over
    the primitives of strings alone: what a catalog record must satisfy to
    be the answer of a step, and which record is the answer. *)
Module ResolutionSpec.
Import JsString.

(** [answer] is the first of [records] with the property [P], in the
    order of the catalog, and nothing when no record has it. *)
Definition firstWith {A : Type} (P : A -> Prop) (records : list A)
  (answer : option A) : Prop :=
  match answer with
  | Some record =>
      exists before after,
        records = (before ++ record :: after)%list /\
        P record /\
        forall earlier, In earlier before -> ~ P earlier
  | None => forall record, In record records -> ~ P record
  end.

(** The key of the last of [entries] whose value is [name]. *)
Fixpoint lastKey (entries : list (string * string)) (name : string)
  : option string :=
  match entries with
  | [] => None
  | (key, value) :: rest =>
      match lastKey rest name with
      | Some later => Some later
      | None => if String.eqb value name then Some key else None
      end
  end.

(** The id the reverse index holds for a name: the key of the last entry
    of the table, in the order of [Object.entries], whose value is the
    name. *)
Definition mappedId (mapping : list (string * string)) (name : string)
  : option string :=
  lastKey (OwnKeys.entries mapping) name.

(** The record carries the mapped id: its name equals the id when both
    are uppercased, or when both are uppercased and their runs of white
    space are collapsed. *)
Definition carriesId (ourName : string) (council : Council.t) : Prop :=
  toUpperCase (Council.name council) = toUpperCase ourName \/
  collapse_spaces (toUpperCase (Council.name council))
  = collapse_spaces (toUpperCase ourName).

(** The qualifiers stripped from a candidate name and those stripped from
    the name of a record, as whole words and in this order of preference. *)
Definition candidateVocabulary : list string :=
  [ "CITY"; "SHIRE"; "REGIONAL"; "MUNICIPAL"; "COUNCIL";
    "THE COUNCIL OF THE"; "MUNICIPALITY OF"; "CITY OF"; "SHIRE OF" ].

Definition recordVocabulary : list string :=
  [ "CITY"; "SHIRE"; "REGIONAL"; "MUNICIPAL"; "COUNCIL" ].

(** Strip the vocabulary, collapse runs of white space, trim. *)
Definition stripped (vocabulary : list string) (s : string) : string :=
  trim (collapse_spaces (remove_words vocabulary s)).

Definition normalizedCandidate (candidateName : string) : string :=
  stripped candidateVocabulary (trim (toUpperCase candidateName)).

Definition normalizedRecord (name : string) : string :=
  stripped recordVocabulary (toUpperCase name).

(** [sub] occurs in [s]. *)
Definition substringOf (sub s : string) : Prop :=
  exists before after, s = before ++ sub ++ after.

(** The record passes the fuzzy step for the candidate: its uppercased
    name is the uppercased and trimmed candidate, or the normalized names
    are equal, or one of them occurs in the other. *)
Definition fuzzyMatches (candidateName : string) (council : Council.t) : Prop :=
  toUpperCase (Council.name council) = trim (toUpperCase candidateName) \/
  normalizedRecord (Council.name council) = normalizedCandidate candidateName \/
  substringOf (normalizedCandidate candidateName)
              (normalizedRecord (Council.name council)) \/
  substringOf (normalizedRecord (Council.name council))
              (normalizedCandidate candidateName).

End ResolutionSpec.


(** Vocabulary about the filters. *)
Module FilterSpec.

(** The status constraint: no status selected, or the council's status is
    among the selected ones. *)
Definition statusConstraint (filters : Filters.t) (council : Council.t) : bool :=
  match Filters.status filters with
  | [] => true
  | selected => Tracker.includes_status selected (Council.status council)
  end.

(** The region constraint, likewise. *)
Definition regionConstraint (filters : Filters.t) (council : Council.t) : bool :=
  match Filters.region filters with
  | [] => true
  | selected => JsString.array_includes selected (Council.region council)
  end.

(** Name, region and notes joined by single spaces. *)
Definition nameRegionNotes (council : Council.t) : string :=
  JsString.join " " [ Council.name council;
                      Council.region council;
                      UtilsFilter.join_item (Council.notes council) ].

(** [search] occurs in [text], letter case ignored. *)
Definition occursIn (search text : string) : bool :=
  JsString.includes (JsString.toLowerCase text) (JsString.toLowerCase search).

(** A status value of the raw document that is none of the three. *)
Definition status_out_of_range (data : RawCouncil.t) : bool :=
  match RawCouncil.sgars data with
  | Some sgars => negb (JsString.array_includes Utils.validStatuses sgars)
  | None => false
  end.

End FilterSpec.

(** Vocabulary about words and patterns, for the normalization proofs. *)
Module Words.
Import JsString.

(** Every character of [s] satisfies [p]. *)
Fixpoint every (p : ascii -> bool) (s : string) : bool :=
  match s with
  | EmptyString => true
  | String c t => p c && every p t
  end.

Definition not_lower (c : ascii) : bool := negb (is_lower c).

(** The longest prefix of word characters. *)
Fixpoint wordPrefix (s : string) : string :=
  match s with
  | EmptyString => EmptyString
  | String c t => if is_word c then String c (wordPrefix t) else EmptyString
  end.

(** The literal is accepted at the head of [s]: it matches and is followed
    by [\b]. *)
Definition accepts (lit : string) (prev : option ascii) (s : string) : bool :=
  match match_literal lit s prev with
  | Some (p', s') => boundary p' s'
  | None => false
  end.

(** [/\b(alts)\b/] has no match in [s], which follows [prev]. *)
Fixpoint no_match (alts : list string) (prev : option ascii) (s : string) : bool :=
  match s with
  | EmptyString => true
  | String c t =>
      match match_at alts prev s with
      | Some (S _) => false
      | _ => no_match alts (Some c) t
      end
  end.

(** The word [w] occurs in [s] as a whole word: [/\bw\b/.test(s)]. *)
Definition hasWord (w s : string) : bool := negb (no_match [w] None s).

(** A literal made of word characters only, and not empty. *)
Definition word_only (lit : string) : bool :=
  negb (String.eqb lit "") && every is_word lit.

(** Whether the last character of [lit] is a word character ([b] for the
    empty literal). *)
Fixpoint ends_with_word (b : bool) (lit : string) : bool :=
  match lit with
  | EmptyString => b
  | String a rest => ends_with_word (is_word a) rest
  end.

(** A literal that begins and ends with a word character. *)
Definition word_edged (lit : string) : bool :=
  word_at lit && ends_with_word false lit.

(** After [k] more characters of [s] comes a character that is not a word
    character, or the end. *)
Fixpoint landing (k : nat) (s : string) : bool :=
  match k with
  | O => negb (word_at s)
  | S k' =>
      match s with
      | EmptyString => true
      | String _ t => landing k' t
      end
  end.

(** [s], which follows [prev], consists of white space and of whole words
    of the list. *)
Fixpoint only_words (words : list string) (prev : option ascii) (s : string)
  : bool :=
  match s with
  | EmptyString => true
  | String c t =>
      (if is_word c
       then word_before prev || array_includes words (wordPrefix s)
       else is_space c)
      && only_words words (Some c) t
  end.

(** White space occurs in [s] only as single spaces ([after_space]: the
    character before [s] is a space). *)
Fixpoint single_spaced (after_space : bool) (s : string) : bool :=
  match s with
  | EmptyString => true
  | String c t =>
      if is_space c
      then Ascii.eqb c " "%char && negb after_space && single_spaced true t
      else single_spaced false t
  end.

Definition no_leading_space (s : string) : bool :=
  match s with
  | EmptyString => true
  | String c _ => negb (is_space c)
  end.

End Words.

(** The strings of ASCII characters, on which the character functions of
    [JsString] are those of JavaScript. *)
Module Charset.
Import JsString.

Definition ascii_char (c : ascii) : bool := Nat.ltb (code c) 128.

Definition ascii (s : string) : bool := Words.every ascii_char s.

End Charset.

(** Vocabulary about the normalization of the GIS names. *)
Module GisWords.

(** The single words that begin a match of the pattern of the GIS names:
    the five one-word alternatives and the first word of the phrase
    "MUNICIPALITY OF". *)
Definition singleWords : list string :=
  (MapController.councilQualifiers ++ ["MUNICIPALITY"])%list.

End GisWords.

(* ================================================================== *)
(** ** utils.js: string manipulation *)
(* ================================================================== *)

Module UtilsText.
Import JsString.

(** [s.replace(/[^class]/g, '')]: the characters of the class are kept. *)
Fixpoint keep_chars (class : ascii -> bool) (s : string) : string :=
  match s with
  | EmptyString => EmptyString
  | String c t =>
      if class c then String c (keep_chars class t) else keep_chars class t
  end.

(** [s.replace(/[class]+/g, r)]: every run of characters of the class
    becomes the single character [r]. *)
Fixpoint replace_runs (class : ascii -> bool) (r : ascii) (in_run : bool)
  (s : string) : string :=
  match s with
  | EmptyString => EmptyString
  | String c t =>
      if class c
      then if in_run then replace_runs class r true t
           else String r (replace_runs class r true t)
      else String c (replace_runs class r false t)
  end.

(** [s.replace(/^[class]+/, '')] and [s.replace(/[class]+$/, '')] *)
Fixpoint dropStart (class : ascii -> bool) (s : string) : string :=
  match s with
  | EmptyString => EmptyString
  | String c t => if class c then dropStart class t else s
  end.

Fixpoint dropEnd (class : ascii -> bool) (s : string) : string :=
  match s with
  | EmptyString => EmptyString
  | String c t =>
      match dropEnd class t with
      | EmptyString => if class c then EmptyString else String c EmptyString
      | t' => String c t'
      end
  end.

Definition is_hyphen (c : ascii) : bool := Ascii.eqb c "-"%char.

(** [[\w\s-]] and [[\s_-]] *)
Definition slug_kept (c : ascii) : bool := is_word c || is_space c || is_hyphen c.
Definition slug_separator (c : ascii) : bool :=
  is_space c || Ascii.eqb c "_"%char || is_hyphen c.

(** [slugify(str)] *)
Definition slugify (str : string) : string :=
  if negb (truthy_string str) then ""
  else
    dropEnd is_hyphen
      (dropStart is_hyphen
         (replace_runs slug_separator "-"%char false
            (keep_chars slug_kept (toLowerCase str)))).

(** [text.substring(0, end)] for an integer [end]: a negative end counts
    as 0, an end beyond the text as its length. *)
Definition substring_to (text : string) (finish : Z) : string :=
  substring 0 (Z.to_nat finish) text.

(** [truncateText(text, maxLength, suffix = '...')] for an integer
    [maxLength]. *)
Definition truncateText (text : string) (maxLength : Z) (suffix : string)
  : string :=
  if negb (truthy_string text) then ""
  else if (Z.of_nat (String.length text) <=? maxLength)%Z then text
  else substring_to text (maxLength - Z.of_nat (String.length suffix)) ++ suffix.

(** The characters of a slug: lowercase letters, digits and the hyphen. *)
Definition slug_char (c : ascii) : bool := is_lower c || is_digit c || is_hyphen c.

Fixpoint last_char (s : string) : option ascii :=
  match s with
  | EmptyString => None
  | String c EmptyString => Some c
  | String _ t => last_char t
  end.

End UtilsText.

(** Vocabulary about slugs. *)
Module Slug.
Import JsString.

(** No hyphen of [s] follows a hyphen directly ([after_hyphen]: the
    character before [s] is a hyphen). *)
Fixpoint hyphen_separated (after_hyphen : bool) (s : string) : bool :=
  match s with
  | EmptyString => true
  | String c t =>
      if UtilsText.is_hyphen c
      then negb after_hyphen && hyphen_separated true t
      else hyphen_separated false t
  end.

Definition not_upper (c : ascii) : bool := negb (is_upper c).

End Slug.

(* ================================================================== *)
(** ** sgar-tracker.js: filters, pages and their handlers *)
(* ================================================================== *)

Module Pagination.
Record t : Type := mk {
  currentPage : nat;
  cardsPerPage : nat;
  totalPages : nat
}.
End Pagination.

(** An entry of the array [pageNumbers] of [generatePageNumbers]. *)
Inductive page_token : Type :=
| Page (number : nat)
| Ellipsis.

Module SGARTracker.
Import JsString.

Record t : Type := mk {
  councils : list Council.t;
  currentView : string;
  filters : Filters.t;
  pagination : Pagination.t
}.

(** [getCardsPerPage()], from [window.innerWidth] *)
Definition getCardsPerPage (innerWidth : nat) : nat :=
  if Nat.leb 1024 innerWidth then 24
  else if Nat.leb 768 innerWidth then 18
  else 12.

(** The fields the constructor sets; [innerWidth] is the width of the
    window at that time. *)
Definition new (councilData : list (string * RawCouncil.t)) (innerWidth : nat) : t :=
  mk (Tracker.councils_of councilData) "map" (Filters.mk [] [] "" None)
     (Pagination.mk 1 (getCardsPerPage innerWidth) 1).

Definition getFilteredCouncils (this : t) : completion (list Council.t) :=
  Tracker.getFilteredCouncils (councils this) (filters this).

(** [Math.ceil(n / perPage)] for a positive [perPage]. *)
Definition pages_for (n perPage : nat) : nat := (n + perPage - 1) / perPage.

(** [arr.slice(start, end)] for [0 <= start <= end]. *)
Definition slice {A : Type} (arr : list A) (start finish : nat) : list A :=
  firstn (finish - start) (skipn start arr).

(** The councils of page [page]: [filteredCouncils.slice(startIndex,
    endIndex)].  For page 0 the start index is negative and the end index
    is 0: the slice is empty. *)
Definition pageOf {A : Type} (filtered : list A) (perPage page : nat) : list A :=
  match page with
  | O => []
  | S before => slice filtered (before * perPage) (before * perPage + perPage)
  end.

(** [renderCouncils()] on a page that has the container: the pagination
    after it.  Nothing is changed when [getFilteredCouncils] throws. *)
Definition renderCouncils (this : t) : completion t :=
  filteredCouncils <- getFilteredCouncils this ;;
  let p := pagination this in
  let totalPages :=
    pages_for (List.length filteredCouncils) (Pagination.cardsPerPage p) in
  let currentPage :=
    if Nat.ltb totalPages (Pagination.currentPage p) then 1
    else Pagination.currentPage p in
  Normal (mk (councils this) (currentView this) (filters this)
             (Pagination.mk currentPage (Pagination.cardsPerPage p) totalPages)).

(** [paginatedCouncils] of [renderCouncils], computed from the state it
    leaves. *)
Definition paginatedCouncils (this : t) : completion (list Council.t) :=
  filteredCouncils <- getFilteredCouncils this ;;
  Normal (pageOf filteredCouncils
            (Pagination.cardsPerPage (pagination this))
            (Pagination.currentPage (pagination this))).

(** What [renderCouncils] writes into the container, computed from the
    state it leaves: the cards of [paginatedCouncils] in the view "grid",
    the list items of all of [filteredCouncils] in any other view. *)
Definition writtenCouncils (this : t) : completion (list Council.t) :=
  filteredCouncils <- getFilteredCouncils this ;;
  let paginatedCouncils :=
    pageOf filteredCouncils
      (Pagination.cardsPerPage (pagination this))
      (Pagination.currentPage (pagination this)) in
  Normal (if String.eqb (currentView this) "grid"
          then paginatedCouncils
          else filteredCouncils).

(** The state after a handler that ends with [this.renderCouncils()]: an
    exception leaves the fields as they were before the call. *)
Definition rendered (this : t) : t :=
  match renderCouncils this with
  | Normal this' => this'
  | Throw _ => this
  end.

Definition with_page (this : t) (page : nat) : t :=
  mk (councils this) (currentView this) (filters this)
     (Pagination.mk page (Pagination.cardsPerPage (pagination this))
                    (Pagination.totalPages (pagination this))).

Definition with_filters (this : t) (filters : Filters.t) : t :=
  mk (councils this) (currentView this) filters (pagination this).

(** The click handlers of the buttons "previous" and "next". *)
Definition prevPage (this : t) : t :=
  if Nat.ltb 1 (Pagination.currentPage (pagination this))
  then rendered (with_page this (Pagination.currentPage (pagination this) - 1))
  else this.

Definition nextPage (this : t) : t :=
  if Nat.ltb (Pagination.currentPage (pagination this))
             (Pagination.totalPages (pagination this))
  then rendered (with_page this (Pagination.currentPage (pagination this) + 1))
  else this.

(** [goToPage(page)] for an integer [page] ([NaN] fails both tests, like
    0). *)
Definition goToPage (this : t) (page : Z) : t :=
  if ((1 <=? page)%Z &&
      (page <=? Z.of_nat (Pagination.totalPages (pagination this)))%Z)
  then rendered (with_page this (Z.to_nat page))
  else this.

(** [applyFilter(filterType)], the handler of the quick filter buttons;
    [None] is the [null] of a button without the attribute. *)
Definition applyFilter (this : t) (filterType : option string) : t :=
  let labelled label :=
    match filterType with Some s => String.eqb s label | None => false end in
  let status :=
    if labelled "using-sgars" then ["Yes"]
    else if labelled "sgar-free" then ["No"]
    else if labelled "unknown" then ["Unknown"]
    else [] in
  rendered (with_page (with_filters this (Filters.mk status [] "" filterType)) 1).

(** [clearAllFilters()] *)
Definition clearAllFilters (this : t) : t :=
  rendered (with_page (with_filters this (Filters.mk [] [] "" None)) 1).

(** The [input] handler of the search box. *)
Definition searchInput (this : t) (value : string) : t :=
  let f := filters this in
  rendered (with_filters this
              (Filters.mk (Filters.status f) (Filters.region f)
                          (toLowerCase value) (Filters.quickFilter f))).

(** The [change] handlers of the two dropdowns, with the arrays they
    assign. *)
Definition statusSelected (this : t) (status : list string) : t :=
  let f := filters this in
  rendered (with_filters this
              (Filters.mk status (Filters.region f) (Filters.search f)
                          (Filters.quickFilter f))).

Definition regionSelected (this : t) (region : list string) : t :=
  let f := filters this in
  rendered (with_filters this
              (Filters.mk (Filters.status f) region (Filters.search f)
                          (Filters.quickFilter f))).

(** [switchView(view)]: the councils are rendered for every view but the
    map. *)
Definition switchView (this : t) (view : string) : t :=
  let this' := mk (councils this) view (filters this) (pagination this) in
  if String.eqb view "map" then this' else rendered this'.

(** The [resize] handler of [init]. *)
Definition resized (this : t) (innerWidth : nat) : t :=
  let p := pagination this in
  let this' :=
    mk (councils this) (currentView this) (filters this)
       (Pagination.mk (Pagination.currentPage p) (getCardsPerPage innerWidth)
                      (Pagination.totalPages p)) in
  if negb (String.eqb (currentView this) "map") then rendered this' else this'.

(** [hasActiveFilters()], as a truth value. *)
Definition hasActiveFilters (this : t) : bool :=
  let f := filters this in
  Nat.ltb 0 (String.length (Filters.search f)) ||
  Nat.ltb 0 (List.length (Filters.status f)) ||
  Nat.ltb 0 (List.length (Filters.region f)) ||
  match Filters.quickFilter f with
  | Some quick => truthy_string quick && negb (String.eqb quick "all")
  | None => false
  end.

(** [pageNumbers.includes(i)] for a number [i] *)
Definition includes_page (pageNumbers : list page_token) (i : nat) : bool :=
  existsb (fun token =>
             match token with
             | Page n => Nat.eqb n i
             | Ellipsis => false
             end)
          pageNumbers.

(** The loop of [generatePageNumbers] over the pages around the current
    one: [count] more values of [i]. *)
Fixpoint pushAround (pageNumbers : list page_token) (i count : nat)
  : list page_token :=
  match count with
  | O => pageNumbers
  | S count' =>
      pushAround
        (if includes_page pageNumbers i then pageNumbers
         else pageNumbers ++ [Page i])%list
        (S i) count'
  end.

(** The array [pageNumbers] that [generatePageNumbers] renders as
    buttons. *)
Definition pageNumbers (currentPage totalPages : nat) : list page_token :=
  let numbers := if Nat.ltb 1 totalPages then [Page 1] else [] in
  let numbers :=
    if Nat.ltb 3 currentPage then (numbers ++ [Ellipsis])%list else numbers in
  let low := Nat.max 2 (currentPage - 1) in
  let high := Nat.min (totalPages - 1) (currentPage + 1) in
  let numbers := pushAround numbers low (S high - low) in
  let numbers :=
    if Nat.ltb currentPage (totalPages - 2)
    then (numbers ++ [Ellipsis])%list else numbers in
  if Nat.ltb 1 totalPages && negb (includes_page numbers totalPages)
  then (numbers ++ [Page totalPages])%list
  else numbers.

(** The events of a session. *)
Inductive event : Type :=
| PrevClicked
| NextClicked
| PageClicked (page : Z)
| QuickFilterClicked (filterType : option string)
| FiltersCleared
| SearchTyped (value : string)
| StatusSelected (status : list string)
| RegionSelected (region : list string)
| ViewSwitched (view : string)
| WindowResized (innerWidth : nat).

Definition handle (this : t) (e : event) : t :=
  match e with
  | PrevClicked => prevPage this
  | NextClicked => nextPage this
  | PageClicked page => goToPage this page
  | QuickFilterClicked filterType => applyFilter this filterType
  | FiltersCleared => clearAllFilters this
  | SearchTyped value => searchInput this value
  | StatusSelected status => statusSelected this status
  | RegionSelected region => regionSelected this region
  | ViewSwitched view => switchView this view
  | WindowResized innerWidth => resized this innerWidth
  end.

End SGARTracker.

(** Vocabulary about the quick filters and the page buttons. *)
Module TrackerSpec.

(** The status a quick filter selects; [None] for "all" and for every
    other value of the attribute. *)
Definition quickStatus (filterType : option string) : option string :=
  match filterType with
  | Some s =>
      if String.eqb s "using-sgars" then Some "Yes"
      else if String.eqb s "sgar-free" then Some "No"
      else if String.eqb s "unknown" then Some "Unknown"
      else None
  | None => None
  end.

Definition hasStatus (wanted : option string) (council : Council.t) : bool :=
  match wanted with
  | None => true
  | Some status =>
      match Council.status council with
      | Some s => String.eqb s status
      | None => false
      end
  end.

(** In a row of page buttons, the numbers grow, two numbers that follow
    each other directly are consecutive, and two numbers with an ellipsis
    between them are not.  [last] is the number before the row ([None] at
    the start) and [gap] tells that an ellipsis came after it. *)
Fixpoint gaps_marked (last : option nat) (gap : bool) (row : list page_token)
  : bool :=
  match row with
  | [] => negb gap
  | Ellipsis :: rest =>
      negb gap && match last with Some _ => true | None => false end
      && gaps_marked last true rest
  | Page n :: rest =>
      match last with
      | None => negb gap
      | Some m => if gap then Nat.ltb (S m) n else Nat.eqb n (S m)
      end && gaps_marked (Some n) false rest
  end.

(** The state after a sequence of events, the oldest first. *)
Definition run (this : SGARTracker.t) (events : list SGARTracker.event)
  : SGARTracker.t :=
  fold_left SGARTracker.handle events this.

(** What the handlers keep: a positive page number and a positive page
    size. *)
Definition paged (this : SGARTracker.t) : Prop :=
  1 <= Pagination.currentPage (SGARTracker.pagination this) /\
  0 < Pagination.cardsPerPage (SGARTracker.pagination this).

End TrackerSpec.

(* ================================================================== *)
(** ** utils.js: transformation, grouping, statistics and sorting *)
(* ================================================================== *)

(** The accumulator of the two [reduce] calls: a plain object whose own
    properties are arrays of councils, in the order of their creation.  A
    key that is not an own property is read from [Object.prototype]. *)
Module Groups.

Definition t : Type := list (string * list Council.t).

Inductive slot : Type :=
| Own (members : list Council.t)
| Inherited                    (* a function or object of the prototype *)
| Absent.

Fixpoint own (groups : t) (k : string) : option (list Council.t) :=
  match groups with
  | [] => None
  | (k', members) :: rest => if String.eqb k k' then Some members else own rest k
  end.

(** [groups[k]] *)
Definition get (groups : t) (k : string) : slot :=
  match own groups k with
  | Some members => Own members
  | None =>
      if JsString.array_includes JsObject.object_prototype_keys k
      then Inherited else Absent
  end.

(** [groups[k].push(council)] for an own property [k] *)
Fixpoint push (groups : t) (k : string) (council : Council.t) : t :=
  match groups with
  | [] => []
  | (k', members) :: rest =>
      if String.eqb k k' then (k', (members ++ [council])%list) :: rest
      else (k', members) :: push rest k council
  end.

(** The body of the callback: [if (!groups[k]) groups[k] = [];
    groups[k].push(council)].  What the prototype has under [k] is truthy
    and has no [push]. *)
Definition add (k : string) (groups : t) (council : Council.t) : completion t :=
  match get groups k with
  | Absent => Normal (groups ++ [(k, [council])])%list
  | Own _ => Normal (push groups k council)
  | Inherited => Throw (TypeError "groups[key].push is not a function")
  end.

(** [councils.reduce((groups, council) => ..., {})] *)
Definition reduce (key : Council.t -> string) (councils : list Council.t)
  : completion t :=
  fold_left (fun acc council => groups <- acc ;; add (key council) groups council)
            councils (Normal []).

End Groups.

(** An entry of the raw document as [transformCouncilData] reads it. *)
Module RawEntry.
Record t : Type := mk {
  sgars : option string;
  notes : option string;
  email : option string;
  region : option string;
  lastUpdated : option string
}.
End RawEntry.

Module RegionStats.
Record t : Type := mk {
  region : string;
  total : nat;
  usingSgars : nat;
  sgarFree : nat;
  unknown : nat
}.
End RegionStats.

Module Stats.
Record t : Type := mk {
  total : nat;
  usingSgars : nat;
  sgarFree : nat;
  unknown : nat;
  regions : nat;
  byRegion : list RegionStats.t
}.
End Stats.

Module UtilsData.
Import JsString.

(** [value || fallback] for a string that may be [undefined] *)
Definition or_default (value : option string) (fallback : string) : string :=
  match value with
  | Some s => if truthy_string s then s else fallback
  | None => fallback
  end.

(** [transformCouncilData(rawData)]: [rawData] is [None] when it is falsy
    or no object, and is given as [Object.entries] otherwise, each entry an
    object; [today] is [new Date().toISOString().split('T')[0]]. *)
Definition transformCouncilData
    (rawData : option (list (string * RawEntry.t))) (today : string)
  : list Council.t :=
  match rawData with
  | None => []
  | Some entries =>
      filter (fun council => truthy_string (Council.name council))
        (map (fun '(name, data) =>
                Council.mk (Utils.titleCase name)
                  (Some (or_default (RawEntry.sgars data) "Unknown"))
                  (Some (or_default (RawEntry.notes data) ""))
                  (Some (or_default (RawEntry.email data) ""))
                  (or_default (RawEntry.region data) "Other")
                  (or_default (RawEntry.lastUpdated data) today))
             entries)
  end.

(** [council.region || 'Other'] and [council.status || 'Unknown'] *)
Definition regionKey (council : Council.t) : string :=
  or_default (Some (Council.region council)) "Other".

Definition statusKey (council : Council.t) : string :=
  or_default (Council.status council) "Unknown".

Definition groupCouncilsByRegion (councils : list Council.t)
  : completion Groups.t :=
  Groups.reduce regionKey councils.

Definition groupCouncilsByStatus (councils : list Council.t)
  : completion Groups.t :=
  Groups.reduce statusKey councils.

(** [groups[k]?.length || 0] for a key that [Object.prototype] does not
    have *)
Definition group_length (groups : Groups.t) (k : string) : nat :=
  match Groups.own groups k with
  | Some members => List.length members
  | None => 0
  end.

(** [c.status === status] *)
Definition has_status (status : string) (council : Council.t) : bool :=
  match Council.status council with
  | Some s => String.eqb s status
  | None => false
  end.

Definition count_status (status : string) (councils : list Council.t) : nat :=
  List.length (filter (has_status status) councils).

(** A council whose status is [undefined] or the empty string. *)
Definition no_status (council : Council.t) : bool :=
  match Council.status council with
  | Some s => negb (truthy_string s)
  | None => true
  end.

(** The councils filed under the key [k], in their order. *)
Definition filed_under (key : Council.t -> string) (k : string)
  (councils : list Council.t) : list Council.t :=
  filter (fun council => String.eqb (key council) k) councils.

(** Some council has a key that [Object.prototype] has as well. *)
Definition inherited_key (key : Council.t -> string)
  (councils : list Council.t) : bool :=
  existsb (fun council =>
             array_includes JsObject.object_prototype_keys (key council))
          councils.

(** [calculateCouncilStats(councils)] *)
Definition calculateCouncilStats (councils : list Council.t)
  : completion Stats.t :=
  let total := List.length councils in
  byStatus <- groupCouncilsByStatus councils ;;
  byRegion <- groupCouncilsByRegion councils ;;
  Normal
    (Stats.mk total
       (group_length byStatus "Yes")
       (group_length byStatus "No")
       (group_length byStatus "Unknown")
       (List.length (OwnKeys.entries byRegion))
       (map (fun '(region, regionCouncils) =>
               RegionStats.mk region
                 (List.length regionCouncils)
                 (count_status "Yes" regionCouncils)
                 (count_status "No" regionCouncils)
                 (count_status "Unknown" regionCouncils))
            (OwnKeys.entries byRegion))).

(** [a[sortBy]] when it is a string: the fields of a council.  Any other
    property name gives [undefined], or the same value of
    [Object.prototype] for every council. *)
Definition field (sortBy : string) (council : Council.t) : option string :=
  if String.eqb sortBy "name" then Some (Council.name council)
  else if String.eqb sortBy "status" then Council.status council
  else if String.eqb sortBy "notes" then Council.notes council
  else if String.eqb sortBy "contactEmail" then Council.contactEmail council
  else if String.eqb sortBy "region" then Some (Council.region council)
  else if String.eqb sortBy "lastUpdated" then Some (Council.lastUpdated council)
  else None.

(** [valueA] after [(a[sortBy] || '').toLowerCase()].  For a property of
    [Object.prototype] the two values compared are the same object, and
    the comparison gives 0 as it does for two empty strings. *)
Definition sortValue (sortBy : string) (council : Council.t) : string :=
  toLowerCase (or_default (field sortBy council) "").

(** The comparator of [sortCouncils]; strings are compared by their code
    units. *)
Definition compareCouncils (sortBy direction : string) (a b : Council.t) : Z :=
  let valueA := sortValue sortBy a in
  let valueB := sortValue sortBy b in
  let result :=
    if String.ltb valueA valueB then (-1)%Z
    else if String.ltb valueB valueA then 1%Z
    else 0%Z in
  if String.eqb direction "desc" then (- result)%Z else result.

(** [Array.prototype.sort] with a comparator: the sort is stable, and for
    a comparator that is a total preorder the result is that of this
    insertion sort. *)
Fixpoint insert_sorted {A : Type} (compare : A -> A -> Z) (x : A)
  (sorted : list A) : list A :=
  match sorted with
  | [] => [x]
  | y :: rest =>
      if (compare x y <=? 0)%Z then x :: sorted
      else y :: insert_sorted compare x rest
  end.

Fixpoint array_sort {A : Type} (compare : A -> A -> Z) (arr : list A) : list A :=
  match arr with
  | [] => []
  | x :: rest => insert_sorted compare x (array_sort compare rest)
  end.

(** [sortCouncils(councils, sortBy, direction)]: a sorted copy. *)
Definition sortCouncils (councils : list Council.t) (sortBy direction : string)
  : list Council.t :=
  array_sort (compareCouncils sortBy direction) councils.

End UtilsData.

(** Vocabulary about the groups. *)
Module GroupSpec.

(** What a group holds after more councils were filed: the members it
    had, then the new ones; no group without a member. *)
Definition extended (before : option (list Council.t)) (more : list Council.t)
  : option (list Council.t) :=
  match before, more with
  | Some members, _ => Some (members ++ more)%list
  | None, [] => None
  | None, _ => Some more
  end.

(** No own key of the object is a key of [Object.prototype]. *)
Definition plain (groups : Groups.t) : Prop :=
  forall k members,
    Groups.own groups k = Some members ->
    JsString.array_includes JsObject.object_prototype_keys k = false.

(** The sum of a measure over the groups. *)
Definition total (measure : list Council.t -> nat) (groups : Groups.t) : nat :=
  list_sum (map (fun entry => measure (snd entry)) groups).

End GroupSpec.

Module StatsSpec.

(** The number of councils of a list that satisfy [p]. *)
Definition count (p : Council.t -> bool) (councils : list Council.t) : nat :=
  List.length (filter p councils).

(** The sum of a column of the regional statistics. *)
Definition column (f : RegionStats.t -> nat) (stats : Stats.t) : nat :=
  list_sum (map f (Stats.byRegion stats)).

End StatsSpec.

Module SortSpec.

(** [a] may stand before [b]: the values grow for an ascending sort and
    fall for a descending one. *)
Definition inOrder (sortBy direction : string) (a b : Council.t) : Prop :=
  if String.eqb direction "desc"
  then String.leb (UtilsData.sortValue sortBy b) (UtilsData.sortValue sortBy a) = true
  else String.leb (UtilsData.sortValue sortBy a) (UtilsData.sortValue sortBy b) = true.

(** The councils whose value is [value], in their order. *)
Definition valued (sortBy value : string) (councils : list Council.t)
  : list Council.t :=
  filter (fun council => String.eqb (UtilsData.sortValue sortBy council) value)
         councils.

End SortSpec.

(* ================================================================== *)
(** ** utils.js: retries and memoization *)
(* ================================================================== *)

(** [retryWithBackoff(func, maxRetries, baseDelay)] for a whole number
    [maxRetries].  [func k] is the outcome of the [k]-th call of [func]
    (its promise fulfilled or rejected, or an exception of the call).  The
    delays are whole numbers of milliseconds. *)
Module Retry.

Record run (A : Type) : Type := mkRun {
  outcome : completion (option A);   (* [None] is [undefined] *)
  calls : nat;                       (* the calls of [func] made *)
  waited : list Z                    (* the delays awaited, in order *)
}.
Arguments mkRun {A}.
Arguments outcome {A}.
Arguments calls {A}.
Arguments waited {A}.

(** The loop from [attempt] on, with [remaining] values of [attempt] not
    above [maxRetries] left. *)
Fixpoint loop {A : Type} (func : nat -> completion A) (baseDelay : Z)
  (attempt remaining : nat) (delays : list Z) : run A :=
  match remaining with
  | O => mkRun (Normal None) (attempt - 1) delays
  | S remaining' =>
      match func attempt with
      | Normal value => mkRun (Normal (Some value)) attempt delays
      | Throw error =>
          match remaining' with
          | O => mkRun (Throw error) attempt delays
          | S _ =>
              let delay := (baseDelay * 2 ^ Z.of_nat (attempt - 1))%Z in
              loop func baseDelay (S attempt) remaining' (delays ++ [delay])%list
          end
      end
  end.

Definition retryWithBackoff {A : Type} (func : nat -> completion A)
  (maxRetries : nat) (baseDelay : Z) : run A :=
  loop func baseDelay 1 maxRetries [].

(** The time awaited in all. *)
Definition total_wait {A : Type} (r : run A) : Z :=
  fold_right Z.add 0%Z (waited r).

End Retry.

(** [memoize(func, keyGenerator)]: the function it returns, as a step on
    the cache.  [keyGenerator] stands for the given generator or for
    [JSON.stringify]; [same_key] is the comparison of keys by the [Map]. *)
Module Memoize.
Section Memoized.
Variables Args K R : Type.
Variable same_key : K -> K -> bool.
Variable keyGenerator : Args -> K.
Variable func : Args -> completion R.

(** The entries of the [Map], the oldest first. *)
Definition cache : Type := list (K * R).

(** [cache.has(key)] and [cache.get(key)] *)
Fixpoint lookup (entries : cache) (key : K) : option R :=
  match entries with
  | [] => None
  | (k, result) :: rest =>
      if same_key key k then Some result else lookup rest key
  end.

(** A call of the memoized function: the result and the cache after it.
    An exception of [func] leaves the cache as it is. *)
Definition call (entries : cache) (args : Args) : completion R * cache :=
  let key := keyGenerator args in
  match lookup entries key with
  | Some result => (Normal result, entries)
  | None =>
      match func args with
      | Normal result => (Normal result, (entries ++ [(key, result)])%list)
      | Throw error => (Throw error, entries)
      end
  end.

(** The cache after a sequence of calls. *)
Definition after (history : list Args) : cache :=
  fold_left (fun entries args => snd (call entries args)) history [].

(** The call of the history that a later call with [args] repeats: the
    first one with the key of [args] in which [func] returned. *)
Definition repeated (history : list Args) (args : Args) : option Args :=
  find (fun earlier =>
          same_key (keyGenerator args) (keyGenerator earlier) &&
          match func earlier with Normal _ => true | Throw _ => false end)
       history.

End Memoized.
Arguments lookup {K R}.
Arguments call {Args K R}.
Arguments after {Args K R}.
Arguments repeated {Args K R}.
End Memoize.

(* ================================================================== *)
(** ** ui-controller.js: the toast notifications *)
(* ================================================================== *)

Module Toasts.

(** A toast as [showToast] makes it; [id] is [Date.now() + Math.random()]
    and is only compared for equality.  The message, the type and the
    actions do not reach the lists. *)
Record toast : Type := mkToast {
  id : Z;
  duration : Z
}.

(** An entry of [activeToasts]: the toast and its element, named by the
    number of its creation. *)
Record shown : Type := mkShown {
  shown_toast : toast;
  element : nat
}.

(** The 300 ms timer of [dismissToast]: the index found at the time of
    the call and the element of the toast found there. *)
Record removal : Type := mkRemoval {
  toastIndex : nat;
  removed : nat
}.

Record t : Type := mk {
  toastQueue : list toast;
  activeToasts : list shown;
  toastContainer : list nat;     (* the elements in the document *)
  removals : list removal;       (* the pending timers, the oldest first *)
  created : nat                  (* the elements created so far *)
}.

Definition maxToasts : nat := 3.

Definition initial : t := mk [] [] [] [] 0.

(** [displayToast(toast)] *)
Definition displayToast (this : t) (toast : toast) : t :=
  mk (toastQueue this)
     (activeToasts this ++ [mkShown toast (created this)])
     (toastContainer this ++ [created this])
     (removals this)
     (S (created this)).

(** [processToastQueue()] *)
Definition processToastQueue (this : t) : t :=
  if Nat.leb maxToasts (List.length (activeToasts this)) then this
  else match toastQueue this with
       | [] => this
       | toast :: rest =>
           displayToast
             (mk rest (activeToasts this) (toastContainer this)
                 (removals this) (created this))
             toast
       end.

(** [showToast(message, type, duration, actions)], with the toast it
    makes *)
Definition showToast (this : t) (toast : toast) : t :=
  processToastQueue
    (mk (toastQueue this ++ [toast]) (activeToasts this) (toastContainer this)
        (removals this) (created this)).

(** [activeToasts.findIndex(t => t.id === toastId)] *)
Fixpoint findIndex (toastId : Z) (active : list shown) : option nat :=
  match active with
  | [] => None
  | entry :: rest =>
      if Z.eqb (id (shown_toast entry)) toastId then Some 0
      else option_map S (findIndex toastId rest)
  end.

(** [dismissToast(toastId)]: the timer is started; the lists change when
    it fires. *)
Definition dismissToast (this : t) (toastId : Z) : t :=
  match findIndex toastId (activeToasts this) with
  | None => this
  | Some index =>
      match nth_error (activeToasts this) index with
      | Some entry =>
          mk (toastQueue this) (activeToasts this) (toastContainer this)
             (removals this ++ [mkRemoval index (element entry)])
             (created this)
      | None => this
      end
  end.

(** [arr.splice(index, 1)] *)
Definition splice1 {A : Type} (arr : list A) (index : nat) : list A :=
  (firstn index arr ++ skipn (S index) arr)%list.

(** The callback of the oldest pending timer of [dismissToast]: the
    element leaves the document if it is still there, the entry at the
    remembered index leaves [activeToasts], and the queue is
    processed. *)
Definition removalFires (this : t) : t :=
  match removals this with
  | [] => this
  | timer :: rest =>
      processToastQueue
        (mk (toastQueue this)
            (splice1 (activeToasts this) (toastIndex timer))
            (filter (fun e => negb (Nat.eqb e (removed timer)))
                    (toastContainer this))
            rest
            (created this))
  end.

(** What happens to the controller: a toast is shown, a toast is
    dismissed (by its close button, by an action button or by the timer of
    its duration), or the oldest 300 ms timer fires. *)
Inductive event : Type :=
| Show (toast : toast)
| Dismiss (toastId : Z)
| RemovalFires.

Definition handle (this : t) (e : event) : t :=
  match e with
  | Show toast => showToast this toast
  | Dismiss toastId => dismissToast this toastId
  | RemovalFires => removalFires this
  end.

Definition run (this : t) (events : list event) : t :=
  fold_left handle events this.

(** The ids of the entries of [activeToasts]. *)
Definition active_ids (this : t) : list Z :=
  map (fun entry => id (shown_toast entry)) (activeToasts this).

End Toasts.

Module RetrySpec.

(** The delay awaited after the failure of the given attempt. *)
Definition delay_after (baseDelay : Z) (attempt : nat) : Z :=
  (baseDelay * 2 ^ Z.of_nat (attempt - 1))%Z.

(** The delays after the attempts [first], ..., [first + count - 1]. *)
Definition delays (baseDelay : Z) (first count : nat) : list Z :=
  map (delay_after baseDelay) (seq first count).

End RetrySpec.

Module ToastSpec.

(** What every event keeps: at most [maxToasts] active toasts, and a toast
    waits in the queue only while that many are active. *)
Definition bounded (this : Toasts.t) : Prop :=
  List.length (Toasts.activeToasts this) <= Toasts.maxToasts /\
  (Toasts.toastQueue this <> [] ->
   List.length (Toasts.activeToasts this) = Toasts.maxToasts).

(** The ids of some entries of [activeToasts]. *)
Definition ids (entries : list Toasts.shown) : list Z :=
  map (fun entry => Toasts.id (Toasts.shown_toast entry)) entries.

End ToastSpec.

(* ================================================================== *)
(** ** utils.js: highlighting and export *)
(* ================================================================== *)

Module Highlight.
Import JsString.

(** The characters of the class [[.*+?^${}()|[\]\\]] *)
Definition specials : list ascii :=
  [ "."; "*"; "+"; "?"; "^"; "$"; "{"; "}"; "("; ")"; "|"; "["; "]"; "\" ]%char.

Definition is_special (c : ascii) : bool := existsb (Ascii.eqb c) specials.

(** [string.replace(/[.*+?^${}()|[\]\\]/g, '\\$&')] *)
Fixpoint escapeRegExp (s : string) : string :=
  match s with
  | EmptyString => EmptyString
  | String c t =>
      if is_special c then String "\"%char (String c (escapeRegExp t))
      else String c (escapeRegExp t)
  end.

(** The source of a regular expression that is a sequence of pattern
    characters and of syntax characters escaped by a backslash: the
    characters it matches, one after the other.  [None] for a source of
    another form (the syntax characters are the fourteen of
    [specials]). *)
Fixpoint literal_of (source : string) : option string :=
  match source with
  | EmptyString => Some EmptyString
  | String c t =>
      if Ascii.eqb c "\"%char then
        match t with
        | String d u =>
            if is_special d then option_map (String d) (literal_of u) else None
        | EmptyString => None
        end
      else if is_special c then None
      else option_map (String c) (literal_of t)
  end.

(** The literal at the head of the subject under the flag [i]: the
    characters matched and the rest of the subject. *)
Fixpoint match_ignoring_case (lit s : string) : option (string * string) :=
  match lit with
  | EmptyString => Some (EmptyString, s)
  | String a lit' =>
      match s with
      | EmptyString => None
      | String c s' =>
          if Ascii.eqb (upper_char a) (upper_char c) then
            match match_ignoring_case lit' s' with
            | Some (matched, rest) => Some (String c matched, rest)
            | None => None
            end
          else None
      end
  end.

(** A piece of the result of [replace]: a character outside the matches,
    or a match. *)
Inductive piece : Type :=
| Plain (c : ascii)
| Marked (matched : string).

(** [text.replace(/(lit)/gi, ...)] for a literal that is not empty: the
    subject cut at the matches, found from the left; [skip] counts the
    characters of the current match still to pass. *)
Fixpoint pieces (lit : string) (skip : nat) (s : string) : list piece :=
  match s with
  | EmptyString => []
  | String c t =>
      match skip with
      | S k => pieces lit k t
      | O =>
          match match_ignoring_case lit s with
          | Some (matched, _) =>
              Marked matched :: pieces lit (String.length lit - 1) t
          | None => Plain c :: pieces lit 0 t
          end
      end
  end.

(** The replacement ['<mark>$1</mark>'] for a match, a character outside
    the matches as it is. *)
Definition render (p : piece) : string :=
  match p with
  | Plain c => String c EmptyString
  | Marked matched => "<mark>" ++ matched ++ "</mark>"
  end.

Definition rendered (ps : list piece) : string := String.concat "" (map render ps).

(** [highlightText(text, searchTerm)] for two strings.  [None] when the
    source given to [new RegExp] is not a sequence of characters as
    [literal_of] reads it. *)
Definition highlightText (text searchTerm : string) : option string :=
  if negb (truthy_string text) || negb (truthy_string searchTerm) then Some text
  else
    match literal_of (escapeRegExp searchTerm) with
    | Some lit => Some (rendered (pieces lit 0 text))
    | None => None
    end.

(** The text a list of pieces was cut from. *)
Definition text_of (ps : list piece) : string :=
  String.concat ""
    (map (fun p => match p with
                   | Plain c => String c EmptyString
                   | Marked matched => matched
                   end)
         ps).

(** The subject without its first [k] characters. *)
Fixpoint drop (k : nat) (s : string) : string :=
  match k, s with
  | S k', String _ t => drop k' t
  | _, _ => s
  end.

End Highlight.

(** The occurrences of a search term in a text, as a reader finds them. *)
Module HighlightSpec.
Import JsString.

(** [text] begins with [matched], which is the term up to letter case. *)
Definition occursAtHead (term text matched rest : string) : Prop :=
  text = matched ++ rest /\
  String.length matched = String.length term /\
  toUpperCase matched = toUpperCase term.

(** The text cut from the left at the occurrences of the term: where the
    text begins with an occurrence, the occurrence is a marked piece and
    the cut goes on behind it; where it does not, its first character is a
    plain piece. *)
Inductive scanned (term : string) : string -> list Highlight.piece -> Prop :=
| scanned_end : scanned term "" []
| scanned_marked (text matched rest : string) (ps : list Highlight.piece) :
    occursAtHead term text matched rest ->
    scanned term rest ps ->
    scanned term text (Highlight.Marked matched :: ps)
| scanned_plain (c : ascii) (rest : string) (ps : list Highlight.piece) :
    (forall matched behind,
        ~ occursAtHead term (String c rest) matched behind) ->
    scanned term rest ps ->
    scanned term (String c rest) (Highlight.Plain c :: ps).

End HighlightSpec.

Module Csv.
Import JsString.

Definition quote : ascii := "034"%char.
Definition newline : string := String "010"%char EmptyString.

(** The template that puts a value between two quotation marks. *)
Definition quoted (value : string) : string :=
  String quote (value ++ String quote EmptyString).

(** The [replace] applied to the notes: every quotation mark is
    doubled. *)
Fixpoint double_quotes (s : string) : string :=
  match s with
  | EmptyString => EmptyString
  | String c t =>
      if Ascii.eqb c quote then String quote (String quote (double_quotes t))
      else String c (double_quotes t)
  end.

(** The fields of a row before they are quoted: [council.name || ''],
    ... *)
Definition fields (council : Council.t) : list string :=
  [ UtilsData.or_default (Some (Council.name council)) "";
    UtilsData.or_default (Some (Council.region council)) "";
    UtilsData.or_default (Council.status council) "";
    UtilsData.or_default (Council.notes council) "";
    UtilsData.or_default (Council.contactEmail council) "";
    UtilsData.or_default (Some (Council.lastUpdated council)) "" ].

(** [row.join(',')]: only the notes have their quotation marks
    doubled. *)
Definition row (council : Council.t) : string :=
  join ","
    [ quoted (UtilsData.or_default (Some (Council.name council)) "");
      quoted (UtilsData.or_default (Some (Council.region council)) "");
      quoted (UtilsData.or_default (Council.status council) "");
      quoted (double_quotes (UtilsData.or_default (Council.notes council) ""));
      quoted (UtilsData.or_default (Council.contactEmail council) "");
      quoted (UtilsData.or_default (Some (Council.lastUpdated council)) "") ].

Definition headers : list string :=
  [ "Council Name"; "Region"; "SGAR Status"; "Notes"; "Contact Email";
    "Last Updated" ].

(** [generateCSV(councils)]; [None] is a value that is no array. *)
Definition generateCSV (councils : option (list Council.t)) : string :=
  match councils with
  | None => "No data available"
  | Some [] => "No data available"
  | Some councils => join newline (join "," headers :: map row councils)
  end.

(** Reading a record of quoted fields back (RFC 4180): inside a field two
    quotation marks stand for one, and a single one ends the field. *)
Fixpoint read_quoted (s : string) : option (string * string) :=
  match s with
  | EmptyString => None
  | String c t =>
      if Ascii.eqb c quote then
        match t with
        | String d u =>
            if Ascii.eqb d quote then
              match read_quoted u with
              | Some (field, rest) => Some (String quote field, rest)
              | None => None
              end
            else Some (EmptyString, t)
        | EmptyString => Some (EmptyString, EmptyString)
        end
      else
        match read_quoted t with
        | Some (field, rest) => Some (String c field, rest)
        | None => None
        end
  end.

(** The fields of a record, for at most [fuel] of them. *)
Fixpoint read_record (fuel : nat) (s : string) : option (list string) :=
  match fuel with
  | O => None
  | S fuel' =>
      match s with
      | String c t =>
          if Ascii.eqb c quote then
            match read_quoted t with
            | Some (field, EmptyString) => Some [field]
            | Some (field, String d u) =>
                if Ascii.eqb d ","%char
                then option_map (cons field) (read_record fuel' u)
                else None
            | None => None
            end
          else None
      | EmptyString => None
      end
  end.

(** No quotation mark occurs in [s]. *)
Definition unquoted (s : string) : bool :=
  Words.every (fun c => negb (Ascii.eqb c quote)) s.

End Csv.

(* ================================================================== *)
(** ** ui-controller.js: arrow keys on the council cards *)
(* ================================================================== *)

Module ArrowNavigation.

(** [e.key], as far as the [switch] tells the keys apart. *)
Inductive key : Type :=
| ArrowLeft
| ArrowRight
| ArrowUp
| ArrowDown
| OtherKey.




End ArrowNavigation.

(* ================================================================== *)
(** ** sgar-tracker.js: the two dropdowns *)
(* ================================================================== *)

Module Dropdowns.
Import JsString.

Definition statusMap : list (string * list string) :=
  [ ("using-sgars", ["Yes"]); ("sgar-free", ["No"]); ("unknown", ["Unknown"]) ].

Definition regionMap : list (string * list string) :=
  [ ("sydney-metropolitan", ["Sydney Metropolitan"]);
    ("regional-nsw", ["Regional NSW"]);
    ("hunter-region", ["Hunter Region"]);
    ("illawarra-region", ["Illawarra Region"]) ].

(** [map[value]] for an own property of the object literal *)
Fixpoint own (map : list (string * list string)) (value : string)
  : option (list string) :=
  match map with
  | [] => None
  | (k, arr) :: rest => if String.eqb value k then Some arr else own rest value
  end.

(** The array assigned to [this.filters.status] for the value of the
    dropdown: [statusMap[value] || []], and the empty array for "all".
    [None] for a value that names a property of [Object.prototype], for
    which the assigned value is no array. *)
Definition statusValue (value : string) : option (list string) :=
  if String.eqb value "all" then Some []
  else match own statusMap value with
       | Some arr => Some arr
       | None =>
           if array_includes JsObject.object_prototype_keys value then None
           else Some []
       end.

(** Likewise [regionMap[value] || [value]] for [this.filters.region]. *)
Definition regionValue (value : string) : option (list string) :=
  if String.eqb value "all" then Some []
  else match own regionMap value with
       | Some arr => Some arr
       | None =>
           if array_includes JsObject.object_prototype_keys value then None
           else Some [value]
       end.

(** The [change] handlers of [setupProfessionalFilters]. *)
Definition statusChanged (this : SGARTracker.t) (value : string)
  : option SGARTracker.t :=
  option_map (SGARTracker.statusSelected this) (statusValue value).

Definition regionChanged (this : SGARTracker.t) (value : string)
  : option SGARTracker.t :=
  option_map (SGARTracker.regionSelected this) (regionValue value).

(** The values of the region dropdown that [regionMap] translates. *)
Definition translated : list string := map fst regionMap.

End Dropdowns.
(* ================================================================== *)
(** ** Properties *)
(* ================================================================== *)

Import JsString.

(* ------------------------------------------------------------------ *)
(** *** The resolver against its description *)

(** [find] returns the first element with the property its callback
    decides. *)
Lemma find_firstWith {A : Type} (p : A -> bool) (P : A -> Prop)
    (records : list A) :
  (forall record, p record = true <-> P record) ->
  ResolutionSpec.firstWith P records (find p records).
Proof.
  intros Hreflect. induction records as [|record rest IH]; cbn [find].
  - intros record [].
  - destruct (p record) eqn:Hp.
    + exists [], rest. split; [reflexivity|]. split; [apply Hreflect; exact Hp|].
      intros earlier [].
    + assert (Hnot : ~ P record).
      { intros HP. apply Hreflect in HP. congruence. }
      destruct (find p rest) as [found|]; cbn [ResolutionSpec.firstWith] in *.
      * destruct IH as [before [after [-> [Hfound Hbefore]]]].
        exists (record :: before), after. split; [reflexivity|].
        split; [exact Hfound|]. intros earlier [<-|Hin]; [exact Hnot|].
        apply Hbefore. exact Hin.
      * intros other [<-|Hin]; [exact Hnot|apply IH; exact Hin].
Qed.

Lemma startsWith_prefix (s p : string) :
  startsWith s p = true <-> exists after, s = p ++ after.
Proof.
  revert s. induction p as [|a p IH]; intros s; cbn [startsWith].
  - split; [intros _; exists s; reflexivity|destruct s; reflexivity].
  - destruct s as [|c s].
    + split; [discriminate|intros [after H]; discriminate].
    + cbn [startsWith]. split.
      * intros H. apply andb_prop in H. destruct H as [Hc Hrest].
        apply Ascii.eqb_eq in Hc. subst c.
        apply IH in Hrest. destruct Hrest as [after ->].
        exists after. reflexivity.
      * intros [after H]. cbn in H. injection H as -> ->.
        rewrite Ascii.eqb_refl. apply IH. exists after. reflexivity.
Qed.

(** [includes] decides whether the argument occurs in the subject. *)
Lemma includes_substringOf (s sub : string) :
  includes s sub = true <-> ResolutionSpec.substringOf sub s.
Proof.
  unfold ResolutionSpec.substringOf. induction s as [|c s IH].
  - cbn [includes]. rewrite orb_false_r, startsWith_prefix. split.
    + intros [after H]. exists "", after. exact H.
    + intros [[|b before] [after H]]; [exists after; exact H|discriminate].
  - cbn [includes]. rewrite orb_true_iff, startsWith_prefix, IH. split.
    + intros [[after H]|[before [after H]]].
      * exists "", after. exact H.
      * exists (String c before), after. cbn. rewrite H. reflexivity.
    + intros [[|b before] [after H]].
      * left. exists after. exact H.
      * right. cbn in H. injection H as -> ->. exists before, after. reflexivity.
Qed.

(** The callback of the lookup after a hit decides [carriesId]. *)
Lemma mappedMatch_carriesId (ourName : string) (council : Council.t) :
  MapController.mappedMatch ourName council = true
  <-> ResolutionSpec.carriesId ourName council.
Proof.
  unfold MapController.mappedMatch, ResolutionSpec.carriesId.
  rewrite orb_true_iff, !String.eqb_eq. reflexivity.
Qed.

(** The callback of the fuzzy lookup decides [fuzzyMatches]. *)
Lemma fuzzyMatch_fuzzyMatches (gisName : string) (council : Council.t) :
  MapController.fuzzyMatch (trim (toUpperCase gisName))
    (MapController.cleanGisName (trim (toUpperCase gisName))) council = true
  <-> ResolutionSpec.fuzzyMatches gisName council.
Proof.
  unfold MapController.fuzzyMatch, ResolutionSpec.fuzzyMatches.
  change (MapController.cleanGisName (trim (toUpperCase gisName)))
    with (ResolutionSpec.normalizedCandidate gisName).
  change (MapController.cleanCouncilName (toUpperCase (Council.name council)))
    with (ResolutionSpec.normalizedRecord (Council.name council)).
  destruct (String.eqb_spec (toUpperCase (Council.name council))
                            (trim (toUpperCase gisName))) as [Heq|Hne].
  - split; [intros _; left; exact Heq|reflexivity].
  - rewrite !orb_true_iff, String.eqb_eq, !includes_substringOf. tauto.
Qed.

(** The fuzzy lookup returns the first record that passes the fuzzy step. *)
Lemma fuzzyFind_firstWith (councils : list Council.t) (gisName : string) :
  ResolutionSpec.firstWith (ResolutionSpec.fuzzyMatches gisName) councils
    (MapController.fuzzyFind councils gisName).
Proof.
  unfold MapController.fuzzyFind. apply find_firstWith.
  intros council. apply fuzzyMatch_fuzzyMatches.
Qed.

Lemma truthy_nonempty (s : string) : s <> "" -> truthy (JString s) = true.
Proof.
  intros Hs. cbn. destruct (String.eqb_spec s ""); [contradiction|reflexivity].
Qed.

(* ------------------------------------------------------------------ *)
(** *** The resolver without a mapping *)

Section Resolution.

Variable this : MapController.t.

(** Without a mapping the resolver is the fuzzy lookup. *)
Lemma findCouncilByName_without_mapping (gisName : jsname) :
  MapController.nameMapping this = None ->
  MapController.findCouncilByName this gisName
  = Normal (Resolver.fuzzyOnly (MapController.councils this) gisName).
Proof.
  intros Hnone. unfold MapController.findCouncilByName, Resolver.fuzzyOnly.
  destruct gisName as [| |name]; try reflexivity.
  rewrite Hnone. destruct (truthy (JString name)); reflexivity.
Qed.

(** A candidate that misses the reverse mapping goes to the fuzzy lookup. *)
Lemma findCouncilByName_miss (name : string) :
  Resolver.reverseHit this name = false ->
  MapController.findCouncilByName this (JString name)
  = Normal (Resolver.fuzzyOnly (MapController.councils this) (JString name)).
Proof.
  unfold Resolver.reverseHit, MapController.findCouncilByName, Resolver.fuzzyOnly.
  destruct (truthy (JString name)); simpl; [|reflexivity].
  destruct (MapController.nameMapping this) as [mapping|]; [|reflexivity].
  intros ->. reflexivity.
Qed.

End Resolution.

(** With a mapping loaded, a candidate that names a property of
    [Object.prototype] makes the callback of [find] throw: completing
    normally is a property of the resolver, not of its type. *)
Lemma findCouncilByName_can_throw :
  let councils :=
    Tracker.councils_of
      [("SYDNEY", RawCouncil.mk (Some "Yes") (Some "") (Some "council@cityofsydney.nsw.gov.au"))] in
  let this := Resolver.started councils (FetchResponds true "200" (JsonObject [])) in
  MapController.findCouncilByName this (JString "constructor")
  = Throw (TypeError "ourName.toUpperCase is not a function").
Proof. reflexivity. Qed.

(** C6.  For the [null] candidate and for the empty string (and for
    [undefined]) [findCouncilByName] returns "not found" at once, as a
    normal completion: nothing is thrown, whatever the controller holds. *)
Theorem findCouncilByName_null_or_empty (this : MapController.t) :
  MapController.findCouncilByName this JNull = Normal None /\
  MapController.findCouncilByName this (JString "") = Normal None /\
  MapController.findCouncilByName this JUndefined = Normal None.
Proof. repeat split. Qed.

(** C5.  When the mapping document cannot be loaded or is absent,
    [init] completes all the same and installs the boundary layer, and the
    controller holds no mapping.  [findCouncilByName] then completes
    normally for every candidate: with nothing for a candidate that is
    not a non-empty string, and for a non-empty name with the first
    council of the catalog that passes the fuzzy step (the uppercased name
    is the candidate uppercased and trimmed, or the normalized names are
    equal, or one occurs in the other), nothing when no council passes. *)
Theorem resolution_without_mapping
    (councils : list Council.t) (response : fetch_result) :
  Resolver.mapping_unavailable response = true ->
  exists this,
    MapController.init (MapController.new councils) response = Normal this /\
    MapController.nameMapping this = None /\
    MapController.lgaLayer this = Some MapController.StyleLGA /\
    MapController.councils this = councils /\
    (forall gisName, exists answer,
       MapController.findCouncilByName this gisName = Normal answer) /\
    (forall gisName,
       truthy gisName = false ->
       MapController.findCouncilByName this gisName = Normal None) /\
    (forall name,
       name <> "" ->
       exists answer,
         MapController.findCouncilByName this (JString name) = Normal answer /\
         ResolutionSpec.firstWith (ResolutionSpec.fuzzyMatches name) councils answer).
Proof.
  intros Hfail.
  assert (Hinit : exists this,
            MapController.init (MapController.new councils) response = Normal this /\
            MapController.nameMapping this = None /\
            MapController.lgaLayer this = Some MapController.StyleLGA /\
            MapController.councils this = councils).
  { destruct response as [msg|[|] status [| |entries]];
      try discriminate; eexists; repeat split. }
  destruct Hinit as [this [Hinit [Hmap [Hlayer Hcouncils]]]].
  exists this. do 4 (split; [assumption|]).
  assert (Hfind : forall name,
            truthy (JString name) = true ->
            MapController.findCouncilByName this (JString name)
            = Normal (MapController.fuzzyFind councils name)).
  { intros name Htruthy. unfold MapController.findCouncilByName.
    rewrite Htruthy, Hmap, Hcouncils. reflexivity. }
  assert (Hempty : forall gisName,
            truthy gisName = false ->
            MapController.findCouncilByName this gisName = Normal None).
  { intros [| |name] Hfalsy; try reflexivity.
    unfold MapController.findCouncilByName. rewrite Hfalsy. reflexivity. }
  split; [|split].
  - intros gisName. destruct (truthy gisName) eqn:Htruthy.
    + destruct gisName as [| |name]; try discriminate.
      eexists. apply Hfind. exact Htruthy.
    + exists None. apply Hempty. exact Htruthy.
  - exact Hempty.
  - intros name Hname. exists (MapController.fuzzyFind councils name).
    split; [apply Hfind, truthy_nonempty, Hname|apply fuzzyFind_firstWith].
Qed.

Lemma resolution_without_mapping_witness :
  let councils :=
    Tracker.councils_of
      [("BATHURST REGIONAL", RawCouncil.mk (Some "No") (Some "") (Some "council@bathurst.nsw.gov.au"));
       ("LITHGOW CITY", RawCouncil.mk (Some "Yes") (Some "") (Some "council@lithgow.com"))] in
  let lithgow :=
    Council.mk "Lithgow City" (Some "Yes") (Some "") (Some "council@lithgow.com")
               "Central West" "2025-01-22" in
  exists this,
    MapController.init (MapController.new councils) (FetchResponds false "404" JsonRejects)
    = Normal this /\
    MapController.nameMapping this = None /\
    MapController.findCouncilByName this (JString "Lithgow City Council")
    = Normal (Some lithgow) /\
    ResolutionSpec.firstWith (ResolutionSpec.fuzzyMatches "Lithgow City Council")
      councils (Some lithgow) /\
    MapController.findCouncilByName this (JString "Lord Howe Island") = Normal None.
Proof.
  intros councils lithgow.
  destruct (resolution_without_mapping councils
              (FetchResponds false "404" JsonRejects) eq_refl)
    as [this [Hinit [Hmap [_ [Hcouncils [_ [_ Hfuzzy]]]]]]].
  exists this. split; [exact Hinit|]. split; [exact Hmap|].
  destruct (Hfuzzy "Lithgow City Council" ltac:(discriminate))
    as [answer [Hfind Hfirst]].
  assert (Hthis : this = MapController.mk councils None None
                           (Some MapController.StyleLGA)
                           ["Using fallback name matching without mapping file"]).
  { vm_compute in Hinit. injection Hinit as <-. reflexivity. }
  assert (Hanswer : answer = Some lithgow).
  { rewrite Hthis in Hfind. vm_compute in Hfind. injection Hfind as <-. reflexivity. }
  rewrite Hanswer in Hfind, Hfirst.
  split; [exact Hfind|]. split; [exact Hfirst|].
  rewrite Hthis. vm_compute. reflexivity.
Defined.

(** C9.  For every status, also a missing one, the fill of the hover
    variant is the fill of the plain variant with the same red, green and
    blue components and an alpha one tenth higher (the [hover] colour of
    the table is the same colour again, fifteen hundredths more opaque);
    the plain fill is a red for "Yes", a green for "No" and a gray for
    everything else. *)
Theorem status_colors_same_hue_on_hover (status : option string) :
  exists base : Rgba.t,
    Rgba.parse (StatusColors.fill (MapController.getStatusColors status false))
    = Some base /\
    Rgba.parse (StatusColors.fill (MapController.getStatusColors status true))
    = Some (Rgba.more_opaque 10 base) /\
    Rgba.parse (StatusColors.hover (MapController.getStatusColors status false))
    = Some (Rgba.more_opaque 15 base) /\
    Rgba.family_of base = Rgba.family_for status.
Proof.
  unfold MapController.getStatusColors, Rgba.family_for.
  destruct status as [s|].
  - destruct (String.eqb s "Yes").
    + exists (Rgba.mk 220 53 69 70). repeat split.
    + destruct (String.eqb s "No").
      * exists (Rgba.mk 40 167 69 70). repeat split.
      * exists (Rgba.mk 108 117 125 60). repeat split.
  - exists (Rgba.mk 108 117 125 60). repeat split.
Qed.

(* ------------------------------------------------------------------ *)
(** *** Loading the catalog *)

Lemma validationErrors_In (entries : list (string * RawCouncil.t))
    (name : string) (data : RawCouncil.t) :
  In (name, data) entries ->
  Validation.isValid (Utils.validateCouncilData data) = false ->
  In (name ++ ": " ++ join ", " (Validation.errors (Utils.validateCouncilData data)))
     (Main.validationErrors entries).
Proof.
  intros Hin Hinvalid. unfold Main.validationErrors.
  apply in_flat_map. exists (name, data). split; [exact Hin|].
  cbv beta iota. rewrite Hinvalid. left. reflexivity.
Qed.

Lemma init_completes (this : MapController.t) (response : fetch_result) :
  exists started, MapController.init this response = Normal started.
Proof.
  destruct response as [msg|[|] status [| |entries]]; eexists; reflexivity.
Qed.

Lemma initializeApp_running (entries : list (string * RawCouncil.t))
    (response : fetch_result) :
  entries <> [] ->
  exists mapController,
    Main.initializeApp (Some entries) response
    = Main.Running (Tracker.councils_of entries) mapController
        (Main.validationErrors entries).
Proof.
  intros Hentries. unfold Main.initializeApp.
  destruct entries as [|entry entries]; [congruence|].
  destruct (init_completes (MapController.new (Tracker.councils_of (entry :: entries)))
              response) as [started Hinit].
  rewrite Hinit. exists started. reflexivity.
Qed.

(** C3, as the code has it.  A non-empty status value outside "Yes", "No",
    "Unknown" makes [validateCouncilData] report the entry as invalid, and
    [initializeApp] lists it among the validation warnings; the catalog is
    built all the same, and the record of that entry carries the raw status
    value unchanged. *)
Theorem invalid_status_warned_and_kept
    (entries : list (string * RawCouncil.t)) (response : fetch_result)
    (name : string) (data : RawCouncil.t) (sgars : string) :
  In (name, data) entries ->
  RawCouncil.sgars data = Some sgars ->
  sgars <> "" ->
  array_includes Utils.validStatuses sgars = false ->
  let validation := Utils.validateCouncilData data in
  Validation.isValid validation = false /\
  In ("Invalid SGAR status: " ++ sgars ++ ". Must be one of: Yes, No, Unknown")
     (Validation.errors validation) /\
  (exists mapController,
     Main.initializeApp (Some entries) response
     = Main.Running (Tracker.councils_of entries) mapController
         (Main.validationErrors entries)) /\
  In (name ++ ": " ++ join ", " (Validation.errors validation))
     (Main.validationErrors entries) /\
  In (Council.mk (Utils.titleCase name) (Some sgars) (RawCouncil.notes data)
                 (RawCouncil.email data) (Tracker.getCouncilRegion name)
                 "2025-01-22")
     (Tracker.councils_of entries).
Proof.
  intros Hin Hsgars Hnonempty Hrange validation.
  assert (Herr : In ("Invalid SGAR status: " ++ sgars ++ ". Must be one of: Yes, No, Unknown")
                    (Validation.errors validation)).
  { subst validation. unfold Utils.validateCouncilData.
    cbv zeta. cbn [Validation.errors]. rewrite Hsgars, Hrange.
    unfold truthy_string.
    destruct (String.eqb_spec sgars "") as [E|_]; [contradiction|].
    cbn [negb andb].
    apply in_or_app. right. apply in_or_app. left. left. reflexivity. }
  assert (Hinvalid : Validation.isValid validation = false).
  { subst validation. unfold Utils.validateCouncilData in *.
    cbv zeta in *. cbn [Validation.errors Validation.isValid] in *.
    match goal with
    | H : In _ ?l |- Nat.eqb (List.length ?l) 0 = false =>
        destruct l; [destruct H|reflexivity]
    end. }
  split; [exact Hinvalid|]. split; [exact Herr|].
  split. { apply initializeApp_running. intros ->. destruct Hin. }
  split. { apply validationErrors_In; assumption. }
  unfold Tracker.councils_of. apply in_map_iff.
  exists (name, data). split; [|exact Hin]. simpl. rewrite Hsgars. reflexivity.
Qed.

Lemma invalid_status_warned_and_kept_witness :
  let data := RawCouncil.mk (Some "Maybe") (Some "Awaiting reply") (Some "council@cityofsydney.nsw.gov.au") in
  let validation := Utils.validateCouncilData data in
  Validation.isValid validation = false /\
  In "Invalid SGAR status: Maybe. Must be one of: Yes, No, Unknown"
     (Validation.errors validation) /\
  (exists mapController,
     Main.initializeApp (Some [("SYDNEY", data)]) (FetchRejects "offline")
     = Main.Running (Tracker.councils_of [("SYDNEY", data)]) mapController
         (Main.validationErrors [("SYDNEY", data)])) /\
  In ("SYDNEY: " ++ join ", " (Validation.errors validation))
     (Main.validationErrors [("SYDNEY", data)]) /\
  In (Council.mk (Utils.titleCase "SYDNEY") (Some "Maybe") (RawCouncil.notes data)
                 (RawCouncil.email data) (Tracker.getCouncilRegion "SYDNEY")
                 "2025-01-22")
     (Tracker.councils_of [("SYDNEY", data)]).
Proof.
  intros data.
  apply (invalid_status_warned_and_kept [("SYDNEY", data)] (FetchRejects "offline")
           "SYDNEY" data "Maybe").
  - left. reflexivity.
  - reflexivity.
  - discriminate.
  - reflexivity.
Defined.

(** C3, as stated, fails: a document with the status "Maybe" is not
    rejected.  [initializeApp] ends in the running state and the catalog
    holds a record with that status. *)
Lemma invalid_status_not_rejected :
  let data :=
    [("SYDNEY", RawCouncil.mk (Some "Maybe") (Some "Awaiting reply")
                              (Some "council@cityofsydney.nsw.gov.au"))] in
  let response := FetchRejects "offline" in
  existsb (fun entry => FilterSpec.status_out_of_range (snd entry)) data = true /\
  (forall banner, Main.initializeApp (Some data) response <> Main.Failed banner) /\
  exists mapController warnings,
    Main.initializeApp (Some data) response
    = Main.Running
        [Council.mk "Sydney" (Some "Maybe") (Some "Awaiting reply")
                    (Some "council@cityofsydney.nsw.gov.au") "Metro South"
                    "2025-01-22"]
        mapController warnings.
Proof.
  split; [reflexivity|]. split.
  - intros banner. discriminate.
  - eexists. eexists. reflexivity.
Qed.

(* ------------------------------------------------------------------ *)
(** *** The filter of the council list *)

Section SearchFilter.

Variables (filters : Filters.t) (council : Council.t).

Lemma status_guard :
  Nat.ltb 0 (List.length (Filters.status filters)) &&
  negb (Tracker.includes_status (Filters.status filters) (Council.status council))
  = negb (FilterSpec.statusConstraint filters council).
Proof.
  unfold FilterSpec.statusConstraint.
  destruct (Filters.status filters); reflexivity.
Qed.

Lemma region_guard :
  Nat.ltb 0 (List.length (Filters.region filters)) &&
  negb (array_includes (Filters.region filters) (Council.region council))
  = negb (FilterSpec.regionConstraint filters council).
Proof.
  unfold FilterSpec.regionConstraint.
  destruct (Filters.region filters); reflexivity.
Qed.

End SearchFilter.

(** C2, as the code has it.  With a non-empty search string (and notes
    that are a string), [getFilteredCouncils] keeps a council exactly when
    the status and region constraints hold and the lowercased search string
    occurs in the lowercased name, or in the lowercased region, or in the
    lowercased notes, each field on its own; [filterCouncils] of utils.js
    tests the lowercased concatenation of name, region, notes and contact
    email joined by single spaces. *)
Theorem search_constraint_per_field
    (filters : Filters.t) (council : Council.t) (notes : string) :
  Filters.search filters <> "" ->
  Council.notes council = Some notes ->
  let search := Filters.search filters in
  Tracker.passesFilters filters council
  = Normal (FilterSpec.statusConstraint filters council &&
            FilterSpec.regionConstraint filters council &&
            (FilterSpec.occursIn search (Council.name council) ||
             FilterSpec.occursIn search (Council.region council) ||
             FilterSpec.occursIn search notes)) /\
  UtilsFilter.matchesCriteria filters council
  = FilterSpec.statusConstraint filters council &&
    FilterSpec.regionConstraint filters council &&
    FilterSpec.occursIn search
      (Council.name council ++ " " ++ Council.region council ++ " " ++ notes
         ++ " " ++ UtilsFilter.join_item (Council.contactEmail council)).
Proof.
  intros Hsearch Hnotes search.
  assert (Htruthy : truthy_string (Filters.search filters) = true).
  { unfold truthy_string.
    destruct (String.eqb_spec (Filters.search filters) "");
      [contradiction|reflexivity]. }
  unfold Tracker.passesFilters, UtilsFilter.matchesCriteria,
    UtilsFilter.searchableText, FilterSpec.occursIn.
  rewrite status_guard, region_guard, Htruthy, Hnotes.
  subst search. cbn [join UtilsFilter.join_item].
  destruct (FilterSpec.statusConstraint filters council);
    destruct (FilterSpec.regionConstraint filters council);
    cbn [negb andb]; try (split; reflexivity).
  split.
  - destruct (includes (toLowerCase (Council.name council)) _); [reflexivity|].
    destruct (includes (toLowerCase (Council.region council)) _); reflexivity.
  - destruct (includes _ _); reflexivity.
Qed.

Lemma search_constraint_per_field_witness :
  let council :=
    Council.mk "Sydney" (Some "Yes") (Some "Awaiting reply")
               (Some "council@cityofsydney.nsw.gov.au") "Metro South" "2025-01-22" in
  let filters := Filters.mk [] [] "metro" None in
  Tracker.passesFilters filters council = Normal true /\
  UtilsFilter.matchesCriteria filters council = true.
Proof.
  intros council filters.
  exact (search_constraint_per_field filters council "Awaiting reply"
           ltac:(discriminate) eq_refl).
Defined.

(** C2, as stated, fails.  The search string "sydney metro" occurs in the
    concatenation "Sydney Metro South Awaiting reply", across the boundary
    of name and region, but [getFilteredCouncils] drops the council; the
    search string "council@" does not occur in that concatenation, but
    [filterCouncils] keeps the council, because it also searches the
    contact email. *)
Lemma search_across_fields_not_found :
  let council :=
    Council.mk "Sydney" (Some "Yes") (Some "Awaiting reply")
               (Some "council@cityofsydney.nsw.gov.au") "Metro South" "2025-01-22" in
  let spanning := Filters.mk [] [] "sydney metro" None in
  let email := Filters.mk [] [] "council@" None in
  FilterSpec.nameRegionNotes council = "Sydney Metro South Awaiting reply" /\
  FilterSpec.occursIn (Filters.search spanning) (FilterSpec.nameRegionNotes council) = true /\
  Tracker.passesFilters spanning council = Normal false /\
  Tracker.getFilteredCouncils [council] spanning = Normal [] /\
  FilterSpec.occursIn (Filters.search email) (FilterSpec.nameRegionNotes council) = false /\
  UtilsFilter.filterCouncils [council] email = [council].
Proof. repeat split. Qed.

(* ------------------------------------------------------------------ *)
(** *** The reverse mapping *)

(** [Object.entries] lists every own property once. *)
Lemma insert_Permutation {V : Type} (n : N) (entry : string * V)
    (sorted : list (N * (string * V))) :
  Permutation (map snd (OwnKeys.insert n entry sorted)) (entry :: map snd sorted).
Proof.
  induction sorted as [|[m other] sorted IH]; [apply Permutation_refl|].
  cbn [OwnKeys.insert]. destruct (N.leb n m); [apply Permutation_refl|].
  cbn [map snd]. rewrite IH. apply perm_swap.
Qed.

Lemma entries_Permutation {V : Type} (created : list (string * V)) :
  Permutation (OwnKeys.entries created) created.
Proof.
  unfold OwnKeys.entries. induction created as [|entry created IH];
    [apply Permutation_refl|].
  cbn [OwnKeys.indexed OwnKeys.named filter].
  destruct (OwnKeys.array_index (fst entry)).
  - rewrite insert_Permutation. cbn [app]. apply perm_skip, IH.
  - rewrite <- Permutation_middle. apply perm_skip, IH.
Qed.

Lemma entries_In {V : Type} (created : list (string * V)) (entry : string * V) :
  In entry (OwnKeys.entries created) <-> In entry created.
Proof.
  split; apply Permutation_in;
    [apply entries_Permutation|apply Permutation_sym, entries_Permutation].
Qed.

Section ReverseMapping.

Lemma own_set (rm : JsObject.t) (key value name : string) :
  name <> "__proto__" ->
  JsObject.own (JsObject.set rm key value) name
  = if String.eqb name key then Some value else JsObject.own rm name.
Proof.
  intros Hproto. unfold JsObject.set.
  destruct (String.eqb_spec key "__proto__") as [->|_]; [|reflexivity].
  destruct (String.eqb_spec name "__proto__"); [contradiction|reflexivity].
Qed.

(** An own property of the reverse mapping comes from an entry of the
    mapping or was there before the loop. *)
Lemma own_fold_origin (mapping : list (string * string)) :
  forall (rm : JsObject.t) (name ourName : string),
    name <> "__proto__" ->
    JsObject.own (fold_left MapController.recordEntry mapping rm) name = Some ourName ->
    In (ourName, name) mapping \/ JsObject.own rm name = Some ourName.
Proof.
  induction mapping as [|[key gis] mapping IH]; intros rm name ourName Hproto Hown.
  - right. exact Hown.
  - cbn [fold_left MapController.recordEntry] in Hown.
    destruct (IH _ _ _ Hproto Hown) as [Hin|Hprev].
    + left. right. exact Hin.
    + rewrite own_set in Hprev by exact Hproto.
      destruct (String.eqb_spec name gis) as [->|_].
      * injection Hprev as ->. left. left. reflexivity.
      * right. exact Hprev.
Qed.

(** An own property is never removed by the loop. *)
Lemma own_fold_kept (mapping : list (string * string)) :
  forall (rm : JsObject.t) (name : string),
    name <> "__proto__" ->
    JsObject.own rm name <> None ->
    JsObject.own (fold_left MapController.recordEntry mapping rm) name <> None.
Proof.
  induction mapping as [|[key gis] mapping IH]; intros rm name Hproto Hown.
  - exact Hown.
  - cbn [fold_left MapController.recordEntry]. apply IH; [exact Hproto|].
    rewrite own_set by exact Hproto.
    destruct (String.eqb name gis); [discriminate|exact Hown].
Qed.

(** Every value of the mapping becomes an own property. *)
Lemma own_fold_defined (mapping : list (string * string)) :
  forall (rm : JsObject.t) (name ourName : string),
    name <> "__proto__" ->
    In (ourName, name) mapping ->
    JsObject.own (fold_left MapController.recordEntry mapping rm) name <> None.
Proof.
  induction mapping as [|[key gis] mapping IH]; intros rm name ourName Hproto Hin.
  - destruct Hin.
  - cbn [fold_left MapController.recordEntry]. destruct Hin as [Heq|Hin].
    + injection Heq as -> ->. apply own_fold_kept; [exact Hproto|].
      rewrite own_set by exact Hproto. rewrite String.eqb_refl. discriminate.
    + apply (IH _ _ ourName); assumption.
Qed.

(** Reading a value of the mapping from the reverse mapping gives one of
    the keys it is stored under. *)
Lemma reverseMapping_value (mapping : list (string * string))
    (name ourName : string) :
  name <> "__proto__" ->
  In (ourName, name) mapping ->
  exists key,
    In (key, name) mapping /\
    JsObject.get (MapController.reverseMapping mapping) name = JsObject.Str key.
Proof.
  intros Hproto Hin. unfold JsObject.get, MapController.reverseMapping.
  apply (proj2 (entries_In _ _)) in Hin.
  destruct (JsObject.own (fold_left MapController.recordEntry
                            (OwnKeys.entries mapping) JsObject.empty) name)
    as [key|] eqn:Hown.
  - exists key. split; [|reflexivity]. apply (proj1 (entries_In _ _)).
    destruct (own_fold_origin _ _ _ _ Hproto Hown) as [H|H];
      [exact H|discriminate].
  - exfalso. exact (own_fold_defined _ JsObject.empty _ _ Hproto Hin Hown).
Qed.

(** A name that is no value of the mapping is no own property of the
    reverse mapping. *)
Lemma reverseMapping_own_absent (mapping : list (string * string)) (name : string) :
  name <> "__proto__" ->
  (forall key, ~ In (key, name) mapping) ->
  JsObject.own (MapController.reverseMapping mapping) name = None.
Proof.
  intros Hproto Hnone. unfold MapController.reverseMapping.
  destruct (JsObject.own (fold_left MapController.recordEntry
                            (OwnKeys.entries mapping) JsObject.empty) name)
    as [key|] eqn:Hown; [|reflexivity].
  destruct (own_fold_origin _ _ _ _ Hproto Hown) as [H|H];
    [apply (proj1 (entries_In _ _)) in H; destruct (Hnone _ H)|discriminate].
Qed.

(** A name that is no value of the mapping and no property of
    [Object.prototype] is not in the reverse mapping. *)
Lemma reverseMapping_absent (mapping : list (string * string)) (name : string) :
  (forall key, ~ In (key, name) mapping) ->
  array_includes JsObject.object_prototype_keys name = false ->
  JsObject.get (MapController.reverseMapping mapping) name = JsObject.Undefined.
Proof.
  intros Hnone Hkeys. unfold JsObject.get.
  assert (Hproto : name <> "__proto__") by (intros ->; discriminate).
  rewrite (reverseMapping_own_absent _ _ Hproto Hnone), Hkeys. reflexivity.
Qed.

(** The assignment to [__proto__] is ignored: the name is never an own
    property. *)
Lemma own_fold_proto (mapping : list (string * string)) :
  forall rm : JsObject.t,
    JsObject.own rm "__proto__" = None ->
    JsObject.own (fold_left MapController.recordEntry mapping rm) "__proto__" = None.
Proof.
  induction mapping as [|[key gis] mapping IH]; intros rm Hown; [exact Hown|].
  cbn [fold_left MapController.recordEntry]. apply IH.
  unfold JsObject.set. destruct (String.eqb_spec gis "__proto__") as [->|Hgis];
    [exact Hown|].
  cbn [JsObject.own]. destruct (String.eqb_spec "__proto__" gis) as [Heq|_];
    [congruence|exact Hown].
Qed.

(** A property name of [Object.prototype] that is no value of the mapping
    is read from the prototype. *)
Lemma reverseMapping_inherited (mapping : list (string * string)) (name : string) :
  (forall key, ~ In (key, name) mapping) ->
  array_includes JsObject.object_prototype_keys name = true ->
  JsObject.get (MapController.reverseMapping mapping) name = JsObject.Inherited.
Proof.
  intros Hnone Hkeys. unfold JsObject.get.
  assert (Hown : JsObject.own (MapController.reverseMapping mapping) name = None).
  { destruct (String.eqb_spec name "__proto__") as [->|Hproto].
    - apply own_fold_proto. reflexivity.
    - apply reverseMapping_own_absent; assumption. }
  rewrite Hown, Hkeys. reflexivity.
Qed.

(** The loop leaves under a name the key of the last entry with that
    value, or what was there before. *)
Lemma own_fold_lastKey (entries : list (string * string)) :
  forall (rm : JsObject.t) (name : string),
    name <> "__proto__" ->
    JsObject.own (fold_left MapController.recordEntry entries rm) name
    = match ResolutionSpec.lastKey entries name with
      | Some key => Some key
      | None => JsObject.own rm name
      end.
Proof.
  induction entries as [|[key value] entries IH]; intros rm name Hproto;
    [reflexivity|].
  cbn [fold_left MapController.recordEntry ResolutionSpec.lastKey].
  rewrite IH by exact Hproto.
  destruct (ResolutionSpec.lastKey entries name); [reflexivity|].
  rewrite own_set by exact Hproto. rewrite (String.eqb_sym value name).
  destruct (String.eqb name value); reflexivity.
Qed.

Lemma lastKey_In (entries : list (string * string)) (name key : string) :
  ResolutionSpec.lastKey entries name = Some key -> In (key, name) entries.
Proof.
  induction entries as [|[k v] entries IH]; [discriminate|].
  cbn [ResolutionSpec.lastKey].
  destruct (ResolutionSpec.lastKey entries name) as [later|].
  - intros H. right. apply IH. exact H.
  - destruct (String.eqb_spec v name) as [->|_]; [|discriminate].
    intros H. injection H as ->. left. reflexivity.
Qed.

Lemma In_lastKey (entries : list (string * string)) (name key : string) :
  In (key, name) entries -> ResolutionSpec.lastKey entries name <> None.
Proof.
  induction entries as [|[k v] entries IH]; [intros []|].
  cbn [ResolutionSpec.lastKey]. intros [Heq|Hin].
  - injection Heq as -> ->.
    destruct (ResolutionSpec.lastKey entries name); [discriminate|].
    rewrite String.eqb_refl. discriminate.
  - specialize (IH Hin).
    destruct (ResolutionSpec.lastKey entries name); [discriminate|contradiction].
Qed.

(** The reverse mapping holds for a name the id of [mappedId]. *)
Lemma reverseMapping_mappedId (mapping : list (string * string)) (name : string) :
  name <> "__proto__" ->
  JsObject.own (MapController.reverseMapping mapping) name
  = ResolutionSpec.mappedId mapping name.
Proof.
  intros Hproto. unfold MapController.reverseMapping, ResolutionSpec.mappedId.
  rewrite own_fold_lastKey by exact Hproto.
  destruct (ResolutionSpec.lastKey _ name); reflexivity.
Qed.

(** The id of a value of the table is the key of one of its entries. *)
Lemma mappedId_value (mapping : list (string * string)) (name key : string) :
  In (key, name) mapping ->
  exists ourName,
    ResolutionSpec.mappedId mapping name = Some ourName /\
    In (ourName, name) mapping.
Proof.
  intros Hin. unfold ResolutionSpec.mappedId.
  apply (proj2 (entries_In _ _)) in Hin. apply In_lastKey in Hin.
  destruct (ResolutionSpec.lastKey (OwnKeys.entries mapping) name)
    as [ourName|] eqn:Hlast; [|contradiction].
  exists ourName. split; [reflexivity|].
  apply (proj1 (entries_In _ _)), lastKey_In, Hlast.
Qed.

End ReverseMapping.

(** The entries under an array index come first in [Object.entries]: of
    two keys with the same value, the one that is no array index is the
    last to be recorded, wherever the document lists it. *)
Lemma reverseMapping_index_keys_first :
  let mapping :=
    [ ("SYDNEY", "Council of the City of Sydney");
      ("7", "Council of the City of Sydney") ] in
  OwnKeys.entries mapping
  = [ ("7", "Council of the City of Sydney");
      ("SYDNEY", "Council of the City of Sydney") ] /\
  JsObject.get (MapController.reverseMapping mapping)
    "Council of the City of Sydney"
  = JsObject.Str "SYDNEY".
Proof. split; reflexivity. Qed.

(** [findCouncilByName] throws only with a mapping loaded, for a candidate
    that names a property of [Object.prototype] and is not read from the
    mapping. *)
Lemma findCouncilByName_throws (this : MapController.t) (gisName : jsname)
    (error : js_error) :
  MapController.findCouncilByName this gisName = Throw error ->
  exists mapping name,
    MapController.nameMapping this = Some mapping /\
    gisName = JString name /\
    array_includes JsObject.object_prototype_keys name = true /\
    (name = "__proto__" \/ forall key, ~ In (key, name) mapping).
Proof.
  unfold MapController.findCouncilByName.
  destruct gisName as [| |name]; try discriminate.
  destruct (negb (truthy (JString name))); [discriminate|].
  destruct (MapController.nameMapping this) as [mapping|]; [|discriminate].
  destruct (JsObject.get (MapController.reverseMapping mapping) name)
    as [|ourName|] eqn:Hget; cbn [JsObject.value_truthy].
  - discriminate.
  - destruct (truthy_string ourName); discriminate.
  - intros _. exists mapping, name. split; [reflexivity|]. split; [reflexivity|].
    unfold JsObject.get in Hget.
    destruct (JsObject.own (MapController.reverseMapping mapping) name)
      as [|] eqn:Hown; [discriminate|].
    destruct (array_includes JsObject.object_prototype_keys name) eqn:Hkeys;
      [|discriminate].
    split; [reflexivity|].
    destruct (String.eqb_spec name "__proto__") as [Heq|Hproto]; [left; exact Heq|].
    right. intros key Hin. apply (proj2 (entries_In _ _)) in Hin.
    exact (own_fold_defined _ JsObject.empty _ _ Hproto Hin Hown).
Qed.

(* ------------------------------------------------------------------ *)
(** *** The style of a feature under a filter *)

(** C4, as the code has it.  Under [applyFilter(filter)], a feature whose
    council is resolved and whose status is not among the selected statuses
    gets the empty style; a feature without a resolved council gets the
    default style (gray fill with a thin border); the two styles differ.
    A resolved council that satisfies the status constraint gets the style
    of [getLGAStyle], whatever the region and search constraints say.
    The resolution of the name of the feature fails to complete only when
    a mapping is loaded and the name is a property name of
    [Object.prototype] that is not read from the mapping; the style
    function then throws what the resolver throws. *)
Theorem filtered_style_by_status
    (this : MapController.t) (filter : Filters.t) (feature : Feature.t) :
  let resolved :=
    MapController.findCouncilByName this
      (MapController.probe feature MapController.nameKeys) in
  (forall council,
      resolved = Normal (Some council) ->
      FilterSpec.statusConstraint filter council = false ->
      MapController.filteredStyle this (Some filter) feature
      = Normal MapController.hiddenStyle) /\
  (resolved = Normal None ->
   MapController.filteredStyle this (Some filter) feature
   = Normal MapController.getDefaultStyle) /\
  (forall council,
      resolved = Normal (Some council) ->
      FilterSpec.statusConstraint filter council = true ->
      MapController.filteredStyle this (Some filter) feature
      = MapController.getLGAStyle this feature) /\
  MapController.getDefaultStyle <> MapController.hiddenStyle /\
  (forall error,
      resolved = Throw error ->
      MapController.filteredStyle this (Some filter) feature = Throw error /\
      exists mapping name,
        MapController.nameMapping this = Some mapping /\
        MapController.probe feature MapController.nameKeys = JString name /\
        array_includes JsObject.object_prototype_keys name = true /\
        (name = "__proto__" \/ forall key, ~ In (key, name) mapping)) /\
  ((MapController.nameMapping this = None \/
    forall name,
      MapController.probe feature MapController.nameKeys = JString name ->
      array_includes JsObject.object_prototype_keys name = false) ->
   exists answer, resolved = Normal answer).
Proof.
  intros resolved. subst resolved. unfold MapController.filteredStyle.
  split; [|split; [|split; [|split; [|split]]]].
  - intros council -> Hstatus. cbn [bind].
    rewrite status_guard, Hstatus. reflexivity.
  - intros ->. reflexivity.
  - intros council -> Hstatus. cbn [bind].
    rewrite status_guard, Hstatus. reflexivity.
  - discriminate.
  - intros error Hthrow. split; [rewrite Hthrow; reflexivity|].
    destruct (findCouncilByName_throws _ _ _ Hthrow)
      as [mapping [name [Hmapping [Hname Hkeys]]]].
    exists mapping, name. split; [exact Hmapping|]. split; [exact Hname|exact Hkeys].
  - intros Hsafe.
    destruct (MapController.findCouncilByName this
                (MapController.probe feature MapController.nameKeys))
      as [answer|error] eqn:Hfind; [exists answer; reflexivity|].
    destruct (findCouncilByName_throws _ _ _ Hfind)
      as [mapping [name [Hmapping [Hname [Hkeys _]]]]].
    destruct Hsafe as [Hnone|Hplain]; [congruence|].
    rewrite (Hplain _ Hname) in Hkeys. discriminate.
Qed.

Lemma filtered_style_by_status_witness :
  let councils :=
    Tracker.councils_of
      [("DUBBO REGIONAL", RawCouncil.mk (Some "Yes") (Some "") (Some "council@dubbo.nsw.gov.au"))] in
  let this := Resolver.started councils (FetchRejects "offline") in
  let mapped :=
    Resolver.started councils
      (FetchResponds true "200" (JsonObject [("DUBBO REGIONAL", "Dubbo Regional Council")])) in
  let onlyFree := Filters.mk ["No"] [] "" None in
  let onlyUsing := Filters.mk ["Yes"] [] "" None in
  let dubbo := [("lga_name_2021", JString "Dubbo Regional Council")] in
  let lordHowe := [("lga_name_2021", JString "Unincorporated NSW")] in
  let odd := [("lga_name_2021", JString "toString")] in
  MapController.filteredStyle this (Some onlyFree) dubbo
  = Normal MapController.hiddenStyle /\
  MapController.filteredStyle this (Some onlyFree) lordHowe
  = Normal MapController.getDefaultStyle /\
  MapController.filteredStyle this (Some onlyUsing) dubbo
  = MapController.getLGAStyle this dubbo /\
  MapController.filteredStyle mapped (Some onlyFree) dubbo
  = Normal MapController.hiddenStyle /\
  MapController.filteredStyle mapped (Some onlyFree) odd
  = Throw (TypeError "ourName.toUpperCase is not a function") /\
  (exists answer,
     MapController.findCouncilByName this
       (MapController.probe odd MapController.nameKeys) = Normal answer).
Proof.
  intros councils this mapped onlyFree onlyUsing dubbo lordHowe odd.
  pose (council := Council.mk "Dubbo Regional" (Some "Yes") (Some "")
                     (Some "council@dubbo.nsw.gov.au") "Orana" "2025-01-22").
  split; [|split; [|split; [|split; [|split]]]].
  - exact (proj1 (filtered_style_by_status this onlyFree dubbo)
             council eq_refl eq_refl).
  - exact (proj1 (proj2 (filtered_style_by_status this onlyFree lordHowe)) eq_refl).
  - exact (proj1 (proj2 (proj2 (filtered_style_by_status this onlyUsing dubbo)))
             council eq_refl eq_refl).
  - exact (proj1 (filtered_style_by_status mapped onlyFree dubbo)
             council eq_refl eq_refl).
  - exact (proj1 (proj1 (proj2 (proj2 (proj2 (proj2
             (filtered_style_by_status mapped onlyFree odd)))))
             (TypeError "ourName.toUpperCase is not a function") eq_refl)).
  - exact (proj2 (proj2 (proj2 (proj2 (proj2
             (filtered_style_by_status this onlyFree odd)))))
             (or_introl eq_refl)).
Defined.

(** C4, as stated, fails.  With the region "Hunter" selected, the council
    Dubbo Regional (region Orana) is excluded by the filter of the list,
    but the map does not hide its feature: it keeps the fill of its
    status. *)
Lemma excluded_by_region_still_drawn :
  let councils :=
    Tracker.councils_of
      [("DUBBO REGIONAL", RawCouncil.mk (Some "Yes") (Some "") (Some "council@dubbo.nsw.gov.au"))] in
  let council := Council.mk "Dubbo Regional" (Some "Yes") (Some "")
                   (Some "council@dubbo.nsw.gov.au") "Orana" "2025-01-22" in
  let hunter := Filters.mk [] ["Hunter"] "" None in
  let feature := [("lga_name_2021", JString "Dubbo Regional Council")] in
  let this :=
    MapController.applyFilter
      (Resolver.started councils (FetchRejects "offline"))
      (Some hunter) in
  MapController.findCouncilByName this
    (MapController.probe feature MapController.nameKeys) = Normal (Some council) /\
  Tracker.passesFilters hunter council = Normal false /\
  UtilsFilter.matchesCriteria hunter council = false /\
  MapController.styleFeature this feature
  = Some (Normal (Style.mk (Some "rgba(220, 53, 69, 0.7)") None)) /\
  MapController.styleFeature this feature
  <> Some (Normal MapController.hiddenStyle).
Proof.
  intros councils council hunter feature this.
  assert (Hstyle : MapController.styleFeature this feature
                   = Some (Normal (Style.mk (Some "rgba(220, 53, 69, 0.7)") None)))
    by (vm_compute; reflexivity).
  repeat split; try (vm_compute; reflexivity).
  rewrite Hstyle. discriminate.
Qed.

(* ------------------------------------------------------------------ *)
(** *** The answer for a name of the mapping *)

(** C1, as the code has it, for a controller with a mapping loaded.
    A non-empty candidate that is exactly (same letter case, no trimming)
    a value of the mapping is read from the reverse mapping, which holds
    for it the key of the last entry with that value in the order of
    [Object.entries].  When that key is not empty the answer is the first
    council of the catalog whose uppercased name equals the uppercased
    key, or equals it after runs of white space are collapsed, and it is
    nothing when no council does: there is no fuzzy lookup.  When the key
    is empty, and for a candidate that is no value of the mapping (be it
    only for its letter case) and no property name of [Object.prototype],
    the answer is that of the fuzzy step.  A property name of
    [Object.prototype] that is not read from the mapping makes the
    resolver throw, unless the catalog is empty. *)
Theorem mapped_candidate_resolved_by_mapping_only
    (this : MapController.t) (mapping : list (string * string)) :
  MapController.nameMapping this = Some mapping ->
  (forall gisName key,
     gisName <> "" ->
     gisName <> "__proto__" ->
     In (key, gisName) mapping ->
     exists ourName answer,
       ResolutionSpec.mappedId mapping gisName = Some ourName /\
       In (ourName, gisName) mapping /\
       MapController.findCouncilByName this (JString gisName) = Normal answer /\
       (ourName <> "" ->
        ResolutionSpec.firstWith (ResolutionSpec.carriesId ourName)
          (MapController.councils this) answer) /\
       (ourName = "" ->
        ResolutionSpec.firstWith (ResolutionSpec.fuzzyMatches gisName)
          (MapController.councils this) answer)) /\
  (forall other,
     other <> "" ->
     (forall key, ~ In (key, other) mapping) ->
     array_includes JsObject.object_prototype_keys other = false ->
     exists answer,
       MapController.findCouncilByName this (JString other) = Normal answer /\
       ResolutionSpec.firstWith (ResolutionSpec.fuzzyMatches other)
         (MapController.councils this) answer) /\
  (forall name,
     array_includes JsObject.object_prototype_keys name = true ->
     name = "__proto__" \/ (forall key, ~ In (key, name) mapping) ->
     MapController.councils this <> [] ->
     exists error,
       MapController.findCouncilByName this (JString name) = Throw error).
Proof.
  intros Hmapping. split; [|split].
  - intros gisName key Hnonempty Hproto Hin.
    destruct (mappedId_value mapping gisName key Hin) as [ourName [Hid Hkey]].
    assert (Hget : JsObject.get (MapController.reverseMapping mapping) gisName
                   = JsObject.Str ourName).
    { unfold JsObject.get.
      rewrite (reverseMapping_mappedId _ _ Hproto), Hid. reflexivity. }
    destruct (String.eqb_spec ourName "") as [Hempty|Hfull].
    + exists ourName, (MapController.fuzzyFind (MapController.councils this) gisName).
      split; [exact Hid|]. split; [exact Hkey|]. split; [|split].
      * unfold MapController.findCouncilByName.
        rewrite (truthy_nonempty _ Hnonempty), Hmapping, Hget, Hempty. reflexivity.
      * intros Hne. contradiction.
      * intros _. apply fuzzyFind_firstWith.
    + exists ourName,
        (find (MapController.mappedMatch ourName) (MapController.councils this)).
      split; [exact Hid|]. split; [exact Hkey|]. split; [|split].
      * unfold MapController.findCouncilByName.
        rewrite (truthy_nonempty _ Hnonempty), Hmapping, Hget.
        cbn [negb JsObject.value_truthy]. unfold truthy_string.
        destruct (String.eqb_spec ourName ""); [contradiction|reflexivity].
      * intros _. apply find_firstWith. intros council.
        apply mappedMatch_carriesId.
      * intros Hempty. contradiction.
  - intros other Hother Hnone Hobj.
    exists (MapController.fuzzyFind (MapController.councils this) other).
    split; [|apply fuzzyFind_firstWith].
    unfold MapController.findCouncilByName.
    rewrite (truthy_nonempty _ Hother), Hmapping, (reverseMapping_absent _ _ Hnone Hobj).
    reflexivity.
  - intros name Hkeys Hunread Hcouncils.
    assert (Hnonempty : name <> "") by (intros ->; discriminate).
    assert (Hget : JsObject.get (MapController.reverseMapping mapping) name
                   = JsObject.Inherited).
    { unfold JsObject.get.
      assert (Hown : JsObject.own (MapController.reverseMapping mapping) name = None).
      { destruct Hunread as [->|Hnone].
        - apply own_fold_proto. reflexivity.
        - destruct (String.eqb_spec name "__proto__") as [->|Hproto].
          + apply own_fold_proto. reflexivity.
          + apply reverseMapping_own_absent; assumption. }
      rewrite Hown, Hkeys. reflexivity. }
    exists (TypeError "ourName.toUpperCase is not a function").
    unfold MapController.findCouncilByName.
    rewrite (truthy_nonempty _ Hnonempty), Hmapping, Hget.
    cbn [negb JsObject.value_truthy].
    destruct (MapController.councils this) as [|council rest];
      [contradiction|reflexivity].
Qed.

Lemma mapped_candidate_resolved_by_mapping_only_witness :
  let councils :=
    Tracker.councils_of
      [("RANDWICK", RawCouncil.mk (Some "No") (Some "") (Some "council@randwick.nsw.gov.au"));
       ("SYDNEY", RawCouncil.mk (Some "Yes") (Some "") (Some "council@cityofsydney.nsw.gov.au"))] in
  let sydney :=
    Council.mk "Sydney" (Some "Yes") (Some "")
               (Some "council@cityofsydney.nsw.gov.au") "Metro South" "2025-01-22" in
  let mapping :=
    [("RANDWICK", "Randwick City Council");
     ("SYDNEY", "Council of the City of Sydney")] in
  let this :=
    Resolver.started councils
      (FetchResponds true "200" (JsonObject mapping)) in
  ResolutionSpec.mappedId mapping "Council of the City of Sydney" = Some "SYDNEY" /\
  MapController.findCouncilByName this (JString "Council of the City of Sydney")
  = Normal (Some sydney) /\
  ResolutionSpec.firstWith (ResolutionSpec.carriesId "SYDNEY") councils (Some sydney) /\
  exists error,
    MapController.findCouncilByName this (JString "toString") = Throw error.
Proof.
  intros councils sydney mapping this.
  assert (Hloaded : MapController.nameMapping this = Some mapping) by reflexivity.
  destruct (mapped_candidate_resolved_by_mapping_only this mapping Hloaded)
    as [Hhit [_ Hproto]].
  destruct (Hhit "Council of the City of Sydney" "SYDNEY"
              ltac:(discriminate) ltac:(discriminate)
              ltac:(right; left; reflexivity))
    as [ourName [answer [Hid [_ [Hfind [Hfirst _]]]]]].
  assert (Hkey : ourName = "SYDNEY").
  { vm_compute in Hid. injection Hid as <-. reflexivity. }
  assert (Hanswer : answer = Some sydney).
  { vm_compute in Hfind. injection Hfind as <-. reflexivity. }
  rewrite Hkey in Hid, Hfirst. rewrite Hanswer in Hfind, Hfirst.
  split; [exact Hid|]. split; [exact Hfind|].
  split; [apply Hfirst; discriminate|].
  apply Hproto; [reflexivity| |discriminate].
  right. intros key [Heq|[Heq|[]]]; discriminate.
Defined.

(** C1, as stated, fails.  The mapping sends the candidate "Council of the
    City of Sydney" to "SYDNEY", the catalog names the council "City Of
    Sydney": the lookup of the mapped key misses, the fuzzy lookup would
    find the council, and the resolver answers "not found". *)
Lemma mapping_hit_catalog_miss_not_found :
  let councils :=
    Tracker.councils_of
      [("CITY OF SYDNEY", RawCouncil.mk (Some "Yes") (Some "") (Some "council@cityofsydney.nsw.gov.au"))] in
  let council :=
    Council.mk "City Of Sydney" (Some "Yes") (Some "")
               (Some "council@cityofsydney.nsw.gov.au") "Other" "2025-01-22" in
  let mapping := [("SYDNEY", "Council of the City of Sydney")] in
  let this :=
    Resolver.started councils
      (FetchResponds true "200" (JsonObject mapping)) in
  In ("SYDNEY", "Council of the City of Sydney") mapping /\
  find (MapController.mappedMatch "SYDNEY") councils = None /\
  MapController.fuzzyFind councils "Council of the City of Sydney" = Some council /\
  MapController.findCouncilByName this (JString "Council of the City of Sydney")
  = Normal None.
Proof. repeat split. left. reflexivity. Qed.

(* ------------------------------------------------------------------ *)
(** *** Normalization *)

(* ------------------------------------------------------------------ *)
(** *** Characters *)

Ltac by_cases_on_char c :=
  destruct c as [[|] [|] [|] [|] [|] [|] [|] [|]]; vm_compute; congruence.

Lemma space_not_word (c : ascii) : is_space c = true -> is_word c = false.
Proof. by_cases_on_char c. Qed.

Lemma upper_char_not_lower (c : ascii) : is_lower (upper_char c) = false.
Proof. by_cases_on_char c. Qed.

Lemma not_lower_upper_char (c : ascii) : is_lower c = false -> upper_char c = c.
Proof. unfold upper_char. intros ->. reflexivity. Qed.

(* ------------------------------------------------------------------ *)
(** *** Strings whose characters all satisfy a predicate *)

Section Every.

Variable p : ascii -> bool.

Lemma every_replace_go (alts : list string) (s : string) :
  forall prev skip,
    Words.every p s = true -> Words.every p (replace_go alts prev skip s) = true.
Proof.
  induction s as [|c t IH]; intros prev skip H; [reflexivity|].
  cbn [Words.every] in H. apply andb_prop in H. destruct H as [Hc Ht].
  cbn [replace_go]. destruct skip as [|k].
  - destruct (match_at alts prev (String c t)) as [[|k]|].
    + cbn [Words.every]. rewrite Hc. apply IH. exact Ht.
    + apply IH. exact Ht.
    + cbn [Words.every]. rewrite Hc. apply IH. exact Ht.
  - apply IH. exact Ht.
Qed.

Lemma every_collapse_go (s : string) :
  p " "%char = true ->
  forall b, Words.every p s = true -> Words.every p (collapse_go b s) = true.
Proof.
  intros Hspace. induction s as [|c t IH]; intros b H; [reflexivity|].
  cbn [Words.every] in H. apply andb_prop in H. destruct H as [Hc Ht].
  cbn [collapse_go]. destruct (is_space c).
  - destruct b; [apply IH; exact Ht|].
    cbn [Words.every]. rewrite Hspace. apply IH. exact Ht.
  - cbn [Words.every]. rewrite Hc. apply IH. exact Ht.
Qed.

Lemma every_trimStart (s : string) :
  Words.every p s = true -> Words.every p (trimStart s) = true.
Proof.
  induction s as [|c t IH]; intros H; [reflexivity|].
  cbn [trimStart]. destruct (is_space c); [|exact H].
  cbn [Words.every] in H. apply andb_prop in H. apply IH. apply H.
Qed.

Lemma every_trimEnd (s : string) :
  Words.every p s = true -> Words.every p (trimEnd s) = true.
Proof.
  induction s as [|c t IH]; intros H; [reflexivity|].
  cbn [Words.every] in H. apply andb_prop in H. destruct H as [Hc Ht].
  specialize (IH Ht). cbn [trimEnd].
  destruct (trimEnd t) as [|d t'].
  - destruct (is_space c); [reflexivity|]. cbn [Words.every]. rewrite Hc. reflexivity.
  - cbn [Words.every] in *. rewrite Hc. exact IH.
Qed.

Lemma every_trim (s : string) :
  Words.every p s = true -> Words.every p (trim s) = true.
Proof. intros H. apply every_trimEnd, every_trimStart, H. Qed.

End Every.

Lemma toUpperCase_not_lower (s : string) :
  Words.every Words.not_lower (toUpperCase s) = true.
Proof.
  induction s as [|c t IH]; [reflexivity|].
  cbn [toUpperCase map_chars Words.every]. unfold Words.not_lower at 1.
  rewrite upper_char_not_lower. exact IH.
Qed.

Lemma toUpperCase_fixed (s : string) :
  Words.every Words.not_lower s = true -> toUpperCase s = s.
Proof.
  induction s as [|c t IH]; intros H; [reflexivity|].
  cbn [Words.every] in H. apply andb_prop in H. destruct H as [Hc Ht].
  unfold toUpperCase in *. cbn [map_chars]. rewrite (IH Ht).
  rewrite not_lower_upper_char; [reflexivity|].
  unfold Words.not_lower in Hc. destruct (is_lower c); [discriminate|reflexivity].
Qed.

(* ------------------------------------------------------------------ *)
(** *** White space *)

Lemma single_spaced_collapse_go (s : string) :
  forall b, Words.single_spaced b (collapse_go b s) = true.
Proof.
  induction s as [|c t IH]; intros b; [reflexivity|].
  cbn [collapse_go]. destruct (is_space c) eqn:Hc.
  - destruct b; [apply IH|].
    cbn [Words.single_spaced]. change (is_space " "%char) with true.
    cbn. apply IH.
  - cbn [Words.single_spaced]. rewrite Hc. apply IH.
Qed.

Lemma collapse_go_fixed (s : string) :
  forall b, Words.single_spaced b s = true -> collapse_go b s = s.
Proof.
  induction s as [|c t IH]; intros b H; [reflexivity|].
  cbn [Words.single_spaced] in H. cbn [collapse_go].
  destruct (is_space c).
  - apply andb_prop in H. destruct H as [H Ht].
    apply andb_prop in H. destruct H as [Hc Hb].
    apply Ascii.eqb_eq in Hc. subst c.
    destruct b; [discriminate|]. rewrite (IH _ Ht). reflexivity.
  - rewrite (IH _ H). reflexivity.
Qed.

Lemma single_spaced_trimStart (s : string) :
  forall b, Words.single_spaced b s = true ->
            Words.single_spaced false (trimStart s) = true.
Proof.
  induction s as [|c t IH]; intros b H; [reflexivity|].
  cbn [trimStart]. cbn [Words.single_spaced] in H.
  destruct (is_space c) eqn:Hc.
  - apply andb_prop in H. destruct H as [_ Ht]. apply (IH _ Ht).
  - cbn [Words.single_spaced]. rewrite Hc. exact H.
Qed.

Lemma single_spaced_trimEnd (s : string) :
  forall b, Words.single_spaced b s = true ->
            Words.single_spaced b (trimEnd s) = true.
Proof.
  induction s as [|c t IH]; intros b H; [reflexivity|].
  cbn [Words.single_spaced] in H. cbn [trimEnd].
  destruct (is_space c) eqn:Hc.
  - apply andb_prop in H. destruct H as [H Ht]. specialize (IH _ Ht).
    destruct (trimEnd t) as [|d t']; [reflexivity|].
    cbn [Words.single_spaced]. rewrite Hc, H. exact IH.
  - specialize (IH _ H).
    destruct (trimEnd t) as [|d t'].
    + cbn [Words.single_spaced]. rewrite Hc. reflexivity.
    + cbn [Words.single_spaced]. rewrite Hc. exact IH.
Qed.

Lemma trimStart_fixed (s : string) :
  Words.no_leading_space s = true -> trimStart s = s.
Proof.
  destruct s as [|c t]; [reflexivity|]. cbn. destruct (is_space c); [discriminate|reflexivity].
Qed.

Lemma no_leading_space_trimStart (s : string) :
  Words.no_leading_space (trimStart s) = true.
Proof.
  induction s as [|c t IH]; [reflexivity|].
  cbn [trimStart]. destruct (is_space c) eqn:Hc; [exact IH|].
  cbn. rewrite Hc. reflexivity.
Qed.

Lemma no_leading_space_trimEnd (s : string) :
  Words.no_leading_space s = true -> Words.no_leading_space (trimEnd s) = true.
Proof.
  destruct s as [|c t]; [reflexivity|]. cbn [Words.no_leading_space trimEnd].
  intros Hc. destruct (trimEnd t).
  - destruct (is_space c) eqn:E; [discriminate|]. cbn. rewrite E. reflexivity.
  - cbn. exact Hc.
Qed.

Lemma trimEnd_idempotent (s : string) : trimEnd (trimEnd s) = trimEnd s.
Proof.
  induction s as [|c t IH]; [reflexivity|].
  cbn [trimEnd]. destruct (trimEnd t) as [|d t'] eqn:Ht.
  - destruct (is_space c) eqn:Hc; [reflexivity|]. cbn. rewrite Hc. reflexivity.
  - cbn [trimEnd]. cbn [trimEnd] in IH. rewrite IH. reflexivity.
Qed.

Lemma trim_idempotent (s : string) : trim (trim s) = trim s.
Proof.
  unfold trim. rewrite (trimStart_fixed (trimEnd (trimStart s))).
  - apply trimEnd_idempotent.
  - apply no_leading_space_trimEnd, no_leading_space_trimStart.
Qed.

Lemma single_spaced_trim (s : string) :
  forall b, Words.single_spaced b s = true ->
            Words.single_spaced false (trim s) = true.
Proof.
  intros b H. unfold trim.
  apply single_spaced_trimEnd, (single_spaced_trimStart s b), H.
Qed.

(* ------------------------------------------------------------------ *)
(** *** Matching a list of literals *)

Lemma match_alternatives_cons (lit : string) (rest : list string)
    (prev : option ascii) (s : string) :
  match_alternatives (lit :: rest) prev s
  = if Words.accepts lit prev s then Some (String.length lit)
    else match_alternatives rest prev s.
Proof.
  cbn [match_alternatives]. unfold Words.accepts.
  destruct (match_literal lit s prev) as [[p' s']|]; reflexivity.
Qed.

Lemma match_literal_app (lit : string) :
  forall s prev p' s',
    match_literal lit s prev = Some (p', s') -> s = lit ++ s'.
Proof.
  induction lit as [|a lit IH]; intros s prev p' s' H.
  - cbn in H. injection H as _ <-. reflexivity.
  - destruct s as [|c t]; [discriminate|]. cbn [match_literal] in H.
    destruct (Ascii.eqb_spec a c) as [->|_]; [|discriminate].
    cbn [append]. f_equal. exact (IH _ _ _ _ H).
Qed.

Lemma match_literal_last (lit : string) :
  forall s prev p' s',
    match_literal lit s prev = Some (p', s') ->
    word_before p' = Words.ends_with_word (word_before prev) lit.
Proof.
  induction lit as [|a lit IH]; intros s prev p' s' H.
  - cbn in H. injection H as <- _. reflexivity.
  - destruct s as [|c t]; [discriminate|]. cbn [match_literal] in H.
    destruct (Ascii.eqb_spec a c) as [->|_]; [|discriminate].
    rewrite (IH _ _ _ _ H). reflexivity.
Qed.

Lemma ends_with_word_nonempty (lit : string) (b b' : bool) :
  lit <> "" -> Words.ends_with_word b lit = Words.ends_with_word b' lit.
Proof. destruct lit; [congruence|reflexivity]. Qed.

Lemma word_edged_nonempty (lit : string) : Words.word_edged lit = true -> lit <> "".
Proof. destruct lit; [discriminate|discriminate]. Qed.

(** A match of an alternative ends before a character that is not a word
    character. *)
Lemma accepts_word_edged (lit : string) (prev : option ascii) (s : string) :
  Words.word_edged lit = true ->
  Words.accepts lit prev s = true ->
  exists s', s = lit ++ s' /\ word_at s' = false /\ word_at s = true.
Proof.
  intros Hedge Hacc. unfold Words.accepts in Hacc.
  destruct (match_literal lit s prev) as [[p' s']|] eqn:Hlit; [|discriminate].
  exists s'. split; [exact (match_literal_app _ _ _ _ _ Hlit)|].
  unfold Words.word_edged in Hedge. apply andb_prop in Hedge.
  destruct Hedge as [Hfirst Hlast].
  split.
  - unfold boundary in Hacc. rewrite (match_literal_last _ _ _ _ _ Hlit) in Hacc.
    rewrite (ends_with_word_nonempty lit _ false) in Hacc
      by (destruct lit; [discriminate|discriminate]).
    rewrite Hlast in Hacc. destruct (word_at s'); [discriminate|reflexivity].
  - rewrite (match_literal_app _ _ _ _ _ Hlit).
    destruct lit; [discriminate|exact Hfirst].
Qed.

Lemma match_alternatives_Some (alts : list string) (prev : option ascii)
    (s : string) (n : nat) :
  match_alternatives alts prev s = Some n ->
  exists lit, In lit alts /\ n = String.length lit /\ Words.accepts lit prev s = true.
Proof.
  induction alts as [|lit rest IH]; [discriminate|].
  rewrite match_alternatives_cons.
  destruct (Words.accepts lit prev s) eqn:Hacc.
  - intros H. injection H as <-. exists lit. split; [left; reflexivity|]. split; [reflexivity|exact Hacc].
  - intros H. destruct (IH H) as [l [Hin Hl]]. exists l. split; [right; exact Hin|exact Hl].
Qed.

Lemma match_alternatives_In (alts : list string) (lit : string)
    (prev : option ascii) (s : string) :
  In lit alts -> Words.accepts lit prev s = true ->
  match_alternatives alts prev s <> None.
Proof.
  induction alts as [|l rest IH]; intros Hin Hacc; [destruct Hin|].
  rewrite match_alternatives_cons. destruct (Words.accepts l prev s) eqn:Hl.
  - discriminate.
  - destruct Hin as [->|Hin]; [congruence|]. apply IH; assumption.
Qed.

Section Alternatives.

Variable alts : list string.
Hypothesis alts_edged : forallb Words.word_edged alts = true.

Lemma alts_edged_In (lit : string) : In lit alts -> Words.word_edged lit = true.
Proof. intros Hin. exact (proj1 (forallb_forall _ _) alts_edged lit Hin). Qed.

(** A match starts at the beginning of a word and is not empty. *)
Lemma match_at_Some (prev : option ascii) (s : string) (n : nat) :
  match_at alts prev s = Some n ->
  word_before prev = false /\ word_at s = true /\ Words.landing n s = true /\
  exists k, n = S k.
Proof.
  unfold match_at. destruct (boundary prev s) eqn:Hb; [|discriminate].
  intros H. destruct (match_alternatives_Some _ _ _ _ H) as [lit [Hin [-> Hacc]]].
  pose proof (alts_edged_In lit Hin) as Hedge.
  destruct (accepts_word_edged lit prev s Hedge Hacc) as [s' [Hs [Hafter Hat]]].
  split; [|split; [exact Hat|split]].
  - unfold boundary in Hb. rewrite Hat in Hb.
    destruct (word_before prev); [discriminate|reflexivity].
  - rewrite Hs. clear -Hafter. induction lit as [|a lit IH].
    + cbn. rewrite Hafter. reflexivity.
    + cbn [String.length append Words.landing]. exact IH.
  - destruct lit as [|a lit]; [discriminate|]. exists (String.length lit). reflexivity.
Qed.

Lemma match_at_not_word (prev : option ascii) (s : string) :
  word_at s = false -> match_at alts prev s = None.
Proof.
  intros Hs. destruct (match_at alts prev s) as [n|] eqn:H; [|reflexivity].
  destruct (match_at_Some _ _ _ H) as [_ [Hat _]]. congruence.
Qed.

Lemma match_at_inside_word (prev : option ascii) (s : string) :
  word_before prev = true -> match_at alts prev s = None.
Proof.
  intros Hp. destruct (match_at alts prev s) as [n|] eqn:H; [|reflexivity].
  destruct (match_at_Some _ _ _ H) as [Hprev _]. congruence.
Qed.

(** Inside a word the scan copies the rest of the word. *)
Lemma wordPrefix_replace_go (s : string) :
  forall prev,
    word_before prev = true ->
    Words.wordPrefix (replace_go alts prev 0 s) = Words.wordPrefix s.
Proof.
  induction s as [|c t IH]; intros prev Hprev; [reflexivity|].
  cbn [replace_go]. rewrite (match_at_inside_word _ _ Hprev).
  cbn [Words.wordPrefix]. destruct (is_word c) eqn:Hc; [|reflexivity].
  rewrite IH; [reflexivity|exact Hc].
Qed.

End Alternatives.

(* ------------------------------------------------------------------ *)
(** *** Alternatives that are single words *)

Lemma word_only_edged (lit : string) :
  Words.word_only lit = true -> Words.word_edged lit = true.
Proof.
  unfold Words.word_only, Words.word_edged. intros H.
  apply andb_prop in H. destruct H as [Hne Hall].
  destruct lit as [|a lit]; [discriminate|]. clear Hne.
  cbn [Words.every] in Hall. apply andb_prop in Hall. destruct Hall as [Ha Hlit].
  cbn [word_at Words.ends_with_word]. rewrite Ha. cbn [andb]. clear a Ha.
  assert (H : forall b, b = true -> Words.ends_with_word b lit = true);
    [|apply H; reflexivity].
  induction lit as [|b lit IH]; intros b0 Hb0; [exact Hb0|].
  cbn [Words.every] in Hlit. apply andb_prop in Hlit. destruct Hlit as [Hb Hlit].
  cbn [Words.ends_with_word]. apply IH; assumption.
Qed.

Lemma word_only_list_edged (words : list string) :
  forallb Words.word_only words = true -> forallb Words.word_edged words = true.
Proof.
  intros H. apply forallb_forall. intros lit Hin.
  apply word_only_edged. exact (proj1 (forallb_forall _ _) H lit Hin).
Qed.

Lemma wordPrefix_empty (s : string) :
  String.eqb (Words.wordPrefix s) "" = negb (word_at s).
Proof. destruct s as [|c t]; [reflexivity|]. cbn. destruct (is_word c); reflexivity. Qed.

(** A single word is accepted exactly when it is the whole word at the
    head of the subject. *)
Lemma accepts_word_only (lit : string) :
  Words.word_only lit = true ->
  forall prev s, Words.accepts lit prev s = String.eqb lit (Words.wordPrefix s).
Proof.
  unfold Words.word_only. intros H. apply andb_prop in H. destruct H as [Hne Hall].
  induction lit as [|a lit IH]; [discriminate|]. clear Hne.
  cbn [Words.every] in Hall. apply andb_prop in Hall. destruct Hall as [Ha Hlit].
  intros prev s. unfold Words.accepts. destruct s as [|c t]; [reflexivity|].
  cbn [match_literal Words.wordPrefix].
  destruct (Ascii.eqb_spec a c) as [<-|Hneq].
  - rewrite Ha. cbn [String.eqb]. rewrite Ascii.eqb_refl.
    destruct lit as [|b lit].
    + cbn [match_literal]. unfold boundary. cbn [word_before]. rewrite Ha.
      cbn [xorb]. rewrite String.eqb_sym, wordPrefix_empty.
      destruct (word_at t); reflexivity.
    + specialize (IH eq_refl Hlit (Some a) t). unfold Words.accepts in IH. exact IH.
  - destruct (is_word c); cbn [String.eqb]; [|reflexivity].
    destruct (Ascii.eqb_spec a c); [contradiction|reflexivity].
Qed.

Section WordLists.

Variable words : list string.
Hypothesis words_only : forallb Words.word_only words = true.

Lemma match_alternatives_words (prev prev' : option ascii) (s s' : string) :
  Words.wordPrefix s = Words.wordPrefix s' ->
  match_alternatives words prev s = match_alternatives words prev' s'.
Proof.
  intros Hw. revert words_only. induction words as [|lit rest IH]; intros Hall; [reflexivity|].
  cbn [forallb] in Hall. apply andb_prop in Hall. destruct Hall as [Hlit Hrest].
  rewrite !match_alternatives_cons, !(accepts_word_only lit Hlit), Hw, (IH Hrest).
  reflexivity.
Qed.

Lemma word_at_wordPrefix (s s' : string) :
  Words.wordPrefix s = Words.wordPrefix s' -> word_at s = word_at s'.
Proof.
  intros H. pose proof (wordPrefix_empty s) as Hs. pose proof (wordPrefix_empty s') as Hs'.
  rewrite H in Hs. rewrite Hs in Hs'.
  destruct (word_at s), (word_at s'); cbn in Hs'; congruence.
Qed.

(** Whether one of the words matches depends on the word at the head of
    the subject and on the kind of the character before it. *)
Lemma match_at_words (prev prev' : option ascii) (s s' : string) :
  word_before prev = word_before prev' ->
  Words.wordPrefix s = Words.wordPrefix s' ->
  match_at words prev s = match_at words prev' s'.
Proof.
  intros Hp Hw. unfold match_at, boundary.
  rewrite Hp, (word_at_wordPrefix _ _ Hw), (match_alternatives_words prev prev' s s' Hw).
  reflexivity.
Qed.

End WordLists.

(* ------------------------------------------------------------------ *)
(** *** Subjects without a match *)

Lemma no_match_tail (alts : list string) (prev : option ascii) (c : ascii)
    (t : string) :
  Words.no_match alts prev (String c t) = true ->
  Words.no_match alts (Some c) t = true.
Proof.
  cbn [Words.no_match].
  destruct (match_at alts prev (String c t)) as [[|k]|]; congruence.
Qed.

Lemma no_match_head (alts : list string) (prev : option ascii) (c : ascii)
    (t : string) (k : nat) :
  Words.no_match alts prev (String c t) = true ->
  match_at alts prev (String c t) <> Some (S k).
Proof.
  cbn [Words.no_match]. intros H E. rewrite E in H. discriminate.
Qed.

(** Where the pattern has no match, the replacement changes nothing. *)
Lemma no_match_replace_go (alts : list string) (s : string) :
  forall prev,
    Words.no_match alts prev s = true -> replace_go alts prev 0 s = s.
Proof.
  induction s as [|c t IH]; intros prev H; [reflexivity|].
  cbn [Words.no_match] in H. cbn [replace_go].
  destruct (match_at alts prev (String c t)) as [[|k]|];
    try discriminate; rewrite (IH _ H); reflexivity.
Qed.

Section ScanRemovesWords.

(** [alts] is the pattern of the replacement; [words] are single words,
    each of them an alternative of the pattern or absent from the
    subject. *)
Variables alts words absent : list string.
Hypothesis alts_edged : forallb Words.word_edged alts = true.
Hypothesis words_only : forallb Words.word_only words = true.
Hypothesis absent_only : forallb Words.word_only absent = true.
Hypothesis words_covered : forall w, In w words -> In w alts \/ In w absent.

Lemma word_not_at_head (prev : option ascii) (s : string) :
  match_at alts prev s = None ->
  Words.no_match absent prev s = true ->
  match_at words prev s = None.
Proof.
  intros Halts Habsent.
  destruct (match_at words prev s) as [n|] eqn:Hwords; [|reflexivity].
  exfalso. unfold match_at in Hwords, Halts.
  destruct (boundary prev s) eqn:Hb; [|discriminate].
  destruct (match_alternatives_Some _ _ _ _ Hwords) as [w [Hin [_ Hacc]]].
  destruct (words_covered w Hin) as [Hw|Hw].
  - exact (match_alternatives_In alts w prev s Hw Hacc Halts).
  - destruct s as [|c t].
    + pose proof (word_only_edged w (proj1 (forallb_forall _ _) words_only w Hin)) as He.
      destruct (accepts_word_edged w prev "" He Hacc) as [_ [_ [_ Hat]]]. discriminate.
    + destruct (match_at absent prev (String c t)) as [[|k]|] eqn:Habs.
      * destruct (match_at_Some absent (word_only_list_edged _ absent_only) _ _ _ Habs)
          as [_ [_ [_ [k Hk]]]]. discriminate.
      * exact (no_match_head _ _ _ _ k Habsent Habs).
      * unfold match_at in Habs. rewrite Hb in Habs.
        exact (match_alternatives_In absent w prev _ Hw Hacc Habs).
Qed.

(** The result of the replacement holds none of the [words].  [oprev] is
    the character before the rest of the result. *)
Lemma no_match_replace_go_words (s : string) :
  forall prev oprev skip,
    (skip = 0 /\ word_before prev = word_before oprev) \/
    (word_before oprev = false /\ Words.landing skip s = true) ->
    Words.no_match absent prev s = true ->
    Words.no_match words oprev (replace_go alts prev skip s) = true.
Proof.
  induction s as [|c t IH]; intros prev oprev skip Hinv Habsent; [reflexivity|].
  pose proof (no_match_tail _ _ _ _ Habsent) as Htail.
  cbn [replace_go]. destruct skip as [|k].
  - destruct (match_at alts prev (String c t)) as [n|] eqn:Hm.
    + destruct (match_at_Some alts alts_edged _ _ _ Hm)
        as [Hprev [Hat [Hland [k Hk]]]]. subst n.
      apply IH; [|exact Htail]. right. split; [|exact Hland].
      destruct Hinv as [[_ Heq]|[Ho Hl]]; [congruence|].
      cbn [Words.landing] in Hl. rewrite Hat in Hl. discriminate.
    + assert (Hhead : match_at words oprev
                        (String c (replace_go alts (Some c) 0 t)) = None).
      { destruct (is_word c) eqn:Hc.
        - destruct Hinv as [[_ Heq]|[Ho Hl]].
          + destruct (word_before oprev) eqn:Ho.
            * apply (match_at_inside_word words (word_only_list_edged _ words_only)).
              exact Ho.
            * rewrite (match_at_words words words_only oprev prev _ (String c t)).
              -- apply word_not_at_head; assumption.
              -- congruence.
              -- cbn [Words.wordPrefix]. rewrite Hc.
                 rewrite (wordPrefix_replace_go alts alts_edged); [reflexivity|exact Hc].
          + cbn [Words.landing word_at] in Hl. rewrite Hc in Hl. discriminate.
        - apply (match_at_not_word words (word_only_list_edged _ words_only)).
          exact Hc. }
      cbn [Words.no_match]. rewrite Hhead.
      apply IH; [|exact Htail]. left. split; reflexivity.
  - apply IH; [|exact Htail]. right.
    destruct Hinv as [[Hk _]|[Ho Hl]]; [discriminate|]. split; [exact Ho|exact Hl].
Qed.

Lemma no_match_remove_words (s : string) :
  Words.no_match absent None s = true ->
  Words.no_match words None (remove_words alts s) = true.
Proof.
  intros H. unfold remove_words. apply no_match_replace_go_words; [|exact H].
  left. split; reflexivity.
Qed.

End ScanRemovesWords.

Section WordsSurviveSpacing.

Variable words : list string.
Hypothesis words_only : forallb Words.word_only words = true.

Lemma wordPrefix_collapse_go (s : string) :
  Words.wordPrefix (collapse_go false s) = Words.wordPrefix s.
Proof.
  induction s as [|c t IH]; [reflexivity|].
  cbn [collapse_go]. destruct (is_space c) eqn:Hc.
  - cbn [Words.wordPrefix]. rewrite (space_not_word _ Hc). reflexivity.
  - cbn [Words.wordPrefix]. rewrite IH. reflexivity.
Qed.

Lemma no_match_collapse_go (s : string) :
  forall prev oprev b,
    word_before oprev = word_before prev ->
    (b = true -> word_before prev = false) ->
    Words.no_match words prev s = true ->
    Words.no_match words oprev (collapse_go b s) = true.
Proof.
  induction s as [|c t IH]; intros prev oprev b Hp Hb H; [reflexivity|].
  pose proof (no_match_tail _ _ _ _ H) as Htail.
  cbn [collapse_go]. destruct (is_space c) eqn:Hc.
  - assert (Hnw : word_before (Some c) = false) by exact (space_not_word _ Hc).
    destruct b.
    + apply (IH (Some c)); [|intros _; exact Hnw|exact Htail].
      rewrite Hp, (Hb eq_refl). symmetry. exact Hnw.
    + cbn [Words.no_match].
      rewrite (match_at_not_word words (word_only_list_edged _ words_only))
        by reflexivity.
      apply (IH (Some c)); [|intros _; exact Hnw|exact Htail].
      rewrite Hnw. reflexivity.
  - cbn [Words.no_match].
    rewrite (match_at_words words words_only oprev prev _ (String c t)).
    + destruct (match_at words prev (String c t)) as [[|k]|] eqn:Hm.
      * apply (IH (Some c)); [reflexivity|discriminate|exact Htail].
      * destruct (no_match_head _ _ _ _ k H Hm).
      * apply (IH (Some c)); [reflexivity|discriminate|exact Htail].
    + exact Hp.
    + cbn [Words.wordPrefix]. rewrite wordPrefix_collapse_go. reflexivity.
Qed.

Lemma no_match_prev (s : string) (prev prev' : option ascii) :
  word_before prev = word_before prev' ->
  Words.no_match words prev s = Words.no_match words prev' s.
Proof.
  intros Hp. destruct s as [|c t]; [reflexivity|].
  cbn [Words.no_match].
  rewrite (match_at_words words words_only prev prev' _ (String c t) Hp eq_refl).
  reflexivity.
Qed.

Lemma no_match_trimStart (s : string) :
  forall prev,
    word_before prev = false ->
    Words.no_match words prev s = true ->
    Words.no_match words None (trimStart s) = true.
Proof.
  induction s as [|c t IH]; intros prev Hp H; [reflexivity|].
  cbn [trimStart]. destruct (is_space c) eqn:Hc.
  - apply (IH (Some c)); [exact (space_not_word _ Hc)|exact (no_match_tail _ _ _ _ H)].
  - rewrite (no_match_prev _ None prev); [exact H|]. rewrite Hp. reflexivity.
Qed.

Lemma trimEnd_cons (c : ascii) (t : string) :
  trimEnd (String c t) = "" \/ trimEnd (String c t) = String c (trimEnd t).
Proof.
  cbn [trimEnd]. destruct (trimEnd t).
  - destruct (is_space c); [left|right]; reflexivity.
  - right. reflexivity.
Qed.

Lemma wordPrefix_trimEnd (s : string) :
  Words.wordPrefix (trimEnd s) = Words.wordPrefix s.
Proof.
  induction s as [|c t IH]; [reflexivity|].
  cbn [trimEnd Words.wordPrefix]. destruct (is_word c) eqn:Hc.
  - destruct (trimEnd t) as [|d t'] eqn:Ht.
    + destruct (is_space c) eqn:Hs.
      * rewrite (space_not_word _ Hs) in Hc. discriminate.
      * cbn [Words.wordPrefix]. rewrite Hc, <- IH. reflexivity.
    + cbn [Words.wordPrefix]. rewrite Hc, <- IH. reflexivity.
  - destruct (trimEnd t) as [|d t'].
    + destruct (is_space c); [reflexivity|]. cbn [Words.wordPrefix]. rewrite Hc. reflexivity.
    + cbn [Words.wordPrefix]. rewrite Hc. reflexivity.
Qed.

Lemma no_match_trimEnd (s : string) :
  forall prev,
    Words.no_match words prev s = true ->
    Words.no_match words prev (trimEnd s) = true.
Proof.
  induction s as [|c t IH]; intros prev H; [reflexivity|].
  destruct (trimEnd_cons c t) as [->| ->]; [reflexivity|].
  cbn [Words.no_match].
  rewrite (match_at_words words words_only prev prev _ (String c t) eq_refl).
  - destruct (match_at words prev (String c t)) as [[|k]|] eqn:Hm.
    + apply IH. exact (no_match_tail _ _ _ _ H).
    + destruct (no_match_head _ _ _ _ k H Hm).
    + apply IH. exact (no_match_tail _ _ _ _ H).
  - cbn [Words.wordPrefix]. rewrite wordPrefix_trimEnd. reflexivity.
Qed.

Lemma no_match_trim (s : string) :
  Words.no_match words None s = true ->
  Words.no_match words None (trim s) = true.
Proof.
  intros H. unfold trim. apply no_match_trimEnd.
  apply (no_match_trimStart s None); [reflexivity|exact H].
Qed.

Lemma no_match_collapse_spaces (s : string) :
  Words.no_match words None s = true ->
  Words.no_match words None (collapse_spaces s) = true.
Proof.
  intros H. unfold collapse_spaces.
  apply (no_match_collapse_go s None None false); [reflexivity|discriminate|exact H].
Qed.

End WordsSurviveSpacing.

(* ------------------------------------------------------------------ *)
(** *** The two normalizations *)

(** What remains true of a string after the three steps that follow the
    uppercasing. *)
Lemma cleaned_shape (alts : list string) (s : string) :
  Words.every Words.not_lower s = true ->
  let y := trim (collapse_spaces (remove_words alts s)) in
  toUpperCase y = y /\ collapse_spaces y = y /\ trim y = y.
Proof.
  intros Hs y. subst y. split; [|split].
  - apply toUpperCase_fixed, every_trim, every_collapse_go; [reflexivity|].
    apply every_replace_go. exact Hs.
  - apply collapse_go_fixed. apply (single_spaced_trim _ false).
    apply single_spaced_collapse_go.
  - apply trim_idempotent.
Qed.

Lemma no_match_nil (s : string) :
  forall prev, Words.no_match [] prev s = true.
Proof.
  induction s as [|c t IH]; intros prev; [reflexivity|].
  cbn [Words.no_match]. unfold match_at. cbn [match_alternatives].
  destruct (boundary prev (String c t)); apply IH.
Qed.

Lemma councilQualifiers_removed (s : string) :
  Words.no_match MapController.councilQualifiers None
    (MapController.cleanCouncilName s) = true.
Proof.
  unfold MapController.cleanCouncilName.
  apply no_match_trim; [reflexivity|].
  apply no_match_collapse_spaces; [reflexivity|].
  apply (no_match_remove_words MapController.councilQualifiers
           MapController.councilQualifiers []).
  - reflexivity.
  - reflexivity.
  - reflexivity.
  - intros w Hw. left. exact Hw.
  - apply no_match_nil.
Qed.

Lemma normalizeCouncil_idempotent (name : string) :
  MapController.normalizeCouncil (MapController.normalizeCouncil name)
  = MapController.normalizeCouncil name.
Proof.
  unfold MapController.normalizeCouncil.
  destruct (cleaned_shape MapController.councilQualifiers (toUpperCase name)
              (toUpperCase_not_lower name)) as [Hupper [Hcollapse Htrim]].
  fold (MapController.cleanCouncilName (toUpperCase name)) in Hupper, Hcollapse, Htrim.
  rewrite Hupper.
  unfold MapController.cleanCouncilName at 1.
  unfold remove_words.
  rewrite (no_match_replace_go _ _ _ (councilQualifiers_removed (toUpperCase name))).
  rewrite Hcollapse. exact Htrim.
Qed.


Section NoWordNoMatch.

Variable words : list string.
Hypothesis words_only : forallb Words.word_only words = true.

(** A subject without match of the [words] has none of them at the head
    of a word. *)
Lemma no_match_excludes_word (w : string) (prev : option ascii) (s : string) :
  In w words ->
  Words.no_match words prev s = true ->
  word_before prev = false ->
  Words.wordPrefix s <> w.
Proof.
  intros Hin Hno Hprev Hw.
  pose proof (proj1 (forallb_forall _ _) words_only w Hin) as Honly.
  assert (Hacc : Words.accepts w prev s = true).
  { rewrite (accepts_word_only w Honly), Hw. apply String.eqb_refl. }
  destruct (accepts_word_edged w prev s (word_only_edged w Honly) Hacc)
    as [s' [_ [_ Hat]]].
  destruct s as [|c t]; [discriminate|].
  destruct (match_at words prev (String c t)) as [n|] eqn:Hm.
  - destruct (match_at_Some words (word_only_list_edged _ words_only) _ _ _ Hm)
      as [_ [_ [_ [k ->]]]].
    exact (no_match_head _ _ _ _ k Hno Hm).
  - unfold match_at, boundary in Hm. rewrite Hprev, Hat in Hm. cbn [xorb] in Hm.
    exact (match_alternatives_In words w prev _ Hin Hacc Hm).
Qed.

End NoWordNoMatch.

(** Without the single words there is no match of the whole pattern: each
    alternative begins with one of them, or holds the word "COUNCIL". *)
Lemma no_match_gisQualifiers (s : string) :
  forall prev,
    Words.no_match GisWords.singleWords prev s = true ->
    Words.no_match MapController.gisQualifiers prev s = true.
Proof.
  assert (Honly : forallb Words.word_only GisWords.singleWords = true) by reflexivity.
  induction s as [|c t IH]; intros prev H; [reflexivity|].
  cbn [Words.no_match].
  destruct (match_at MapController.gisQualifiers prev (String c t)) as [[|k]|] eqn:Hm;
    try (apply IH; exact (no_match_tail _ _ _ _ H)).
  exfalso.
  destruct (match_at_Some MapController.gisQualifiers eq_refl _ _ _ Hm)
    as [Hprev _].
  unfold match_at in Hm. destruct (boundary prev (String c t)); [|discriminate].
  destruct (match_alternatives_Some _ _ _ _ Hm) as [lit [Hin [_ Hacc]]].
  assert (Hedge : Words.word_edged lit = true)
    by exact (proj1 (forallb_forall _ _)
                (eq_refl : forallb Words.word_edged MapController.gisQualifiers = true)
                lit Hin).
  destruct (accepts_word_edged lit prev _ Hedge Hacc) as [s' [Hs [Hafter _]]].
  pose proof (no_match_excludes_word GisWords.singleWords Honly) as Hex.
  cbn [MapController.gisQualifiers In] in Hin.
  destruct Hin as [<-|[<-|[<-|[<-|[<-|[<-|[<-|[<-|[<-|[]]]]]]]]]].
  - apply (Hex "CITY" prev _ ltac:(cbn; tauto) H Hprev).
    rewrite (accepts_word_only "CITY" eq_refl) in Hacc.
    symmetry. apply String.eqb_eq. exact Hacc.
  - apply (Hex "SHIRE" prev _ ltac:(cbn; tauto) H Hprev).
    rewrite (accepts_word_only "SHIRE" eq_refl) in Hacc.
    symmetry. apply String.eqb_eq. exact Hacc.
  - apply (Hex "REGIONAL" prev _ ltac:(cbn; tauto) H Hprev).
    rewrite (accepts_word_only "REGIONAL" eq_refl) in Hacc.
    symmetry. apply String.eqb_eq. exact Hacc.
  - apply (Hex "MUNICIPAL" prev _ ltac:(cbn; tauto) H Hprev).
    rewrite (accepts_word_only "MUNICIPAL" eq_refl) in Hacc.
    symmetry. apply String.eqb_eq. exact Hacc.
  - apply (Hex "COUNCIL" prev _ ltac:(cbn; tauto) H Hprev).
    rewrite (accepts_word_only "COUNCIL" eq_refl) in Hacc.
    symmetry. apply String.eqb_eq. exact Hacc.
  - rewrite Hs in H. cbn [append] in H.
    do 4 apply no_match_tail in H.
    apply (Hex "COUNCIL" _ _ ltac:(cbn; tauto) H eq_refl).
    vm_compute. reflexivity.
  - apply (Hex "MUNICIPALITY" prev _ ltac:(cbn; tauto) H Hprev).
    rewrite Hs. vm_compute. reflexivity.
  - apply (Hex "CITY" prev _ ltac:(cbn; tauto) H Hprev).
    rewrite Hs. vm_compute. reflexivity.
  - apply (Hex "SHIRE" prev _ ltac:(cbn; tauto) H Hprev).
    rewrite Hs. vm_compute. reflexivity.
Qed.

Section WordListUnion.

Variables some others all : list string.
Hypothesis some_only : forallb Words.word_only some = true.
Hypothesis others_only : forallb Words.word_only others = true.
Hypothesis all_covered : forall w, In w all -> In w some \/ In w others.

(** A subject without match of two lists of words has no match of a list
    drawn from both. *)
Lemma no_match_union (s : string) :
  forall prev,
    Words.no_match some prev s = true ->
    Words.no_match others prev s = true ->
    Words.no_match all prev s = true.
Proof.
  induction s as [|c t IH]; intros prev Hsome Hothers; [reflexivity|].
  cbn [Words.no_match].
  destruct (match_at all prev (String c t)) as [[|k]|] eqn:Hm;
    try (apply IH; [exact (no_match_tail _ _ _ _ Hsome)
                   |exact (no_match_tail _ _ _ _ Hothers)]).
  exfalso. unfold match_at in Hm.
  destruct (boundary prev (String c t)) eqn:Hb; [|discriminate].
  destruct (match_alternatives_Some _ _ _ _ Hm) as [w [Hin [_ Hacc]]].
  assert (Hone : forall words,
             forallb Words.word_only words = true -> In w words ->
             Words.no_match words prev (String c t) = true -> False).
  { intros words Honly Hw Hno.
    destruct (match_at words prev (String c t)) as [n|] eqn:Hwords.
    - destruct (match_at_Some words (word_only_list_edged _ Honly) _ _ _ Hwords)
        as [_ [_ [_ [j ->]]]].
      exact (no_match_head _ _ _ _ j Hno Hwords).
    - unfold match_at in Hwords. rewrite Hb in Hwords.
      exact (match_alternatives_In words w prev _ Hw Hacc Hwords). }
  destruct (all_covered w Hin) as [Hw|Hw].
  - exact (Hone some some_only Hw Hsome).
  - exact (Hone others others_only Hw Hothers).
Qed.

End WordListUnion.

(** The one-word qualifiers are gone from every normalized GIS name. *)
Lemma councilQualifiers_removed_from_gis (s : string) :
  Words.no_match MapController.councilQualifiers None
    (MapController.cleanGisName s) = true.
Proof.
  unfold MapController.cleanGisName.
  apply no_match_trim; [reflexivity|].
  apply no_match_collapse_spaces; [reflexivity|].
  apply (no_match_remove_words MapController.gisQualifiers
           MapController.councilQualifiers []).
  - reflexivity.
  - reflexivity.
  - reflexivity.
  - intros w Hw. left. cbn in Hw. cbn. tauto.
  - apply no_match_nil.
Qed.

(** A word that is absent from the candidate is absent from its normalized
    form. *)
Lemma municipality_stays_absent (gisName : string) :
  Words.hasWord "MUNICIPALITY" (toUpperCase gisName) = false ->
  Words.hasWord "MUNICIPALITY" (MapController.normalizeGis gisName) = false.
Proof.
  unfold Words.hasWord. intros Hword. apply negb_false_iff in Hword.
  apply negb_false_iff.
  unfold MapController.normalizeGis, MapController.cleanGisName.
  apply no_match_trim; [reflexivity|].
  apply no_match_collapse_spaces; [reflexivity|].
  apply (no_match_remove_words MapController.gisQualifiers
           ["MUNICIPALITY"] ["MUNICIPALITY"]).
  - reflexivity.
  - reflexivity.
  - reflexivity.
  - intros w Hw. right. exact Hw.
  - apply no_match_trim; [reflexivity|exact Hword].
Qed.

Lemma normalizeGis_idempotent (gisName : string) :
  Words.hasWord "MUNICIPALITY" (MapController.normalizeGis gisName) = false ->
  MapController.normalizeGis (MapController.normalizeGis gisName)
  = MapController.normalizeGis gisName.
Proof.
  unfold Words.hasWord. intros Hword. apply negb_false_iff in Hword.
  unfold MapController.normalizeGis in *.
  assert (Hshape : Words.every Words.not_lower (trim (toUpperCase gisName)) = true)
    by (apply every_trim, toUpperCase_not_lower).
  destruct (cleaned_shape MapController.gisQualifiers _ Hshape)
    as [Hupper [Hcollapse Htrim]].
  fold (MapController.cleanGisName (trim (toUpperCase gisName)))
    in Hupper, Hcollapse, Htrim.
  rewrite Hupper, Htrim.
  unfold MapController.cleanGisName at 1. unfold remove_words.
  rewrite no_match_replace_go.
  - rewrite Hcollapse. exact Htrim.
  - apply no_match_gisQualifiers.
    apply (no_match_union MapController.councilQualifiers ["MUNICIPALITY"]
             GisWords.singleWords).
    + reflexivity.
    + reflexivity.
    + intros w Hw. cbn in Hw. cbn. tauto.
    + apply councilQualifiers_removed_from_gis.
    + exact Hword.
Qed.

(** Where the one-word qualifiers and the phrase "MUNICIPALITY OF" have no
    match, the whole pattern has none: the other phrases begin with a
    one-word qualifier or hold the word "COUNCIL". *)
Lemma no_match_phrase_gisQualifiers (s : string) :
  forall prev,
    Words.no_match MapController.councilQualifiers prev s = true ->
    Words.no_match ["MUNICIPALITY OF"] prev s = true ->
    Words.no_match MapController.gisQualifiers prev s = true.
Proof.
  assert (Honly : forallb Words.word_only MapController.councilQualifiers = true)
    by reflexivity.
  induction s as [|c t IH]; intros prev H Hphrase; [reflexivity|].
  cbn [Words.no_match].
  destruct (match_at MapController.gisQualifiers prev (String c t)) as [[|k]|] eqn:Hm;
    try (apply IH; [exact (no_match_tail _ _ _ _ H)
                   |exact (no_match_tail _ _ _ _ Hphrase)]).
  exfalso.
  destruct (match_at_Some MapController.gisQualifiers eq_refl _ _ _ Hm)
    as [Hprev _].
  unfold match_at in Hm.
  destruct (boundary prev (String c t)) eqn:Hboundary; [|discriminate].
  destruct (match_alternatives_Some _ _ _ _ Hm) as [lit [Hin [_ Hacc]]].
  assert (Hedge : Words.word_edged lit = true)
    by exact (proj1 (forallb_forall _ _)
                (eq_refl : forallb Words.word_edged MapController.gisQualifiers = true)
                lit Hin).
  destruct (accepts_word_edged lit prev _ Hedge Hacc) as [s' [Hs [Hafter _]]].
  pose proof (no_match_excludes_word MapController.councilQualifiers Honly) as Hex.
  cbn [MapController.gisQualifiers In] in Hin.
  destruct Hin as [<-|[<-|[<-|[<-|[<-|[<-|[<-|[<-|[<-|[]]]]]]]]]].
  - apply (Hex "CITY" prev _ ltac:(cbn; tauto) H Hprev).
    rewrite (accepts_word_only "CITY" eq_refl) in Hacc.
    symmetry. apply String.eqb_eq. exact Hacc.
  - apply (Hex "SHIRE" prev _ ltac:(cbn; tauto) H Hprev).
    rewrite (accepts_word_only "SHIRE" eq_refl) in Hacc.
    symmetry. apply String.eqb_eq. exact Hacc.
  - apply (Hex "REGIONAL" prev _ ltac:(cbn; tauto) H Hprev).
    rewrite (accepts_word_only "REGIONAL" eq_refl) in Hacc.
    symmetry. apply String.eqb_eq. exact Hacc.
  - apply (Hex "MUNICIPAL" prev _ ltac:(cbn; tauto) H Hprev).
    rewrite (accepts_word_only "MUNICIPAL" eq_refl) in Hacc.
    symmetry. apply String.eqb_eq. exact Hacc.
  - apply (Hex "COUNCIL" prev _ ltac:(cbn; tauto) H Hprev).
    rewrite (accepts_word_only "COUNCIL" eq_refl) in Hacc.
    symmetry. apply String.eqb_eq. exact Hacc.
  - rewrite Hs in H. cbn [append] in H.
    do 4 apply no_match_tail in H.
    apply (Hex "COUNCIL" _ _ ltac:(cbn; tauto) H eq_refl).
    vm_compute. reflexivity.
  - apply (no_match_head _ _ _ _ 14 Hphrase).
    unfold match_at. rewrite Hboundary. cbn [match_alternatives].
    unfold Words.accepts in Hacc.
    destruct (match_literal "MUNICIPALITY OF" (String c t) prev) as [[p' rest]|];
      [|discriminate].
    rewrite Hacc. reflexivity.
  - apply (Hex "CITY" prev _ ltac:(cbn; tauto) H Hprev).
    rewrite Hs. vm_compute. reflexivity.
  - apply (Hex "SHIRE" prev _ ltac:(cbn; tauto) H Hprev).
    rewrite Hs. vm_compute. reflexivity.
Qed.

(** Where a pattern has no match, none of its alternatives has one. *)
Lemma no_match_alternative (alts : list string) (lit : string) (s : string) :
  forallb Words.word_edged alts = true ->
  In lit alts ->
  forall prev,
    Words.no_match alts prev s = true ->
    Words.no_match [lit] prev s = true.
Proof.
  intros Hedged Hin. induction s as [|c t IH]; intros prev H; [reflexivity|].
  cbn [Words.no_match].
  destruct (match_at [lit] prev (String c t)) as [[|k]|] eqn:Hm;
    try (apply IH; exact (no_match_tail _ _ _ _ H)).
  exfalso. unfold match_at in Hm.
  destruct (boundary prev (String c t)) eqn:Hboundary; [|discriminate].
  destruct (match_alternatives_Some _ _ _ _ Hm) as [lit' [Hin' [_ Hacc]]].
  destruct Hin' as [<-|[]].
  pose proof (match_alternatives_In alts lit prev _ Hin Hacc) as Hsome.
  destruct (match_alternatives alts prev (String c t)) as [n|] eqn:Hn;
    [|contradiction].
  assert (Hat : match_at alts prev (String c t) = Some n)
    by (unfold match_at; rewrite Hboundary; exact Hn).
  destruct (match_at_Some alts Hedged _ _ _ Hat) as [_ [_ [_ [j ->]]]].
  exact (no_match_head _ _ _ _ _ H Hat).
Qed.

(** The scan never lengthens the subject, and shortens it where the
    pattern has a match. *)
Lemma replace_go_length (alts : list string) (s : string) :
  forall prev skip,
    String.length (replace_go alts prev skip s) <= String.length s.
Proof.
  induction s as [|c t IH]; intros prev skip; [apply Nat.le_refl|].
  cbn [replace_go String.length]. destruct skip as [|k].
  - destruct (match_at alts prev (String c t)) as [[|k]|];
      cbn [String.length];
      solve [apply le_n_S, IH | apply Nat.le_le_succ_r, IH].
  - apply Nat.le_le_succ_r, IH.
Qed.

Lemma match_replace_go_shorter (alts : list string) (s : string) :
  forall prev,
    Words.no_match alts prev s = false ->
    String.length (replace_go alts prev 0 s) < String.length s.
Proof.
  induction s as [|c t IH]; intros prev H; [discriminate|].
  cbn [Words.no_match] in H. cbn [replace_go String.length].
  destruct (match_at alts prev (String c t)) as [[|k]|];
    cbn [String.length];
    solve [apply -> Nat.succ_lt_mono; apply IH; exact H
          | apply Nat.lt_succ_r, replace_go_length].
Qed.

Lemma collapse_go_length (s : string) :
  forall in_run, String.length (collapse_go in_run s) <= String.length s.
Proof.
  induction s as [|c t IH]; intros in_run; [apply Nat.le_refl|].
  cbn [collapse_go String.length].
  destruct (is_space c); [destruct in_run|]; cbn [String.length];
    solve [apply le_n_S, IH | apply Nat.le_le_succ_r, IH].
Qed.

Lemma trimStart_length (s : string) :
  String.length (trimStart s) <= String.length s.
Proof.
  induction s as [|c t IH]; [apply Nat.le_refl|].
  cbn [trimStart]. destruct (is_space c); [|apply Nat.le_refl].
  cbn [String.length]. apply Nat.le_le_succ_r, IH.
Qed.

Lemma trimEnd_length (s : string) :
  String.length (trimEnd s) <= String.length s.
Proof.
  induction s as [|c t IH]; [apply Nat.le_refl|].
  cbn [trimEnd]. destruct (trimEnd t) as [|c' t'] eqn:Ht.
  - destruct (is_space c); cbn [String.length]; lia.
  - cbn [String.length] in *. lia.
Qed.

Lemma trim_length (s : string) :
  String.length (trim s) <= String.length s.
Proof.
  unfold trim. etransitivity; [apply trimEnd_length|apply trimStart_length].
Qed.

(** The normalization of a candidate is idempotent exactly where the
    normalized form holds no match of the phrase "MUNICIPALITY OF". *)
Lemma normalizeGis_idempotent_iff (gisName : string) :
  MapController.normalizeGis (MapController.normalizeGis gisName)
  = MapController.normalizeGis gisName
  <-> Words.hasWord "MUNICIPALITY OF" (MapController.normalizeGis gisName) = false.
Proof.
  assert (Hshape : Words.every Words.not_lower (trim (toUpperCase gisName)) = true)
    by (apply every_trim, toUpperCase_not_lower).
  destruct (cleaned_shape MapController.gisQualifiers _ Hshape)
    as [Hupper [Hcollapse Htrim]].
  fold (MapController.cleanGisName (trim (toUpperCase gisName)))
    in Hupper, Hcollapse, Htrim.
  fold (MapController.normalizeGis gisName) in Hupper, Hcollapse, Htrim.
  assert (Hagain : MapController.normalizeGis (MapController.normalizeGis gisName)
                   = trim (collapse_spaces
                             (remove_words MapController.gisQualifiers
                                (MapController.normalizeGis gisName)))).
  { unfold MapController.normalizeGis at 1. rewrite Hupper, Htrim. reflexivity. }
  unfold Words.hasWord. rewrite negb_false_iff. split.
  - intros Hsame.
    apply (no_match_alternative MapController.gisQualifiers);
      [reflexivity|cbn; tauto|].
    destruct (Words.no_match MapController.gisQualifiers None
                (MapController.normalizeGis gisName)) eqn:Hmatch; [reflexivity|].
    exfalso. apply match_replace_go_shorter in Hmatch.
    pose proof (trim_length
                  (collapse_spaces
                     (remove_words MapController.gisQualifiers
                        (MapController.normalizeGis gisName)))) as H1.
    pose proof (collapse_go_length
                  (remove_words MapController.gisQualifiers
                     (MapController.normalizeGis gisName)) false) as H2.
    fold (collapse_spaces (remove_words MapController.gisQualifiers
                             (MapController.normalizeGis gisName))) in H2.
    fold (remove_words MapController.gisQualifiers
            (MapController.normalizeGis gisName)) in Hmatch.
    rewrite <- Hagain, Hsame in H1. lia.
  - intros Hphrase. rewrite Hagain. unfold remove_words.
    rewrite no_match_replace_go.
    + rewrite Hcollapse. exact Htrim.
    + apply no_match_phrase_gisQualifiers; [|exact Hphrase].
      apply councilQualifiers_removed_from_gis.
Qed.

(** C8, as the code has it.  The normalization of a catalog name
    (uppercase, remove the five one-word qualifiers, collapse white space,
    trim) is idempotent.  The normalization of a candidate name, whose
    pattern also has phrases, is idempotent exactly where the normalized
    form holds no match of the phrase MUNICIPALITY OF: so wherever the
    normalized form does not hold the word MUNICIPALITY, which is so
    whenever the candidate does not hold it. *)
Theorem normalization_idempotent (x : string) :
  MapController.normalizeCouncil (MapController.normalizeCouncil x)
  = MapController.normalizeCouncil x /\
  (MapController.normalizeGis (MapController.normalizeGis x)
   = MapController.normalizeGis x
   <-> Words.hasWord "MUNICIPALITY OF" (MapController.normalizeGis x) = false) /\
  (Words.hasWord "MUNICIPALITY" (MapController.normalizeGis x) = false ->
   MapController.normalizeGis (MapController.normalizeGis x)
   = MapController.normalizeGis x) /\
  (Words.hasWord "MUNICIPALITY" (toUpperCase x) = false ->
   Words.hasWord "MUNICIPALITY" (MapController.normalizeGis x) = false).
Proof.
  split; [apply normalizeCouncil_idempotent|].
  split; [apply normalizeGis_idempotent_iff|].
  split; [apply normalizeGis_idempotent|apply municipality_stays_absent].
Qed.

Lemma normalization_idempotent_witness :
  MapController.normalizeGis (MapController.normalizeGis "Hunters Hill Municipality")
  = MapController.normalizeGis "Hunters Hill Municipality" /\
  MapController.normalizeGis "Hunters Hill Municipality" = "HUNTERS HILL MUNICIPALITY" /\
  MapController.normalizeGis
    (MapController.normalizeGis "The Council of the Municipality of Hunters Hill")
  = MapController.normalizeGis "The Council of the Municipality of Hunters Hill" /\
  Words.hasWord "MUNICIPALITY" (MapController.normalizeGis "Lithgow City Council")
  = false /\
  Words.hasWord "MUNICIPALITY OF" (MapController.normalizeGis "Municipality  of X")
  = true.
Proof.
  split; [|split; [|split; [|split]]].
  - apply (proj2 (proj1 (proj2 (normalization_idempotent
                                  "Hunters Hill Municipality")))).
    vm_compute. reflexivity.
  - vm_compute. reflexivity.
  - apply (proj1 (proj2 (proj2 (normalization_idempotent
                           "The Council of the Municipality of Hunters Hill")))).
    vm_compute. reflexivity.
  - apply (proj2 (proj2 (proj2 (normalization_idempotent "Lithgow City Council")))).
    vm_compute. reflexivity.
  - destruct (Words.hasWord "MUNICIPALITY OF"
                (MapController.normalizeGis "Municipality  of X")) eqn:Hphrase;
      [reflexivity|].
    apply (proj2 (proj1 (proj2 (normalization_idempotent "Municipality  of X"))))
      in Hphrase.
    vm_compute in Hphrase. discriminate.
Defined.

(** C8, as stated, fails.  Between "Municipality" and "of" stand two
    spaces: the phrase is not matched, the white space is collapsed, and
    the result "MUNICIPALITY OF X" loses the phrase when it is normalized
    again.  The same happens when a removed word stood in between. *)
Lemma normalization_not_idempotent :
  MapController.normalizeGis "Municipality  of X" = "MUNICIPALITY OF X" /\
  MapController.normalizeGis (MapController.normalizeGis "Municipality  of X") = "X" /\
  MapController.normalizeGis (MapController.normalizeGis "Municipality  of X")
  <> MapController.normalizeGis "Municipality  of X" /\
  MapController.normalizeGis "Municipality City of X" = "MUNICIPALITY OF X".
Proof.
  assert (H1 : MapController.normalizeGis "Municipality  of X" = "MUNICIPALITY OF X")
    by (vm_compute; reflexivity).
  assert (H2 : MapController.normalizeGis "MUNICIPALITY OF X" = "X")
    by (vm_compute; reflexivity).
  rewrite H1, H2.
  split; [reflexivity|]. split; [reflexivity|]. split; [discriminate|].
  vm_compute. reflexivity.
Qed.

(* ------------------------------------------------------------------ *)
(** *** The fuzzy lookup *)

Lemma find_first_match {A : Type} (p : A -> bool) (before after : list A) (x : A) :
  (forall y, In y before -> p y = false) ->
  p x = true ->
  find p (before ++ x :: after) = Some x.
Proof.
  intros Hbefore Hx. induction before as [|y before IH]; cbn [app find].
  - rewrite Hx. reflexivity.
  - rewrite (Hbefore y (or_introl eq_refl)). apply IH.
    intros z Hz. apply Hbefore. right. exact Hz.
Qed.

Lemma includes_empty (s : string) : includes s "" = true.
Proof. destruct s; reflexivity. Qed.

(** C7, as the code has it.  With no entry for "Lithgow City Council" in
    the reverse mapping, the candidate and the council named "LITHGOW CITY"
    both normalize to "LITHGOW", and the resolver returns that council
    provided no council before it in the catalog already passes the fuzzy
    test: the first council that passes is the answer. *)
Theorem lithgow_city_council_resolved
    (this : MapController.t) (before after : list Council.t) (record : Council.t) :
  MapController.councils this = (before ++ record :: after)%list ->
  toUpperCase (Council.name record) = "LITHGOW CITY" ->
  Resolver.reverseHit this "Lithgow City Council" = false ->
  (forall council, In council before ->
     Resolver.fuzzyMatches "Lithgow City Council" council = false) ->
  MapController.normalizeGis "Lithgow City Council" = "LITHGOW" /\
  MapController.normalizeCouncil (Council.name record) = "LITHGOW" /\
  MapController.findCouncilByName this (JString "Lithgow City Council")
  = Normal (Some record).
Proof.
  intros Hcouncils Hid Hmiss Hbefore.
  assert (Hgis : MapController.normalizeGis "Lithgow City Council" = "LITHGOW")
    by (vm_compute; reflexivity).
  assert (Hrecord : MapController.normalizeCouncil (Council.name record) = "LITHGOW").
  { unfold MapController.normalizeCouncil. rewrite Hid. vm_compute. reflexivity. }
  split; [exact Hgis|]. split; [exact Hrecord|].
  rewrite (findCouncilByName_miss this _ Hmiss). f_equal.
  unfold Resolver.fuzzyOnly. cbn [truthy String.eqb Ascii.eqb Bool.eqb negb].
  unfold MapController.fuzzyFind. rewrite Hcouncils.
  apply find_first_match.
  - exact Hbefore.
  - unfold MapController.fuzzyMatch.
    fold (MapController.normalizeCouncil (Council.name record)).
    fold (MapController.normalizeGis "Lithgow City Council").
    rewrite Hid, Hrecord, Hgis. vm_compute. reflexivity.
Qed.

Lemma lithgow_city_council_resolved_witness :
  let councils :=
    Tracker.councils_of
      [("BLAYNEY", RawCouncil.mk (Some "No") (Some "") (Some "council@blayney.nsw.gov.au"));
       ("LITHGOW CITY", RawCouncil.mk (Some "Yes") (Some "") (Some "council@lithgow.com"))] in
  let record :=
    Council.mk "Lithgow City" (Some "Yes") (Some "") (Some "council@lithgow.com")
               "Central West" "2025-01-22" in
  let this := Resolver.started councils (FetchRejects "offline") in
  MapController.normalizeGis "Lithgow City Council" = "LITHGOW" /\
  MapController.normalizeCouncil (Council.name record) = "LITHGOW" /\
  MapController.findCouncilByName this (JString "Lithgow City Council")
  = Normal (Some record).
Proof.
  intros councils record this.
  apply (lithgow_city_council_resolved this
           [Council.mk "Blayney" (Some "No") (Some "") (Some "council@blayney.nsw.gov.au")
                       "Central West" "2025-01-22"]
           [] record).
  - vm_compute. reflexivity.
  - vm_compute. reflexivity.
  - vm_compute. reflexivity.
  - intros council [<-|[]]. vm_compute. reflexivity.
Defined.

(** C7, as stated, fails.  The catalog holds the council "LITHGOW" before
    the council "LITHGOW CITY"; there is no mapping; the resolver answers
    with the first of the two. *)
Lemma lithgow_city_council_shadowed :
  let councils :=
    Tracker.councils_of
      [("LITHGOW", RawCouncil.mk (Some "No") (Some "") (Some "info@lithgow.example"));
       ("LITHGOW CITY", RawCouncil.mk (Some "Yes") (Some "") (Some "council@lithgow.com"))] in
  let lithgow :=
    Council.mk "Lithgow" (Some "No") (Some "") (Some "info@lithgow.example")
               "Other" "2025-01-22" in
  let lithgowCity :=
    Council.mk "Lithgow City" (Some "Yes") (Some "") (Some "council@lithgow.com")
               "Central West" "2025-01-22" in
  let this := Resolver.started councils (FetchRejects "offline") in
  councils = [lithgow; lithgowCity] /\
  toUpperCase (Council.name lithgowCity) = "LITHGOW CITY" /\
  Resolver.reverseHit this "Lithgow City Council" = false /\
  MapController.findCouncilByName this (JString "Lithgow City Council")
  = Normal (Some lithgow) /\
  MapController.findCouncilByName this (JString "Lithgow City Council")
  <> Normal (Some lithgowCity).
Proof.
  intros councils lithgow lithgowCity this.
  assert (Hfound : MapController.findCouncilByName this (JString "Lithgow City Council")
                   = Normal (Some lithgow)) by (vm_compute; reflexivity).
  repeat split; try (vm_compute; reflexivity).
  rewrite Hfound. discriminate.
Qed.

(** When the subject consists of white space and one-word qualifiers, the
    replacement leaves white space only. *)
Lemma only_words_replace_go (s : string) :
  forall prev skip,
    (skip = 0 /\ word_before prev = false) \/ Words.landing skip s = true ->
    Words.only_words MapController.councilQualifiers prev s = true ->
    Words.every is_space (replace_go MapController.gisQualifiers prev skip s) = true.
Proof.
  induction s as [|c t IH]; intros prev skip Hinv H; [reflexivity|].
  cbn [Words.only_words] in H. apply andb_prop in H. destruct H as [Hc Ht].
  cbn [replace_go]. destruct skip as [|k].
  - destruct (is_word c) eqn:Hword.
    + destruct Hinv as [[_ Hprev]|Hland];
        [|cbn [Words.landing word_at] in Hland; rewrite Hword in Hland; discriminate].
      rewrite Hprev in Hc. cbn [orb] in Hc.
      apply existsb_exists in Hc. destruct Hc as [w [Hw Heq]].
      apply String.eqb_eq in Heq.
      assert (Hacc : Words.accepts w prev (String c t) = true).
      { rewrite (accepts_word_only w).
        - rewrite Heq. apply String.eqb_refl.
        - exact (proj1 (forallb_forall _ _)
                   (eq_refl : forallb Words.word_only MapController.councilQualifiers = true) w Hw). }
      assert (Hin : In w MapController.gisQualifiers).
      { cbn in Hw. cbn. tauto. }
      destruct (match_at MapController.gisQualifiers prev (String c t)) as [n|] eqn:Hm.
      * destruct (match_at_Some MapController.gisQualifiers eq_refl _ _ _ Hm) as [_ [_ [Hland [k Hk]]]].
        subst n. apply IH; [|exact Ht]. right. exact Hland.
      * exfalso. unfold match_at, boundary in Hm.
        rewrite Hprev in Hm. cbn [word_at xorb] in Hm. rewrite Hword in Hm.
        exact (match_alternatives_In MapController.gisQualifiers w prev _ Hin Hacc Hm).
    + rewrite (match_at_not_word MapController.gisQualifiers eq_refl) by exact Hword.
      cbn [Words.every]. rewrite Hc. apply IH; [|exact Ht].
      left. split; [reflexivity|exact Hword].
  - apply IH; [|exact Ht]. right.
    destruct Hinv as [[Hk _]|Hland]; [discriminate|exact Hland].
Qed.

Lemma trimStart_spaces (s : string) :
  Words.every is_space s = true -> trimStart s = "".
Proof.
  induction s as [|c t IH]; intros H; [reflexivity|].
  cbn [Words.every] in H. apply andb_prop in H. destruct H as [Hc Ht].
  cbn [trimStart]. rewrite Hc. exact (IH Ht).
Qed.

(** A candidate made of one-word qualifiers and white space normalizes to
    the empty string. *)
Lemma qualifier_words_normalize_to_empty (gisName : string) :
  Words.only_words MapController.councilQualifiers None (trim (toUpperCase gisName)) = true ->
  MapController.normalizeGis gisName = "".
Proof.
  intros H. unfold MapController.normalizeGis, MapController.cleanGisName, trim at 1.
  rewrite trimStart_spaces; [reflexivity|].
  apply every_collapse_go; [reflexivity|].
  apply only_words_replace_go; [|exact H].
  left. split; reflexivity.
Qed.

(** The phrase alternatives "CITY OF" and "SHIRE OF" never match, because
    "CITY" and "SHIRE" come before them in the pattern: the word "OF"
    stays. *)
Lemma city_of_leaves_a_word :
  MapController.normalizeGis "City of" = "OF" /\
  MapController.normalizeGis "Shire of" = "OF" /\
  MapController.normalizeGis "Municipality of" = "" /\
  MapController.normalizeGis "The Council of the" = "".
Proof. repeat split. Qed.

(** C10, as the code has it.  When a non-empty candidate has no entry in
    the reverse mapping and its normalized form is the empty string, as it
    is for a candidate made of one-word qualifiers and white space, the
    resolver returns the first council of a non-empty catalog, whatever its
    name: the empty string is contained in every normalized council name. *)
Theorem empty_normal_form_takes_first_council
    (this : MapController.t) (gisName : string)
    (first : Council.t) (rest : list Council.t) :
  gisName <> "" ->
  MapController.normalizeGis gisName = "" \/
  Words.only_words MapController.councilQualifiers None
    (trim (toUpperCase gisName)) = true ->
  Resolver.reverseHit this gisName = false ->
  MapController.councils this = first :: rest ->
  MapController.findCouncilByName this (JString gisName) = Normal (Some first).
Proof.
  intros Hnonempty Hform Hmiss Hcouncils.
  assert (Hnormal : MapController.normalizeGis gisName = "").
  { destruct Hform as [H|H]; [exact H|].
    apply qualifier_words_normalize_to_empty. exact H. }
  rewrite (findCouncilByName_miss this _ Hmiss). f_equal.
  unfold Resolver.fuzzyOnly. cbn [truthy].
  destruct (String.eqb_spec gisName "") as [E|_]; [contradiction|].
  cbn [negb]. unfold MapController.fuzzyFind. rewrite Hcouncils. cbn [find].
  unfold MapController.fuzzyMatch.
  fold (MapController.normalizeGis gisName). rewrite Hnormal.
  rewrite includes_empty, orb_true_r.
  destruct (String.eqb _ _); reflexivity.
Qed.

Lemma empty_normal_form_takes_first_council_witness :
  let councils :=
    Tracker.councils_of
      [("ALBURY CITY", RawCouncil.mk (Some "No") (Some "") (Some "info@alburycity.nsw.gov.au"));
       ("SYDNEY", RawCouncil.mk (Some "Yes") (Some "") (Some "council@cityofsydney.nsw.gov.au"))] in
  let this := Resolver.started councils (FetchRejects "offline") in
  MapController.findCouncilByName this (JString "City Council")
  = Normal (Some (Council.mk "Albury City" (Some "No") (Some "")
                             (Some "info@alburycity.nsw.gov.au") "South West"
                             "2025-01-22")).
Proof.
  intros councils this.
  apply (empty_normal_form_takes_first_council this "City Council" _
           [Council.mk "Sydney" (Some "Yes") (Some "")
                       (Some "council@cityofsydney.nsw.gov.au") "Metro South"
                       "2025-01-22"]).
  - discriminate.
  - right. vm_compute. reflexivity.
  - vm_compute. reflexivity.
  - vm_compute. reflexivity.
Defined.

(** C10, as stated, fails.  The mapping has the entry "SYDNEY" for the
    candidate "City Council"; the candidate is not empty, normalizes to the
    empty string, and no council is named "CITY COUNCIL"; the resolver
    returns the council "Sydney", the second of the catalog, and not the
    first. *)
Lemma empty_normal_form_with_mapping_entry :
  let councils :=
    Tracker.councils_of
      [("ALBURY CITY", RawCouncil.mk (Some "No") (Some "") (Some "info@alburycity.nsw.gov.au"));
       ("SYDNEY", RawCouncil.mk (Some "Yes") (Some "") (Some "council@cityofsydney.nsw.gov.au"))] in
  let albury :=
    Council.mk "Albury City" (Some "No") (Some "") (Some "info@alburycity.nsw.gov.au")
               "South West" "2025-01-22" in
  let sydney :=
    Council.mk "Sydney" (Some "Yes") (Some "") (Some "council@cityofsydney.nsw.gov.au")
               "Metro South" "2025-01-22" in
  let this :=
    Resolver.started councils
      (FetchResponds true "200" (JsonObject [("SYDNEY", "City Council")])) in
  councils = [albury; sydney] /\
  MapController.normalizeGis "City Council" = "" /\
  existsb (fun council => String.eqb (toUpperCase (Council.name council))
                                     (toUpperCase "City Council")) councils = false /\
  MapController.findCouncilByName this (JString "City Council") = Normal (Some sydney) /\
  MapController.findCouncilByName this (JString "City Council") <> Normal (Some albury).
Proof.
  intros councils albury sydney this.
  assert (Hfound : MapController.findCouncilByName this (JString "City Council")
                   = Normal (Some sydney)) by (vm_compute; reflexivity).
  repeat split; try (vm_compute; reflexivity).
  rewrite Hfound. discriminate.
Qed.

(* ================================================================== *)
(** * Further properties of the code *)
(* ================================================================== *)

(* ================================================================== *)
(** ** Further properties of the utilities *)
(* ================================================================== *)

(* ------------------------------------------------------------------ *)
(** *** Slugs *)

Lemma lower_char_not_upper (c : ascii) : is_upper (lower_char c) = false.
Proof. by_cases_on_char c. Qed.

Lemma slug_kept_char (c : ascii) :
  UtilsText.slug_kept c = true -> is_upper c = false ->
  UtilsText.slug_separator c = false -> UtilsText.slug_char c = true.
Proof. by_cases_on_char c. Qed.

Lemma slug_char_kept (c : ascii) :
  UtilsText.slug_char c = true -> UtilsText.slug_kept c = true.
Proof. by_cases_on_char c. Qed.

Lemma slug_char_not_upper (c : ascii) :
  UtilsText.slug_char c = true -> is_upper c = false.
Proof. by_cases_on_char c. Qed.

Lemma slug_char_separator (c : ascii) :
  UtilsText.slug_char c = true ->
  UtilsText.slug_separator c = UtilsText.is_hyphen c.
Proof. by_cases_on_char c. Qed.

Lemma hyphen_is_separator (c : ascii) :
  UtilsText.is_hyphen c = true -> UtilsText.slug_separator c = true.
Proof. by_cases_on_char c. Qed.

Lemma every_impl (p q : ascii -> bool) (s : string) :
  (forall c, p c = true -> q c = true) ->
  Words.every p s = true -> Words.every q s = true.
Proof.
  intros Hpq. induction s as [|c t IH]; [reflexivity|].
  cbn [Words.every]. intros H. apply andb_prop in H. destruct H as [Hc Ht].
  rewrite (Hpq _ Hc), (IH Ht). reflexivity.
Qed.

Lemma every_and (p q : ascii -> bool) (s : string) :
  Words.every p s = true -> Words.every q s = true ->
  Words.every (fun c => p c && q c) s = true.
Proof.
  induction s as [|c t IH]; [reflexivity|].
  cbn [Words.every]. intros Hp Hq.
  apply andb_prop in Hp. apply andb_prop in Hq.
  destruct Hp as [Hpc Hpt], Hq as [Hqc Hqt].
  rewrite Hpc, Hqc, (IH Hpt Hqt). reflexivity.
Qed.

Lemma toLowerCase_not_upper (s : string) :
  Words.every Slug.not_upper (toLowerCase s) = true.
Proof.
  induction s as [|c t IH]; [reflexivity|].
  cbn [toLowerCase map_chars Words.every]. unfold Slug.not_upper at 1.
  rewrite lower_char_not_upper. exact IH.
Qed.

Lemma toLowerCase_fixed (s : string) :
  Words.every Slug.not_upper s = true -> toLowerCase s = s.
Proof.
  induction s as [|c t IH]; intros H; [reflexivity|].
  cbn [Words.every] in H. apply andb_prop in H. destruct H as [Hc Ht].
  unfold toLowerCase in *. cbn [map_chars]. rewrite (IH Ht).
  unfold lower_char, Slug.not_upper in *.
  destruct (is_upper c); [discriminate|reflexivity].
Qed.

Section CharacterClasses.

Variable class : ascii -> bool.

Lemma every_keep_chars (s : string) :
  Words.every class (UtilsText.keep_chars class s) = true.
Proof.
  induction s as [|c t IH]; [reflexivity|].
  cbn [UtilsText.keep_chars]. destruct (class c) eqn:Hc; [|exact IH].
  cbn [Words.every]. rewrite Hc. exact IH.
Qed.

Lemma every_keep_chars_other (p : ascii -> bool) (s : string) :
  Words.every p s = true -> Words.every p (UtilsText.keep_chars class s) = true.
Proof.
  induction s as [|c t IH]; [reflexivity|].
  cbn [Words.every UtilsText.keep_chars]. intros H.
  apply andb_prop in H. destruct H as [Hc Ht].
  destruct (class c); [|exact (IH Ht)].
  cbn [Words.every]. rewrite Hc. exact (IH Ht).
Qed.

Lemma keep_chars_fixed (s : string) :
  Words.every class s = true -> UtilsText.keep_chars class s = s.
Proof.
  induction s as [|c t IH]; [reflexivity|].
  cbn [Words.every UtilsText.keep_chars]. intros H.
  apply andb_prop in H. destruct H as [Hc Ht]. rewrite Hc, (IH Ht). reflexivity.
Qed.

Lemma every_dropStart (p : ascii -> bool) (s : string) :
  Words.every p s = true -> Words.every p (UtilsText.dropStart class s) = true.
Proof.
  induction s as [|c t IH]; [reflexivity|].
  cbn [UtilsText.dropStart]. intros H. destruct (class c); [|exact H].
  cbn [Words.every] in H. apply andb_prop in H. apply IH, H.
Qed.

Lemma dropEnd_cons (c : ascii) (t : string) :
  UtilsText.dropEnd class (String c t) = "" \/
  UtilsText.dropEnd class (String c t) = String c (UtilsText.dropEnd class t).
Proof.
  cbn [UtilsText.dropEnd]. destruct (UtilsText.dropEnd class t).
  - destruct (class c); [left|right]; reflexivity.
  - right. reflexivity.
Qed.

Lemma every_dropEnd (p : ascii -> bool) (s : string) :
  Words.every p s = true -> Words.every p (UtilsText.dropEnd class s) = true.
Proof.
  induction s as [|c t IH]; [reflexivity|].
  intros H. cbn [Words.every] in H. apply andb_prop in H. destruct H as [Hc Ht].
  destruct (dropEnd_cons c t) as [->| ->]; [reflexivity|].
  cbn [Words.every]. rewrite Hc. exact (IH Ht).
Qed.

(** What is left by [dropStart] does not begin with a character of the
    class, and [dropEnd] keeps that. *)
Lemma dropStart_head (s : string) (c : ascii) (t : string) :
  UtilsText.dropStart class s = String c t -> class c = false.
Proof.
  induction s as [|d u IH]; [discriminate|].
  cbn [UtilsText.dropStart]. destruct (class d) eqn:Hd; [exact IH|].
  intros H. injection H as <- _. exact Hd.
Qed.

Lemma dropEnd_head (s : string) (c : ascii) (t : string) :
  UtilsText.dropEnd class s = String c t ->
  exists u, s = String c u.
Proof.
  destruct s as [|d u]; [discriminate|].
  destruct (dropEnd_cons d u) as [->| ->]; [discriminate|].
  intros H. injection H as <- _. exists u. reflexivity.
Qed.

Lemma dropEnd_last (s : string) (c : ascii) :
  UtilsText.last_char (UtilsText.dropEnd class s) = Some c -> class c = false.
Proof.
  induction s as [|d t IH]; [discriminate|].
  cbn [UtilsText.dropEnd]. destruct (UtilsText.dropEnd class t) as [|e u] eqn:Ht.
  - destruct (class d) eqn:Hd; [discriminate|].
    cbn. intros H. injection H as <-. exact Hd.
  - cbn [UtilsText.last_char]. exact IH.
Qed.

Lemma dropStart_fixed (s : string) :
  (forall c t, s = String c t -> class c = false) ->
  UtilsText.dropStart class s = s.
Proof.
  destruct s as [|c t]; [reflexivity|]. intros H.
  cbn [UtilsText.dropStart]. rewrite (H c t eq_refl). reflexivity.
Qed.

Lemma dropEnd_fixed (s : string) :
  (forall c, UtilsText.last_char s = Some c -> class c = false) ->
  UtilsText.dropEnd class s = s.
Proof.
  induction s as [|c t IH]; [reflexivity|]. intros H.
  cbn [UtilsText.dropEnd]. destruct t as [|d u].
  - cbn. rewrite (H c eq_refl). reflexivity.
  - rewrite IH; [reflexivity|]. intros e He. apply H. exact He.
Qed.

End CharacterClasses.

Lemma every_replace_runs (s : string) :
  forall b,
    Words.every (fun c => UtilsText.slug_kept c && Slug.not_upper c) s = true ->
    Words.every UtilsText.slug_char
      (UtilsText.replace_runs UtilsText.slug_separator "-" b s) = true.
Proof.
  induction s as [|c t IH]; intros b H; [reflexivity|].
  cbn [Words.every] in H. apply andb_prop in H. destruct H as [Hc Ht].
  apply andb_prop in Hc. destruct Hc as [Hkept Hupper].
  cbn [UtilsText.replace_runs].
  destruct (UtilsText.slug_separator c) eqn:Hsep.
  - destruct b; [exact (IH _ Ht)|]. cbn [Words.every]. exact (IH _ Ht).
  - cbn [Words.every]. rewrite (IH _ Ht), slug_kept_char; try assumption; [reflexivity|].
    unfold Slug.not_upper in Hupper. destruct (is_upper c); [discriminate|reflexivity].
Qed.

Lemma hyphen_separated_replace_runs (s : string) :
  forall b,
    Slug.hyphen_separated b
      (UtilsText.replace_runs UtilsText.slug_separator "-" b s) = true.
Proof.
  induction s as [|c t IH]; intros b; [reflexivity|].
  cbn [UtilsText.replace_runs].
  destruct (UtilsText.slug_separator c) eqn:Hsep.
  - destruct b; [apply IH|]. cbn. apply IH.
  - cbn [Slug.hyphen_separated].
    destruct (UtilsText.is_hyphen c) eqn:Hh; [|apply IH].
    rewrite (hyphen_is_separator _ Hh) in Hsep. discriminate.
Qed.

Lemma replace_runs_fixed (s : string) :
  forall b,
    Words.every UtilsText.slug_char s = true ->
    Slug.hyphen_separated b s = true ->
    UtilsText.replace_runs UtilsText.slug_separator "-" b s = s.
Proof.
  induction s as [|c t IH]; intros b Hall Hsep; [reflexivity|].
  cbn [Words.every] in Hall. apply andb_prop in Hall. destruct Hall as [Hc Ht].
  cbn [Slug.hyphen_separated] in Hsep. cbn [UtilsText.replace_runs].
  rewrite (slug_char_separator _ Hc).
  destruct (UtilsText.is_hyphen c) eqn:Hh.
  - apply andb_prop in Hsep. destruct Hsep as [Hb Hsep].
    destruct b; [discriminate|]. rewrite (IH _ Ht Hsep).
    unfold UtilsText.is_hyphen in Hh. apply Ascii.eqb_eq in Hh. subst c. reflexivity.
  - rewrite (IH _ Ht Hsep). reflexivity.
Qed.

Lemma hyphen_separated_weaken (s : string) (b : bool) :
  Slug.hyphen_separated b s = true -> Slug.hyphen_separated false s = true.
Proof.
  destruct s as [|c t]; [reflexivity|]. cbn [Slug.hyphen_separated].
  destruct (UtilsText.is_hyphen c); [|exact (fun H => H)].
  intros H. apply andb_prop in H. destruct H as [_ H]. exact H.
Qed.

Lemma hyphen_separated_dropStart (class : ascii -> bool) (s : string) :
  forall b, Slug.hyphen_separated b s = true ->
            Slug.hyphen_separated false (UtilsText.dropStart class s) = true.
Proof.
  induction s as [|c t IH]; intros b H; [reflexivity|].
  cbn [UtilsText.dropStart]. destruct (class c).
  - cbn [Slug.hyphen_separated] in H.
    destruct (UtilsText.is_hyphen c).
    + apply andb_prop in H. destruct H as [_ H]. exact (IH _ H).
    + exact (IH _ H).
  - exact (hyphen_separated_weaken _ _ H).
Qed.

Lemma hyphen_separated_dropEnd (class : ascii -> bool) (s : string) :
  forall b, Slug.hyphen_separated b s = true ->
            Slug.hyphen_separated b (UtilsText.dropEnd class s) = true.
Proof.
  induction s as [|c t IH]; intros b H; [reflexivity|].
  destruct (dropEnd_cons class c t) as [->| ->]; [reflexivity|].
  cbn [Slug.hyphen_separated] in *.
  destruct (UtilsText.is_hyphen c).
  - apply andb_prop in H. destruct H as [Hb H]. rewrite Hb, (IH _ H). reflexivity.
  - exact (IH _ H).
Qed.

Lemma startsWith_hyphen (s : string) :
  startsWith s "-" =
  match s with String d _ => UtilsText.is_hyphen d | EmptyString => false end.
Proof.
  destruct s as [|d u]; [reflexivity|]. cbn [startsWith].
  rewrite Ascii.eqb_sym. fold (UtilsText.is_hyphen d).
  destruct u; apply andb_true_r.
Qed.

Lemma hyphen_separated_no_double (s : string) :
  forall b, Slug.hyphen_separated b s = true -> includes s "--" = false.
Proof.
  induction s as [|c t IH]; intros b H; [reflexivity|].
  cbn [Slug.hyphen_separated] in H.
  change (includes (String c t) "--")
    with ((Ascii.eqb "-"%char c && startsWith t "-") || includes t "--").
  rewrite Ascii.eqb_sym. fold (UtilsText.is_hyphen c).
  destruct (UtilsText.is_hyphen c) eqn:Hc.
  - apply andb_prop in H. destruct H as [_ H]. rewrite (IH _ H), orb_false_r.
    rewrite startsWith_hyphen. destruct t as [|d u]; [reflexivity|].
    cbn [Slug.hyphen_separated] in H.
    destruct (UtilsText.is_hyphen d); [discriminate|reflexivity].
  - rewrite (IH _ H). reflexivity.
Qed.

(** The string before the two trimming steps of [slugify]. *)
Lemma slug_body_shape (str : string) :
  let body :=
    UtilsText.replace_runs UtilsText.slug_separator "-" false
      (UtilsText.keep_chars UtilsText.slug_kept (toLowerCase str)) in
  Words.every UtilsText.slug_char body = true /\
  Slug.hyphen_separated false body = true.
Proof.
  split.
  - apply every_replace_runs, every_and.
    + apply every_keep_chars.
    + apply every_keep_chars_other, toLowerCase_not_upper.
  - apply hyphen_separated_replace_runs.
Qed.

(** The result of [slugify]: its characters, its two ends and its
    hyphens. *)
Lemma slugify_ends (str : string) :
  let slug := UtilsText.slugify str in
  Words.every UtilsText.slug_char slug = true /\
  startsWith slug "-" = false /\
  UtilsText.last_char slug <> Some "-"%char /\
  Slug.hyphen_separated false slug = true.
Proof.
  unfold UtilsText.slugify.
  destruct (negb (truthy_string str));
    [split; [reflexivity|split; [reflexivity|split; [discriminate|reflexivity]]]|].
  destruct (slug_body_shape str) as [Hall Hsep].
  set (body := UtilsText.replace_runs _ _ _ _) in *.
  cbv zeta. split; [|split; [|split]].
  - apply every_dropEnd, every_dropStart, Hall.
  - destruct (UtilsText.dropEnd _ _) as [|c t] eqn:Hend; [reflexivity|].
    destruct (dropEnd_head _ _ _ _ Hend) as [u Hu].
    pose proof (dropStart_head _ _ _ _ Hu) as Hc.
    rewrite startsWith_hyphen. exact Hc.
  - intros Hlast. pose proof (dropEnd_last _ _ _ Hlast) as H. discriminate.
  - apply hyphen_separated_dropEnd, (hyphen_separated_dropStart _ _ false), Hsep.
Qed.

(** [slugify] returns lowercase letters, digits and single hyphens, with
    no hyphen at either end. *)
Theorem slugify_shape (str : string) :
  let slug := UtilsText.slugify str in
  Words.every UtilsText.slug_char slug = true /\
  startsWith slug "-" = false /\
  UtilsText.last_char slug <> Some "-"%char /\
  includes slug "--" = false.
Proof.
  destruct (slugify_ends str) as [Hall [Hstart [Hlast Hsep]]].
  cbv zeta. split; [exact Hall|split; [exact Hstart|split; [exact Hlast|]]].
  apply (hyphen_separated_no_double _ false), Hsep.
Qed.

(** A slug is its own slug. *)
Theorem slugify_idempotent (str : string) :
  UtilsText.slugify (UtilsText.slugify str) = UtilsText.slugify str.
Proof.
  destruct (slugify_ends str) as [Hall [Hstart [Hlast Hsep]]].
  set (slug := UtilsText.slugify str) in *.
  unfold UtilsText.slugify at 1.
  destruct (negb (truthy_string slug)) eqn:Hempty.
  - unfold truthy_string in Hempty. apply negb_true_iff, negb_false_iff in Hempty.
    apply String.eqb_eq in Hempty. symmetry. exact Hempty.
  - rewrite toLowerCase_fixed
      by (apply (every_impl UtilsText.slug_char); [|exact Hall];
          intros c Hc; unfold Slug.not_upper; rewrite (slug_char_not_upper _ Hc);
          reflexivity).
    rewrite keep_chars_fixed
      by (apply (every_impl UtilsText.slug_char); [exact slug_char_kept|exact Hall]).
    rewrite (replace_runs_fixed _ _ Hall Hsep).
    rewrite dropStart_fixed.
    + apply dropEnd_fixed. intros c Hc.
      destruct (UtilsText.is_hyphen c) eqn:Hh; [|reflexivity].
      apply Ascii.eqb_eq in Hh. subst c. contradiction.
    + intros c t Hs. rewrite Hs, startsWith_hyphen in Hstart. exact Hstart.
Qed.

(* ------------------------------------------------------------------ *)
(** *** Truncation *)

Lemma length_substring_0 (s : string) :
  forall n, String.length (substring 0 n s) = Nat.min n (String.length s).
Proof.
  induction s as [|c t IH]; intros [|n]; try reflexivity.
  cbn [substring String.length Nat.min]. rewrite IH. reflexivity.
Qed.

Lemma length_append (s t : string) :
  String.length (s ++ t) = String.length s + String.length t.
Proof. induction s as [|c s IH]; [reflexivity|]. cbn. rewrite IH. reflexivity. Qed.

(** [truncateText] returns a text that fits unchanged.  A longer text is
    cut to exactly [maxLength] characters, suffix included, when the suffix
    fits; when [maxLength] is smaller than the suffix, the result is the
    bare suffix, which is longer than [maxLength]. *)
Theorem truncateText_length (text suffix : string) (maxLength : Z) :
  text <> "" ->
  let result := UtilsText.truncateText text maxLength suffix in
  ((Z.of_nat (String.length text) <= maxLength)%Z -> result = text) /\
  ((maxLength < Z.of_nat (String.length text))%Z ->
   (Z.of_nat (String.length suffix) <= maxLength)%Z ->
   Z.of_nat (String.length result) = maxLength /\
   exists kept, result = kept ++ suffix /\ startsWith text kept = true) /\
  ((maxLength < Z.of_nat (String.length text))%Z ->
   (maxLength < Z.of_nat (String.length suffix))%Z ->
   result = suffix).
Proof.
  intros Hnonempty result. subst result. unfold UtilsText.truncateText.
  assert (Htruthy : negb (truthy_string text) = false).
  { unfold truthy_string. destruct (String.eqb_spec text ""); [contradiction|reflexivity]. }
  rewrite Htruthy. repeat split.
  - intros Hfits. apply Z.leb_le in Hfits. rewrite Hfits. reflexivity.
  - destruct (Z.leb_spec (Z.of_nat (String.length text)) maxLength); [lia|].
    unfold UtilsText.substring_to.
    rewrite length_append, length_substring_0. lia.
  - destruct (Z.leb_spec (Z.of_nat (String.length text)) maxLength); [lia|].
    eexists. split; [reflexivity|].
    unfold UtilsText.substring_to. generalize (Z.to_nat (maxLength - Z.of_nat (String.length suffix))).
    clear. induction text as [|c t IH]; intros [|n]; try reflexivity.
    cbn [substring startsWith]. rewrite Ascii.eqb_refl. apply IH.
  - intros Hlong Hshort.
    destruct (Z.leb_spec (Z.of_nat (String.length text)) maxLength); [lia|].
    unfold UtilsText.substring_to.
    replace (Z.to_nat (maxLength - Z.of_nat (String.length suffix))) with 0 by lia.
    destruct text; reflexivity.
Qed.

Lemma truncateText_length_witness :
  UtilsText.truncateText "Lithgow City Council" 10 "..." = "Lithgow..." /\
  UtilsText.truncateText "Lithgow City Council" 2 "..." = "...".
Proof.
  destruct (truncateText_length "Lithgow City Council" "..." 10 ltac:(discriminate))
    as [_ [Hcut _]].
  destruct (truncateText_length "Lithgow City Council" "..." 2 ltac:(discriminate))
    as [_ [_ Hbare]].
  split.
  - vm_compute. reflexivity.
  - apply Hbare; vm_compute; reflexivity.
Defined.

(* ------------------------------------------------------------------ *)
(** *** Title case and the catalog *)

Lemma upper_lower_char (c : ascii) : upper_char (lower_char c) = upper_char c.
Proof. by_cases_on_char c. Qed.

Lemma upper_upper_char (c : ascii) : upper_char (upper_char c) = upper_char c.
Proof. by_cases_on_char c. Qed.

Lemma toUpperCase_capitalize_words (s : string) :
  forall prev,
    toUpperCase (Utils.capitalize_words prev (toLowerCase s)) = toUpperCase s.
Proof.
  induction s as [|c t IH]; intros prev; [reflexivity|].
  unfold toUpperCase, toLowerCase in *.
  cbn [map_chars Utils.capitalize_words]. rewrite IH. f_equal.
  destruct (is_word (lower_char c) && negb (word_before prev)).
  - rewrite upper_upper_char. apply upper_lower_char.
  - apply upper_lower_char.
Qed.

(** Over the ASCII range of the case mappings, [titleCase] only changes
    letter case: uppercasing a title-cased name gives the uppercased
    name. *)
Lemma toUpperCase_titleCase (str : string) :
  toUpperCase (Utils.titleCase str) = toUpperCase str.
Proof.
  unfold Utils.titleCase. destruct (negb (truthy_string str)) eqn:H.
  - unfold truthy_string in H. apply negb_true_iff, negb_false_iff in H.
    apply String.eqb_eq in H. subst str. reflexivity.
  - apply toUpperCase_capitalize_words.
Qed.

(** For a council document whose keys are strings of ASCII characters, the
    constructor of the tracker makes one council per entry, in order; the
    uppercased display name of a council is the uppercased key of its
    entry, and its region is the region of its display name. *)
Theorem councils_of_keeps_keys (councilData : list (string * RawCouncil.t)) :
  (forall entry, In entry councilData -> Charset.ascii (fst entry) = true) ->
  List.length (Tracker.councils_of councilData) = List.length councilData /\
  map (fun council => toUpperCase (Council.name council))
      (Tracker.councils_of councilData)
  = map (fun entry => toUpperCase (fst entry)) councilData /\
  forall council,
    In council (Tracker.councils_of councilData) ->
    Council.region council = Tracker.getCouncilRegion (Council.name council).
Proof.
  intros _. unfold Tracker.councils_of. split; [apply length_map|]. split.
  - rewrite map_map. apply map_ext. intros [name data]. apply toUpperCase_titleCase.
  - intros council Hin. apply in_map_iff in Hin.
    destruct Hin as [[name data] [<- _]]. cbn [Council.region Council.name].
    unfold Tracker.getCouncilRegion. rewrite toUpperCase_titleCase. reflexivity.
Qed.

Lemma councils_of_keeps_keys_witness :
  let councilData :=
    [ ("LITHGOW CITY", RawCouncil.mk (Some "No") (Some "") (Some "council@lithgow.com"));
      ("Ku-ring-gai", RawCouncil.mk (Some "Yes") None None) ] in
  map Council.name (Tracker.councils_of councilData)
  = ["Lithgow City"; "Ku-Ring-Gai"] /\
  map (fun council => toUpperCase (Council.name council))
      (Tracker.councils_of councilData)
  = map (fun entry => toUpperCase (fst entry)) councilData.
Proof.
  intros councilData. split; [vm_compute; reflexivity|].
  apply (councils_of_keeps_keys councilData).
  intros entry [<-|[<-|[]]]; reflexivity.
Defined.

(* ------------------------------------------------------------------ *)
(** *** Validation *)

(** [validateCouncilData] accepts an entry exactly when the three fields
    are present, the status is empty or one of "Yes", "No", "Unknown", and
    the email is empty or well formed: an empty status passes. *)
Theorem validateCouncilData_accepts (data : RawCouncil.t) :
  Validation.isValid (Utils.validateCouncilData data) = true <->
  exists sgars notes email,
    data = RawCouncil.mk (Some sgars) (Some notes) (Some email) /\
    (sgars = "" \/ In sgars ["Yes"; "No"; "Unknown"]) /\
    (email = "" \/ Utils.isValidEmail email = true).
Proof.
  destruct data as [[sgars|] [notes|] [email|]];
    try (split; [intros H; vm_compute in H; discriminate
                |intros [s [n [e [H _]]]]; discriminate]).
  unfold Utils.validateCouncilData. cbn [Validation.isValid RawCouncil.sgars RawCouncil.email].
  change (flat_map _ Utils.requiredFields) with (@nil string). cbn [app].
  unfold truthy_string.
  split.
  - intros H. exists sgars, notes, email. split; [reflexivity|].
    destruct (String.eqb_spec sgars "") as [Es|Hs];
      destruct (String.eqb_spec email "") as [Ee|He]; cbn [negb andb] in H.
    + split; left; assumption.
    + split; [left; assumption|]. right.
      destruct (Utils.isValidEmail email); [reflexivity|discriminate].
    + split; [|left; assumption]. right.
      destruct (array_includes Utils.validStatuses sgars) eqn:Hv; [|discriminate].
      apply existsb_exists in Hv. destruct Hv as [v [Hin Heq]].
      apply String.eqb_eq in Heq. subst v. exact Hin.
    + destruct (array_includes Utils.validStatuses sgars) eqn:Hv; [|discriminate].
      split.
      * right. apply existsb_exists in Hv. destruct Hv as [v [Hin Heq]].
        apply String.eqb_eq in Heq. subst v. exact Hin.
      * right. destruct (Utils.isValidEmail email); [reflexivity|discriminate].
  - intros [s [n [e [Heq [Hs He]]]]]. injection Heq as -> -> ->.
    assert (Hstatus : negb (String.eqb s "") &&
                      negb (array_includes Utils.validStatuses s) = false).
    { destruct Hs as [->|Hin]; [reflexivity|].
      replace (array_includes Utils.validStatuses s) with true; [apply andb_false_r|].
      symmetry. apply existsb_exists. exists s. split; [exact Hin|apply String.eqb_refl]. }
    assert (Hemail : negb (String.eqb e "") && negb (Utils.isValidEmail e) = false).
    { destruct He as [->|Hv]; [reflexivity|]. rewrite Hv. apply andb_false_r. }
    rewrite Hstatus, Hemail. reflexivity.
Qed.

(** The cuts of a string at a separator. *)
Lemma splits_at_In (sep : ascii) (s left right : string) :
  In (left, right) (splits_at sep s) <-> s = left ++ String sep right.
Proof.
  revert left. induction s as [|c t IH]; intros left.
  - split; [intros []|]. destruct left; discriminate.
  - cbn [splits_at]. rewrite in_app_iff, in_map_iff. split.
    + intros [H|[[l r] [Heq Hin]]].
      * destruct (Ascii.eqb_spec c sep) as [->|_]; [|destruct H].
        destruct H as [H|[]]. injection H as <- <-. reflexivity.
      * injection Heq as <- <-. apply IH in Hin. rewrite Hin. reflexivity.
    + destruct left as [|d left]; cbn [append]; intros H; injection H as -> ->.
      * left. rewrite Ascii.eqb_refl. left. reflexivity.
      * right. exists (left, right). split; [reflexivity|]. apply IH. reflexivity.
Qed.

(** [isValidEmail] accepts exactly the addresses [local@host.tld] whose
    three parts are not empty and hold neither white space nor "@". *)
Theorem isValidEmail_parts (email : string) :
  Utils.isValidEmail email = true <->
  exists local host tld,
    email = local ++ "@" ++ host ++ "." ++ tld /\
    plain_part local = true /\ plain_part host = true /\ plain_part tld = true.
Proof.
  unfold Utils.isValidEmail. rewrite existsb_exists. split.
  - intros [[local domain] [Hin H]]. apply andb_prop in H. destruct H as [Hlocal H].
    apply existsb_exists in H. destruct H as [[host tld] [Hin2 H]].
    apply andb_prop in H. destruct H as [Hhost Htld].
    apply splits_at_In in Hin. apply splits_at_In in Hin2.
    exists local, host, tld. subst. repeat split; assumption.
  - intros [local [host [tld [Heq [Hlocal [Hhost Htld]]]]]].
    exists (local, host ++ "." ++ tld). split.
    + apply splits_at_In. exact Heq.
    + rewrite Hlocal. cbn [andb]. apply existsb_exists.
      exists (host, tld). split; [apply splits_at_In; reflexivity|].
      rewrite Hhost, Htld. reflexivity.
Qed.

(* ------------------------------------------------------------------ *)
(** *** The two filters of the council list *)

Lemma toLowerCase_append (s t : string) :
  toLowerCase (s ++ t) = toLowerCase s ++ toLowerCase t.
Proof.
  unfold toLowerCase. induction s as [|c s IH]; [reflexivity|].
  cbn [append map_chars]. rewrite IH. reflexivity.
Qed.

Lemma startsWith_append (s p x : string) :
  startsWith s p = true -> startsWith (s ++ x) p = true.
Proof.
  revert p. induction s as [|c s IH]; intros [|a p] H;
    try reflexivity; try discriminate.
  - destruct x; reflexivity.
  - cbn [append startsWith] in *. apply andb_prop in H. destruct H as [Ha Hp].
    rewrite Ha, (IH _ Hp). reflexivity.
Qed.

Lemma includes_append_l (s x sub : string) :
  includes s sub = true -> includes (s ++ x) sub = true.
Proof.
  induction s as [|c s IH]; intros H.
  - cbn in H. rewrite orb_false_r in H.
    destruct sub; [apply includes_empty|discriminate].
  - cbn [includes] in H. apply orb_prop in H.
    change (includes (String c s ++ x) sub)
      with (startsWith (String c s ++ x) sub || includes (s ++ x) sub).
    destruct H as [H|H].
    + rewrite (startsWith_append _ _ _ H). reflexivity.
    + rewrite (IH H). apply orb_true_r.
Qed.

Lemma includes_append_r (s x sub : string) :
  includes s sub = true -> includes (x ++ s) sub = true.
Proof.
  intros H. induction x as [|c x IH]; [exact H|].
  change (includes (String c x ++ s) sub)
    with (startsWith (String c (x ++ s)) sub || includes (x ++ s) sub).
  rewrite IH. apply orb_true_r.
Qed.

(** A filter whose callback does not throw. *)
Lemma array_filter_pure {A : Type} (p : A -> bool) (arr : list A) :
  array_filter (fun x => Normal (p x)) arr = Normal (filter p arr).
Proof.
  induction arr as [|x rest IH]; [reflexivity|].
  cbn [array_filter bind filter]. rewrite IH. cbn [bind].
  destruct (p x); reflexivity.
Qed.

Lemma array_filter_kept {A : Type} (p : A -> completion bool) (arr kept : list A) :
  array_filter p arr = Normal kept ->
  forall x, In x kept -> In x arr /\ p x = Normal true.
Proof.
  revert kept. induction arr as [|y rest IH]; intros kept H x Hx.
  - injection H as <-. destruct Hx.
  - cbn [array_filter bind] in H.
    destruct (p y) as [b|e] eqn:Hy; [|discriminate].
    destruct (array_filter p rest) as [kept'|e] eqn:Hrest; [|discriminate].
    cbn [bind] in H. injection H as <-.
    destruct b.
    + destruct Hx as [<-|Hx]; [split; [left; reflexivity|exact Hy]|].
      destruct (IH _ eq_refl x Hx) as [Hin Hp]. split; [right; exact Hin|exact Hp].
    + destruct (IH _ eq_refl x Hx) as [Hin Hp]. split; [right; exact Hin|exact Hp].
Qed.

(** What the filter of the tracker keeps, the filter of utils.js keeps as
    well: a search string found in one field is found in the joined
    fields. *)
Lemma passesFilters_matchesCriteria (filters : Filters.t) (council : Council.t) :
  Tracker.passesFilters filters council = Normal true ->
  UtilsFilter.matchesCriteria filters council = true.
Proof.
  unfold Tracker.passesFilters, UtilsFilter.matchesCriteria.
  destruct (Nat.ltb 0 (List.length (Filters.status filters)) && _); [discriminate|].
  destruct (Nat.ltb 0 (List.length (Filters.region filters)) && _); [discriminate|].
  destruct (truthy_string (Filters.search filters)); [|reflexivity].
  cbn [andb]. intros H.
  assert (Hfound : includes (UtilsFilter.searchableText council)
                     (toLowerCase (Filters.search filters)) = true).
  { unfold UtilsFilter.searchableText. cbn [join].
    rewrite !toLowerCase_append.
    destruct (includes (toLowerCase (Council.name council)) _) eqn:Hname.
    - apply includes_append_l. exact Hname.
    - destruct (includes (toLowerCase (Council.region council)) _) eqn:Hregion.
      + do 2 apply includes_append_r. apply includes_append_l. exact Hregion.
      + destruct (Council.notes council) as [notes|]; [|discriminate].
        injection H as H. cbn [UtilsFilter.join_item].
        do 4 apply includes_append_r. apply includes_append_l. exact H. }
  rewrite Hfound. reflexivity.
Qed.

(** Every council the filter of the tracker keeps is kept by
    [filterCouncils] of utils.js under the same filters. *)
Theorem tracker_filter_within_utils_filter
    (councils kept : list Council.t) (filters : Filters.t) :
  Tracker.getFilteredCouncils councils filters = Normal kept ->
  forall council,
    In council kept -> In council (UtilsFilter.filterCouncils councils filters).
Proof.
  intros H council Hin. unfold Tracker.getFilteredCouncils in H.
  destruct (array_filter_kept _ _ _ H council Hin) as [Hc Hp].
  unfold UtilsFilter.filterCouncils. apply filter_In. split; [exact Hc|].
  apply passesFilters_matchesCriteria. exact Hp.
Qed.

Lemma tracker_filter_within_utils_filter_witness :
  let council :=
    Council.mk "Sydney" (Some "Yes") (Some "Awaiting reply")
               (Some "council@cityofsydney.nsw.gov.au") "Metro South" "2025-01-22" in
  In council (UtilsFilter.filterCouncils [council] (Filters.mk ["Yes"] [] "metro" None)).
Proof.
  intros council.
  apply (tracker_filter_within_utils_filter [council] [council]
           (Filters.mk ["Yes"] [] "metro" None)).
  - vm_compute. reflexivity.
  - left. reflexivity.
Defined.

(** Without a search string the callback of the tracker does not read the
    notes and is the conjunction of the two other constraints. *)
Lemma passesFilters_without_search (filters : Filters.t) (council : Council.t) :
  Filters.search filters = "" ->
  Tracker.passesFilters filters council
  = Normal (FilterSpec.statusConstraint filters council &&
            FilterSpec.regionConstraint filters council).
Proof.
  intros Hsearch. unfold Tracker.passesFilters.
  rewrite status_guard, region_guard, Hsearch.
  destruct (FilterSpec.statusConstraint filters council);
    destruct (FilterSpec.regionConstraint filters council); reflexivity.
Qed.

(* ------------------------------------------------------------------ *)
(** *** Pages of the council grid *)

Lemma pages_for_covers (n perPage : nat) :
  0 < perPage -> n <= SGARTracker.pages_for n perPage * perPage.
Proof.
  intros Hc. unfold SGARTracker.pages_for.
  pose proof (Nat.mul_succ_div_gt (n + perPage - 1) perPage) as H.
  specialize (H ltac:(lia)). nia.
Qed.

Lemma pages_for_tight (n perPage : nat) :
  0 < perPage -> 0 < n -> (SGARTracker.pages_for n perPage - 1) * perPage < n.
Proof.
  intros Hc Hn. unfold SGARTracker.pages_for.
  pose proof (Nat.Div0.mul_div_le (n + perPage - 1) perPage) as H.
  nia.
Qed.

Lemma pages_for_positive (n perPage : nat) :
  0 < perPage -> 0 < n -> 1 <= SGARTracker.pages_for n perPage.
Proof.
  intros Hc Hn. pose proof (pages_for_covers n perPage Hc).
  destruct (SGARTracker.pages_for n perPage); lia.
Qed.

Lemma pages_for_0 (perPage : nat) :
  0 < perPage -> SGARTracker.pages_for 0 perPage = 0.
Proof.
  intros Hc. unfold SGARTracker.pages_for. apply Nat.div_small. lia.
Qed.

Lemma pageOf_S {A : Type} (l : list A) (perPage before : nat) :
  SGARTracker.pageOf l perPage (S before)
  = firstn perPage (skipn (before * perPage) l).
Proof.
  unfold SGARTracker.pageOf, SGARTracker.slice. f_equal. lia.
Qed.

Lemma pageOf_next {A : Type} (l : list A) (perPage page : nat) :
  SGARTracker.pageOf l perPage (S (S page))
  = SGARTracker.pageOf (skipn perPage l) perPage (S page).
Proof.
  rewrite !pageOf_S. f_equal. rewrite skipn_skipn. f_equal. lia.
Qed.

Lemma pages_concat {A : Type} (perPage pages : nat) (l : list A) :
  List.length l <= pages * perPage ->
  flat_map (SGARTracker.pageOf l perPage) (seq 1 pages) = l.
Proof.
  revert l. induction pages as [|pages IH]; intros l Hl.
  - destruct l; [reflexivity|cbn in Hl; lia].
  - cbn [seq flat_map]. rewrite pageOf_S. cbn [Nat.mul skipn].
    rewrite <- (firstn_skipn perPage l) at 3. f_equal.
    rewrite <- seq_shift, flat_map_concat_map, map_map.
    rewrite (map_ext_in _ (SGARTracker.pageOf (skipn perPage l) perPage)).
    + rewrite <- flat_map_concat_map. apply IH.
      rewrite length_skipn. cbn in Hl. lia.
    + intros page Hpage. apply in_seq in Hpage.
      destruct page as [|page]; [lia|apply pageOf_next].
Qed.

Lemma pageOf_length {A : Type} (l : list A) (perPage page : nat) :
  List.length (SGARTracker.pageOf l perPage page) <= perPage.
Proof.
  destruct page as [|before]; [cbn; lia|].
  rewrite pageOf_S, length_firstn. lia.
Qed.

Lemma pageOf_nonempty {A : Type} (l : list A) (perPage page : nat) :
  0 < perPage -> 1 <= page -> page <= SGARTracker.pages_for (List.length l) perPage ->
  SGARTracker.pageOf l perPage page <> [].
Proof.
  intros Hc Hlow Hhigh. destruct page as [|before]; [lia|].
  rewrite pageOf_S. intros Hnil. apply (f_equal (@List.length A)) in Hnil.
  rewrite length_firstn, length_skipn in Hnil. cbn [List.length] in Hnil.
  assert (Hn : 0 < List.length l).
  { destruct l; [|cbn; lia]. cbn [List.length] in Hhigh.
    rewrite pages_for_0 in Hhigh by exact Hc. lia. }
  pose proof (pages_for_tight _ _ Hc Hn) as Htight.
  assert (before * perPage
          <= (SGARTracker.pages_for (List.length l) perPage - 1) * perPage)
    by (apply Nat.mul_le_mono_r; lia).
  lia.
Qed.

(** The pages 1 to [Math.ceil(n / cardsPerPage)] cut the filtered councils
    into consecutive pieces: put one after the other they give the list
    again, and each holds between one and [cardsPerPage] councils. *)
Theorem pages_partition {A : Type} (filtered : list A) (perPage : nat) :
  0 < perPage ->
  let totalPages := SGARTracker.pages_for (List.length filtered) perPage in
  flat_map (SGARTracker.pageOf filtered perPage) (seq 1 totalPages) = filtered /\
  forall page, 1 <= page -> page <= totalPages ->
    SGARTracker.pageOf filtered perPage page <> [] /\
    List.length (SGARTracker.pageOf filtered perPage page) <= perPage.
Proof.
  intros Hc totalPages. split.
  - apply pages_concat. apply pages_for_covers. exact Hc.
  - intros page Hlow Hhigh. split.
    + apply pageOf_nonempty; assumption.
    + apply pageOf_length.
Qed.

Lemma pages_partition_witness :
  let filtered := [1; 2; 3; 4; 5; 6; 7] in
  flat_map (SGARTracker.pageOf filtered 3) (seq 1 (SGARTracker.pages_for 7 3))
  = filtered /\
  forall page, 1 <= page -> page <= SGARTracker.pages_for 7 3 ->
    SGARTracker.pageOf filtered 3 page <> [] /\
    List.length (SGARTracker.pageOf filtered 3 page) <= 3.
Proof.
  apply (pages_partition [1; 2; 3; 4; 5; 6; 7] 3). lia.
Defined.

(** *** The page shown after any sequence of events *)

Lemma getCardsPerPage_positive (innerWidth : nat) :
  0 < SGARTracker.getCardsPerPage innerWidth.
Proof.
  unfold SGARTracker.getCardsPerPage.
  destruct (Nat.leb 1024 innerWidth); [lia|].
  destruct (Nat.leb 768 innerWidth); lia.
Qed.

Lemma rendered_paged (this : SGARTracker.t) :
  TrackerSpec.paged this -> TrackerSpec.paged (SGARTracker.rendered this).
Proof.
  intros [Hpage Hsize]. unfold SGARTracker.rendered, SGARTracker.renderCouncils.
  destruct (SGARTracker.getFilteredCouncils this) as [filtered|e];
    cbn [bind]; [|split; assumption].
  split; cbn [SGARTracker.pagination Pagination.currentPage
              Pagination.cardsPerPage]; [|exact Hsize].
  match goal with |- context [if ?b then _ else _] => destruct b end;
    [lia|exact Hpage].
Qed.

Lemma with_page_paged (this : SGARTracker.t) (page : nat) :
  TrackerSpec.paged this -> 1 <= page ->
  TrackerSpec.paged (SGARTracker.with_page this page).
Proof. intros [_ Hsize] Hpage. split; [exact Hpage|exact Hsize]. Qed.

Lemma with_filters_paged (this : SGARTracker.t) (filters : Filters.t) :
  TrackerSpec.paged this -> TrackerSpec.paged (SGARTracker.with_filters this filters).
Proof. intros H. exact H. Qed.

Lemma handle_paged (this : SGARTracker.t) (e : SGARTracker.event) :
  TrackerSpec.paged this -> TrackerSpec.paged (SGARTracker.handle this e).
Proof.
  intros H. destruct e; cbn [SGARTracker.handle].
  - unfold SGARTracker.prevPage.
    destruct (Nat.ltb 1 _) eqn:Hgt; [|exact H].
    apply Nat.ltb_lt in Hgt.
    apply rendered_paged, with_page_paged; [exact H|lia].
  - unfold SGARTracker.nextPage.
    destruct (Nat.ltb _ _); [|exact H].
    apply rendered_paged, with_page_paged; [exact H|lia].
  - unfold SGARTracker.goToPage.
    destruct (Z.leb 1 page && _)%bool eqn:Hrange; [|exact H].
    apply andb_prop in Hrange. destruct Hrange as [Hlow _].
    apply Z.leb_le in Hlow.
    apply rendered_paged, with_page_paged; [exact H|lia].
  - unfold SGARTracker.applyFilter.
    apply rendered_paged, with_page_paged; [|lia].
    apply with_filters_paged. exact H.
  - unfold SGARTracker.clearAllFilters.
    apply rendered_paged, with_page_paged; [|lia].
    apply with_filters_paged. exact H.
  - unfold SGARTracker.searchInput.
    apply rendered_paged, with_filters_paged. exact H.
  - unfold SGARTracker.statusSelected.
    apply rendered_paged, with_filters_paged. exact H.
  - unfold SGARTracker.regionSelected.
    apply rendered_paged, with_filters_paged. exact H.
  - unfold SGARTracker.switchView.
    destruct (String.eqb view "map"); [exact H|].
    apply rendered_paged. exact H.
  - unfold SGARTracker.resized.
    assert (Hp : TrackerSpec.paged
                   (SGARTracker.mk (SGARTracker.councils this)
                      (SGARTracker.currentView this) (SGARTracker.filters this)
                      (Pagination.mk
                         (Pagination.currentPage (SGARTracker.pagination this))
                         (SGARTracker.getCardsPerPage innerWidth)
                         (Pagination.totalPages (SGARTracker.pagination this))))).
    { split; [exact (proj1 H)|apply getCardsPerPage_positive]. }
    destruct (negb _); [apply rendered_paged|]; exact Hp.
Qed.

Lemma run_paged (events : list SGARTracker.event) (this : SGARTracker.t) :
  TrackerSpec.paged this -> TrackerSpec.paged (TrackerSpec.run this events).
Proof.
  unfold TrackerSpec.run. revert this.
  induction events as [|e events IH]; intros this H; [exact H|].
  cbn [fold_left]. apply IH, handle_paged, H.
Qed.

Lemma new_paged (councilData : list (string * RawCouncil.t)) (innerWidth : nat) :
  TrackerSpec.paged (SGARTracker.new councilData innerWidth).
Proof. split; [cbn; lia|apply getCardsPerPage_positive]. Qed.

(** What a rendering writes, as soon as one council passes the filters. *)
Lemma rendered_written (this : SGARTracker.t) (filtered : list Council.t) :
  TrackerSpec.paged this ->
  SGARTracker.getFilteredCouncils this = Normal filtered ->
  filtered <> [] ->
  let shown := SGARTracker.rendered this in
  let cardsPerPage := Pagination.cardsPerPage (SGARTracker.pagination shown) in
  let currentPage := Pagination.currentPage (SGARTracker.pagination shown) in
  exists written,
    SGARTracker.writtenCouncils shown = Normal written /\
    written <> [] /\
    (SGARTracker.currentView this = "grid" ->
     written = SGARTracker.pageOf filtered cardsPerPage currentPage /\
     List.length written <= cardsPerPage /\
     1 <= currentPage <= SGARTracker.pages_for (List.length filtered) cardsPerPage) /\
    (SGARTracker.currentView this <> "grid" -> written = filtered).
Proof.
  intros [Hpage Hsize] Hfiltered Hsome.
  unfold SGARTracker.rendered, SGARTracker.renderCouncils.
  rewrite Hfiltered. cbn [bind].
  unfold SGARTracker.writtenCouncils, SGARTracker.getFilteredCouncils.
  cbn [SGARTracker.councils SGARTracker.filters SGARTracker.pagination
       SGARTracker.currentView Pagination.cardsPerPage Pagination.currentPage].
  unfold SGARTracker.getFilteredCouncils in Hfiltered. rewrite Hfiltered.
  cbn [bind].
  assert (Hn : 0 < List.length filtered)
    by (destruct filtered; [contradiction|cbn; lia]).
  pose proof (pages_for_positive _ _ Hsize Hn) as Hpages.
  set (perPage := Pagination.cardsPerPage (SGARTracker.pagination this)) in *.
  set (current :=
         if Nat.ltb (SGARTracker.pages_for (List.length filtered) perPage)
                    (Pagination.currentPage (SGARTracker.pagination this))
         then 1 else Pagination.currentPage (SGARTracker.pagination this)).
  assert (Hcurrent : 1 <= current <= SGARTracker.pages_for (List.length filtered) perPage).
  { subst current.
    destruct (Nat.ltb_spec (SGARTracker.pages_for (List.length filtered) perPage)
                (Pagination.currentPage (SGARTracker.pagination this))); lia. }
  eexists. split; [reflexivity|].
  destruct (String.eqb_spec (SGARTracker.currentView this) "grid") as [Hgrid|Hother].
  - split; [apply pageOf_nonempty; [exact Hsize|apply Hcurrent|apply Hcurrent]|].
    split; [|intros Hne; contradiction].
    intros _. split; [reflexivity|]. split; [apply pageOf_length|exact Hcurrent].
  - split; [exact Hsome|]. split; [intros Hgrid; contradiction|reflexivity].
Qed.

(** Whatever the user did before, a rendering of the councils writes at
    least one council as soon as one passes the filters: in the view
    "grid" the page of the current page number, which lies between 1 and
    the number of pages and holds at most [cardsPerPage] councils; in any
    other view all the councils that pass. *)
Theorem shown_page_never_empty
    (councilData : list (string * RawCouncil.t)) (innerWidth : nat)
    (events : list SGARTracker.event) (filtered : list Council.t) :
  let this := TrackerSpec.run (SGARTracker.new councilData innerWidth) events in
  let shown := SGARTracker.rendered this in
  let cardsPerPage := Pagination.cardsPerPage (SGARTracker.pagination shown) in
  let currentPage := Pagination.currentPage (SGARTracker.pagination shown) in
  SGARTracker.getFilteredCouncils this = Normal filtered ->
  filtered <> [] ->
  exists written,
    SGARTracker.writtenCouncils shown = Normal written /\
    written <> [] /\
    (SGARTracker.currentView this = "grid" ->
     written = SGARTracker.pageOf filtered cardsPerPage currentPage /\
     List.length written <= cardsPerPage /\
     1 <= currentPage <= SGARTracker.pages_for (List.length filtered) cardsPerPage) /\
    (SGARTracker.currentView this <> "grid" -> written = filtered).
Proof.
  intros this shown cardsPerPage currentPage Hfiltered Hsome.
  apply rendered_written; [apply run_paged, new_paged|exact Hfiltered|exact Hsome].
Qed.

Lemma shown_page_never_empty_witness :
  let names :=
    [ "ALBURY"; "BALLINA"; "BATHURST"; "BEGA VALLEY"; "BELLINGEN"; "BERRIGAN";
      "BLACKTOWN"; "BLAYNEY"; "BOURKE"; "BURWOOD"; "BYRON"; "CABONNE";
      "CAMDEN" ] in
  let councilData :=
    map (fun name => (name, RawCouncil.mk (Some "Yes") (Some "") (Some ""))) names in
  let events := [ SGARTracker.ViewSwitched "grid"; SGARTracker.NextClicked ] in
  let this := TrackerSpec.run (SGARTracker.new councilData 500) events in
  let listed :=
    TrackerSpec.run (SGARTracker.new councilData 500)
      [ SGARTracker.ViewSwitched "list"; SGARTracker.NextClicked ] in
  SGARTracker.currentView this = "grid" /\
  Pagination.currentPage (SGARTracker.pagination this) = 2 /\
  (exists last,
     SGARTracker.writtenCouncils (SGARTracker.rendered this) = Normal [last] /\
     Council.name last = "Camden") /\
  SGARTracker.writtenCouncils (SGARTracker.rendered listed)
  = Normal (Tracker.councils_of councilData).
Proof.
  intros names councilData events this listed.
  split; [reflexivity|]. split; [reflexivity|]. split.
  - destruct (shown_page_never_empty councilData 500 events
                (Tracker.councils_of councilData) eq_refl ltac:(discriminate))
      as [written [Hwritten [_ [Hgrid _]]]].
    destruct (Hgrid eq_refl) as [Hpage _].
    vm_compute in Hpage. rewrite Hpage in Hwritten.
    eexists. split; [exact Hwritten|reflexivity].
  - destruct (shown_page_never_empty councilData 500
                [ SGARTracker.ViewSwitched "list"; SGARTracker.NextClicked ]
                (Tracker.councils_of councilData) eq_refl ltac:(discriminate))
      as [written [Hwritten [_ [_ Hlist]]]].
    rewrite (Hlist ltac:(discriminate)) in Hwritten. exact Hwritten.
Defined.

(** *** Quick filters and the reset *)

Lemma rendered_councils (this : SGARTracker.t) :
  SGARTracker.councils (SGARTracker.rendered this) = SGARTracker.councils this.
Proof.
  unfold SGARTracker.rendered, SGARTracker.renderCouncils.
  destruct (SGARTracker.getFilteredCouncils this); reflexivity.
Qed.

Lemma rendered_filters (this : SGARTracker.t) :
  SGARTracker.filters (SGARTracker.rendered this) = SGARTracker.filters this.
Proof.
  unfold SGARTracker.rendered, SGARTracker.renderCouncils.
  destruct (SGARTracker.getFilteredCouncils this); reflexivity.
Qed.

Lemma rendered_getFilteredCouncils (this : SGARTracker.t) :
  SGARTracker.getFilteredCouncils (SGARTracker.rendered this)
  = SGARTracker.getFilteredCouncils this.
Proof.
  unfold SGARTracker.getFilteredCouncils.
  rewrite rendered_councils, rendered_filters. reflexivity.
Qed.

Lemma rendered_first_page (this : SGARTracker.t) :
  Pagination.currentPage (SGARTracker.pagination this) = 1 ->
  Pagination.currentPage (SGARTracker.pagination (SGARTracker.rendered this)) = 1.
Proof.
  intros Hpage. unfold SGARTracker.rendered, SGARTracker.renderCouncils.
  destruct (SGARTracker.getFilteredCouncils this); cbn [bind]; [|exact Hpage].
  cbn [SGARTracker.pagination Pagination.currentPage]. rewrite Hpage.
  match goal with |- context [if ?b then _ else _] => destruct b end; reflexivity.
Qed.

Lemma array_filter_ext {A : Type} (p q : A -> completion bool) (arr : list A) :
  (forall x, In x arr -> p x = q x) ->
  array_filter p arr = array_filter q arr.
Proof.
  induction arr as [|x rest IH]; intros H; [reflexivity|].
  cbn [array_filter]. rewrite (H x (or_introl eq_refl)), IH; [reflexivity|].
  intros y Hy. apply H. right. exact Hy.
Qed.

(** The filter of the tracker without a search string: no exception, and
    the councils that meet the status and the region constraint. *)
Lemma getFilteredCouncils_without_search
    (councils : list Council.t) (filters : Filters.t) :
  Filters.search filters = "" ->
  Tracker.getFilteredCouncils councils filters
  = Normal (filter (fun council =>
                      FilterSpec.statusConstraint filters council &&
                      FilterSpec.regionConstraint filters council)
                   councils).
Proof.
  intros Hsearch. unfold Tracker.getFilteredCouncils.
  rewrite <- array_filter_pure. apply array_filter_ext.
  intros council _. apply passesFilters_without_search. exact Hsearch.
Qed.

Lemma filter_all {A : Type} (p : A -> bool) (l : list A) :
  (forall x, p x = true) -> filter p l = l.
Proof.
  intros H. induction l as [|x l IH]; [reflexivity|].
  cbn [filter]. rewrite H, IH. reflexivity.
Qed.

(** A quick filter button drops the search string and the region, goes to
    the first page and leaves the councils of its status: all of them for
    "all", for a button without the attribute and for any other value.
    The councils are filtered without an exception, whatever fields they
    lack. *)
Theorem quick_filter_selects_by_status
    (this : SGARTracker.t) (filterType : option string) :
  let this' := SGARTracker.applyFilter this filterType in
  SGARTracker.getFilteredCouncils this'
  = Normal (filter (TrackerSpec.hasStatus (TrackerSpec.quickStatus filterType))
                   (SGARTracker.councils this)) /\
  Pagination.currentPage (SGARTracker.pagination this') = 1.
Proof.
  intros this'. subst this'. unfold SGARTracker.applyFilter. split.
  - rewrite rendered_getFilteredCouncils.
    unfold SGARTracker.getFilteredCouncils.
    cbn [SGARTracker.with_page SGARTracker.with_filters SGARTracker.councils
         SGARTracker.filters].
    rewrite getFilteredCouncils_without_search by reflexivity.
    f_equal. apply filter_ext. intros council.
    unfold FilterSpec.regionConstraint, FilterSpec.statusConstraint,
      TrackerSpec.quickStatus, TrackerSpec.hasStatus.
    cbn [Filters.status Filters.region]. rewrite andb_true_r.
    destruct filterType as [s|]; [|reflexivity].
    destruct (String.eqb s "using-sgars");
      [|destruct (String.eqb s "sgar-free");
        [|destruct (String.eqb s "unknown")]];
      try reflexivity;
      unfold Tracker.includes_status, array_includes;
      destruct (Council.status council); cbn [existsb];
      try rewrite orb_false_r; reflexivity.
  - apply rendered_first_page. reflexivity.
Qed.

(** After [clearAllFilters] every council passes the filters, the first
    page is the current one, its total is that of all councils, and
    [hasActiveFilters] answers no. *)
Theorem clearAllFilters_shows_all (this : SGARTracker.t) :
  let this' := SGARTracker.clearAllFilters this in
  SGARTracker.getFilteredCouncils this' = Normal (SGARTracker.councils this) /\
  SGARTracker.hasActiveFilters this' = false /\
  Pagination.currentPage (SGARTracker.pagination this') = 1 /\
  Pagination.totalPages (SGARTracker.pagination this')
  = SGARTracker.pages_for (List.length (SGARTracker.councils this))
      (Pagination.cardsPerPage (SGARTracker.pagination this)).
Proof.
  intros this'. subst this'. unfold SGARTracker.clearAllFilters.
  assert (Hall : SGARTracker.getFilteredCouncils
                   (SGARTracker.with_page
                      (SGARTracker.with_filters this (Filters.mk [] [] "" None)) 1)
                 = Normal (SGARTracker.councils this)).
  { unfold SGARTracker.getFilteredCouncils.
    cbn [SGARTracker.with_page SGARTracker.with_filters SGARTracker.councils
         SGARTracker.filters].
    rewrite getFilteredCouncils_without_search by reflexivity.
    f_equal. apply filter_all. reflexivity. }
  split; [rewrite rendered_getFilteredCouncils; exact Hall|].
  split.
  { unfold SGARTracker.hasActiveFilters. rewrite rendered_filters. reflexivity. }
  split; [apply rendered_first_page; reflexivity|].
  unfold SGARTracker.rendered, SGARTracker.renderCouncils.
  rewrite Hall. reflexivity.
Qed.

(** *** The row of page buttons *)

Lemma includes_page_In (row : list page_token) (i : nat) :
  SGARTracker.includes_page row i = true <-> In (Page i) row.
Proof.
  unfold SGARTracker.includes_page. rewrite existsb_exists. split.
  - intros [[n|] [Hin Heq]]; [|discriminate].
    apply Nat.eqb_eq in Heq. subst n. exact Hin.
  - intros Hin. exists (Page i). split; [exact Hin|apply Nat.eqb_refl].
Qed.

(** The test of the loop never finds the page: the pages pushed before
    are smaller. *)
Lemma pushAround_fresh (count i : nat) (row : list page_token) :
  (forall n, In (Page n) row -> n < i) ->
  SGARTracker.pushAround row i count = (row ++ map Page (seq i count))%list.
Proof.
  revert i row. induction count as [|count IH]; intros i row Hbelow.
  - cbn. rewrite app_nil_r. reflexivity.
  - cbn [SGARTracker.pushAround seq map].
    destruct (SGARTracker.includes_page row i) eqn:Hin.
    + apply includes_page_In, Hbelow in Hin. lia.
    + rewrite IH.
      * rewrite <- app_assoc. reflexivity.
      * intros n Hn. apply in_app_or in Hn. destruct Hn as [Hn|[Hn|[]]].
        -- apply Hbelow in Hn. lia.
        -- injection Hn as <-. lia.
Qed.

Lemma In_Page_seq (p i count : nat) :
  In (Page p) (map Page (seq i count)) <-> i <= p < i + count.
Proof.
  rewrite in_map_iff. split.
  - intros [n [Heq Hin]]. injection Heq as ->. apply in_seq in Hin. exact Hin.
  - intros H. exists p. split; [reflexivity|apply in_seq; exact H].
Qed.

Lemma gaps_marked_run (count : nat) (last : nat) (gap : bool) (i : nat)
    (rest : list page_token) :
  TrackerSpec.gaps_marked (Some last) gap (map Page (seq i (S count)) ++ rest)
  = (if gap then Nat.ltb (S last) i else Nat.eqb i (S last))
    && TrackerSpec.gaps_marked (Some (i + count)) false rest.
Proof.
  revert last gap i. induction count as [|count IH]; intros last gap i.
  - cbn [seq map app TrackerSpec.gaps_marked]. rewrite Nat.add_0_r. reflexivity.
  - change (seq i (S (S count))) with (i :: seq (S i) (S count)).
    cbn [map app TrackerSpec.gaps_marked]. rewrite IH.
    rewrite Nat.eqb_refl. cbn [andb].
    replace (S i + count) with (i + S count) by lia. reflexivity.
Qed.

(** The closed form of the row for at least two pages. *)
Lemma pageNumbers_row (currentPage totalPages : nat) :
  2 <= totalPages ->
  let low := Nat.max 2 (currentPage - 1) in
  let high := Nat.min (totalPages - 1) (currentPage + 1) in
  SGARTracker.pageNumbers currentPage totalPages
  = ([Page 1]
     ++ (if Nat.ltb 3 currentPage then [Ellipsis] else [])
     ++ map Page (seq low (S high - low))
     ++ (if Nat.ltb currentPage (totalPages - 2) then [Ellipsis] else [])
     ++ [Page totalPages])%list.
Proof.
  intros Htotal low high. unfold SGARTracker.pageNumbers.
  fold low. fold high.
  assert (Hmany : Nat.ltb 1 totalPages = true) by (apply Nat.ltb_lt; lia).
  rewrite Hmany. cbn [andb].
  set (start := if Nat.ltb 3 currentPage then ([Page 1] ++ [Ellipsis])%list
                else [Page 1]).
  assert (Hstart : start = ([Page 1]
                   ++ (if Nat.ltb 3 currentPage then [Ellipsis] else []))%list)
    by (subst start; destruct (Nat.ltb 3 currentPage); reflexivity).
  assert (Hone : forall n, In (Page n) start -> n = 1).
  { intros n Hn. rewrite Hstart in Hn.
    apply in_app_or in Hn. destruct Hn as [[Hn|[]]|Hn].
    - injection Hn as <-. reflexivity.
    - destruct (Nat.ltb 3 currentPage);
        [destruct Hn as [Hn|[]]; discriminate|destruct Hn]. }
  assert (Hbelow : forall n, In (Page n) start -> n < low).
  { intros n Hn. apply Hone in Hn. subst low. lia. }
  rewrite (pushAround_fresh _ _ _ Hbelow).
  set (middle := (start ++ map Page (seq low (S high - low)))%list).
  set (numbers := if Nat.ltb currentPage (totalPages - 2)
                  then (middle ++ [Ellipsis])%list else middle).
  assert (Hnumbers : numbers = (middle ++
            (if Nat.ltb currentPage (totalPages - 2) then [Ellipsis] else []))%list).
  { subst numbers. destruct (Nat.ltb currentPage (totalPages - 2));
      [reflexivity|rewrite app_nil_r; reflexivity]. }
  assert (Hlast : SGARTracker.includes_page numbers totalPages = false).
  { destruct (SGARTracker.includes_page numbers totalPages) eqn:Hin;
      [|reflexivity].
    apply includes_page_In in Hin. rewrite Hnumbers in Hin.
    apply in_app_or in Hin. destruct Hin as [Hin|Hin].
    - subst middle. apply in_app_or in Hin. destruct Hin as [Hin|Hin].
      + apply Hone in Hin. lia.
      + apply In_Page_seq in Hin. subst low high. lia.
    - destruct (Nat.ltb currentPage (totalPages - 2));
        [destruct Hin as [Hin|[]]; discriminate|destruct Hin]. }
  rewrite Hlast. cbn [negb]. rewrite Hnumbers. subst middle.
  rewrite Hstart. rewrite <- !app_assoc. reflexivity.
Qed.

(** For a current page among at least two pages, the row of buttons shows
    the first page, the last page and the pages next to the current one,
    and no other; the numbers grow from left to right; and an ellipsis
    stands exactly where pages are left out.  The row has at most seven
    entries. *)
Theorem pageNumbers_shape (currentPage totalPages : nat) :
  1 <= currentPage -> currentPage <= totalPages -> 2 <= totalPages ->
  let row := SGARTracker.pageNumbers currentPage totalPages in
  (forall p, In (Page p) row <->
             1 <= p <= totalPages /\
             (p = 1 \/ p = totalPages \/
              currentPage - 1 <= p <= currentPage + 1)) /\
  TrackerSpec.gaps_marked None false row = true /\
  List.length row <= 7.
Proof.
  intros Hlow Hhigh Htotal row. subst row.
  rewrite (pageNumbers_row _ _ Htotal).
  set (low := Nat.max 2 (currentPage - 1)).
  set (high := Nat.min (totalPages - 1) (currentPage + 1)).
  split; [|split].
  - intros p. rewrite !in_app_iff, In_Page_seq.
    assert (Hfirst : In (Page p) [Page 1] <-> p = 1).
    { split; [intros [H|[]]; injection H as <-; reflexivity
             |intros ->; left; reflexivity]. }
    assert (Hend : In (Page p) [Page totalPages] <-> p = totalPages).
    { split; [intros [H|[]]; injection H as <-; reflexivity
             |intros ->; left; reflexivity]. }
    assert (Hdots : forall b : bool,
               In (Page p) (if b then [Ellipsis] else []) <-> False).
    { intros [|]; split; try contradiction; intros [H|[]]; discriminate. }
    rewrite Hfirst, Hend, !Hdots. subst low high. lia.
  - cbn [app TrackerSpec.gaps_marked negb andb].
    destruct (S high - low) as [|count] eqn:Hcount.
    + cbn [seq map app].
      destruct (Nat.ltb_spec 3 currentPage) as [Hleft|Hleft];
        destruct (Nat.ltb_spec currentPage (totalPages - 2)) as [Hright|Hright];
        cbn [app TrackerSpec.gaps_marked negb andb];
        subst low high; try lia;
        rewrite ?andb_true_r;
        first [apply Nat.eqb_eq; lia | apply Nat.ltb_lt; lia].
    + destruct (Nat.ltb_spec 3 currentPage) as [Hleft|Hleft];
        destruct (Nat.ltb_spec currentPage (totalPages - 2)) as [Hright|Hright];
        cbn [app TrackerSpec.gaps_marked negb andb];
        rewrite gaps_marked_run;
        cbn [app TrackerSpec.gaps_marked negb andb];
        rewrite ?andb_true_r;
        apply andb_true_intro; split;
        first [apply Nat.eqb_eq; subst low high; lia
              |apply Nat.ltb_lt; subst low high; lia].
  - rewrite !length_app, length_map, length_seq.
    destruct (Nat.ltb 3 currentPage); destruct (Nat.ltb currentPage (totalPages - 2));
      cbn [List.length]; subst low high; lia.
Qed.

Lemma pageNumbers_shape_witness :
  let row := SGARTracker.pageNumbers 4 11 in
  (forall p, In (Page p) row <->
             1 <= p <= 11 /\ (p = 1 \/ p = 11 \/ 4 - 1 <= p <= 4 + 1)) /\
  TrackerSpec.gaps_marked None false row = true /\
  List.length row <= 7.
Proof.
  apply (pageNumbers_shape 4 11); lia.
Defined.

(* ------------------------------------------------------------------ *)
(** *** From the mapping file to the record of the catalog *)

Lemma NoDup_map_injective {A B : Type} (f : A -> B) (l : list A) (x y : A) :
  NoDup (map f l) -> In x l -> In y l -> f x = f y -> x = y.
Proof.
  induction l as [|a l IH]; intros Hnodup Hx Hy Heq; [destruct Hx|].
  cbn [map] in Hnodup. inversion Hnodup as [|b bs Hnotin Hrest]; subst.
  destruct Hx as [->|Hx]; destruct Hy as [->|Hy].
  - reflexivity.
  - exfalso. apply Hnotin. rewrite Heq. apply in_map. exact Hy.
  - exfalso. apply Hnotin. rewrite <- Heq. apply in_map. exact Hx.
  - apply IH; assumption.
Qed.

Lemma mappedMatch_same_form (ourName : string) (council : Council.t) :
  MapController.mappedMatch ourName council = true ->
  collapse_spaces (toUpperCase (Council.name council))
  = collapse_spaces (toUpperCase ourName).
Proof.
  unfold MapController.mappedMatch. intros H. apply orb_prop in H.
  destruct H as [H|H]; apply String.eqb_eq in H; [rewrite H; reflexivity|exact H].
Qed.

(** For a council document whose keys are strings of ASCII characters: a
    name of the boundary file that the mapping file sends to keys of the
    council document is resolved to the record made from such a key, once
    the application has started with that mapping: the title case given to
    the name by the constructor is undone by the comparison in upper
    case. *)
Theorem mapped_catalog_key_resolves
    (entries : list (string * RawCouncil.t)) (mapping : list (string * string))
    (status gisName : string) :
  (forall entry, In entry entries -> Charset.ascii (fst entry) = true) ->
  gisName <> "" -> gisName <> "__proto__" ->
  (exists key, In (key, gisName) mapping) ->
  (forall key, In (key, gisName) mapping ->
               key <> "" /\ In key (map fst entries)) ->
  NoDup (map (fun entry => collapse_spaces (toUpperCase (fst entry))) entries) ->
  exists mapController key data,
    Main.initializeApp (Some entries)
      (FetchResponds true status (JsonObject mapping))
    = Main.Running (Tracker.councils_of entries) mapController
        (Main.validationErrors entries) /\
    In (key, gisName) mapping /\
    In (key, data) entries /\
    MapController.findCouncilByName mapController (JString gisName)
    = Normal (Some (Council.mk (Utils.titleCase key) (RawCouncil.sgars data)
                      (RawCouncil.notes data) (RawCouncil.email data)
                      (Tracker.getCouncilRegion key) "2025-01-22")).
Proof.
  intros _ Hname Hproto [key0 Hkey0] Hkeys Hnodup.
  destruct (reverseMapping_value mapping gisName key0 Hproto Hkey0)
    as [key [Hkey Hget]].
  destruct (Hkeys key Hkey) as [Hkey_some Hkey_in].
  apply in_map_iff in Hkey_in. destruct Hkey_in as [[key' data0] [Hfst Hentry]].
  cbn [fst] in Hfst. subst key'.
  exists (MapController.mk (Tracker.councils_of entries) None (Some mapping)
            (Some MapController.StyleLGA) []).
  assert (Hfound : exists council,
             find (MapController.mappedMatch key) (Tracker.councils_of entries)
             = Some council).
  { destruct (find (MapController.mappedMatch key) (Tracker.councils_of entries))
      as [council|] eqn:Hfind; [exists council; reflexivity|].
    exfalso.
    pose proof (find_none _ _ Hfind
                  (Council.mk (Utils.titleCase key) (RawCouncil.sgars data0)
                     (RawCouncil.notes data0) (RawCouncil.email data0)
                     (Tracker.getCouncilRegion key) "2025-01-22")) as Hnone.
    unfold MapController.mappedMatch in Hnone. cbn [Council.name] in Hnone.
    rewrite toUpperCase_titleCase, String.eqb_refl in Hnone.
    cbn [orb] in Hnone. specialize (Hnone ltac:(
      unfold Tracker.councils_of; apply in_map_iff;
      exists (key, data0); split; [reflexivity|exact Hentry])).
    discriminate. }
  destruct Hfound as [council Hfind].
  destruct (find_some _ _ Hfind) as [Hin Hmatch].
  unfold Tracker.councils_of in Hin. apply in_map_iff in Hin.
  destruct Hin as [[key' data] [Hcouncil Hentry']].
  apply mappedMatch_same_form in Hmatch. rewrite <- Hcouncil in Hmatch.
  cbn [Council.name] in Hmatch. rewrite toUpperCase_titleCase in Hmatch.
  assert (Hsame : (key', data) = (key, data0)).
  { apply (NoDup_map_injective
             (fun entry => collapse_spaces (toUpperCase (fst entry))) entries);
      [exact Hnodup|exact Hentry'|exact Hentry|exact Hmatch]. }
  injection Hsame as -> ->.
  exists key, data0. split; [|split; [exact Hkey|split; [exact Hentry|]]].
  - unfold Main.initializeApp. destruct entries as [|entry entries];
      [destruct Hentry|reflexivity].
  - unfold MapController.findCouncilByName.
    assert (Htruthy : truthy (JString gisName) = true).
    { cbn [truthy]. apply negb_true_iff, String.eqb_neq. exact Hname. }
    rewrite Htruthy. cbn [negb MapController.nameMapping MapController.councils].
    rewrite Hget. cbn [JsObject.value_truthy].
    assert (Hsome : truthy_string key = true).
    { unfold truthy_string. apply negb_true_iff, String.eqb_neq. exact Hkey_some. }
    rewrite Hsome, Hfind, <- Hcouncil. reflexivity.
Qed.

Lemma mapped_catalog_key_resolves_witness :
  let entries :=
    [ ("LITHGOW", RawCouncil.mk (Some "No") (Some "No SGARs") (Some "council@lithgow.nsw.gov.au"));
      ("CITY OF LITHGOW", RawCouncil.mk (Some "Yes") (Some "") (Some "")) ] in
  let mapping := [ ("LITHGOW", "Lithgow City Council") ] in
  exists mapController key data,
    Main.initializeApp (Some entries) (FetchResponds true "200" (JsonObject mapping))
    = Main.Running (Tracker.councils_of entries) mapController
        (Main.validationErrors entries) /\
    In (key, "Lithgow City Council") mapping /\
    In (key, data) entries /\
    MapController.findCouncilByName mapController (JString "Lithgow City Council")
    = Normal (Some (Council.mk (Utils.titleCase key) (RawCouncil.sgars data)
                      (RawCouncil.notes data) (RawCouncil.email data)
                      (Tracker.getCouncilRegion key) "2025-01-22")).
Proof.
  intros entries mapping.
  apply (mapped_catalog_key_resolves entries mapping "200" "Lithgow City Council").
  - intros entry [<-|[<-|[]]]; reflexivity.
  - discriminate.
  - discriminate.
  - exists "LITHGOW". left. reflexivity.
  - intros key [Hkey|[]]. injection Hkey as <-.
    split; [discriminate|left; reflexivity].
  - assert (Hforms :
      map (fun entry => collapse_spaces (toUpperCase (fst entry))) entries
      = ["LITHGOW"; "CITY OF LITHGOW"]) by (vm_compute; reflexivity).
    rewrite Hforms. constructor.
    + intros [H|[]]. discriminate.
    + constructor; [intros []|constructor].
Defined.

(* ------------------------------------------------------------------ *)
(** *** Groups of councils *)

Lemma own_push (groups : Groups.t) (k k' : string) (council : Council.t) :
  Groups.own (Groups.push groups k council) k'
  = if String.eqb k' k
    then option_map (fun members => (members ++ [council])%list) (Groups.own groups k)
    else Groups.own groups k'.
Proof.
  induction groups as [|[key members] groups IH].
  - cbn. destruct (String.eqb k' k); reflexivity.
  - cbn [Groups.push Groups.own].
    destruct (String.eqb_spec k key) as [Hk|Hk].
    + subst key. cbn [Groups.own].
      destruct (String.eqb_spec k' k) as [Hk'|Hk']; reflexivity.
    + cbn [Groups.own]. destruct (String.eqb_spec k' key) as [Hkey|Hkey].
      * subst key. destruct (String.eqb_spec k' k) as [Heq|_]; [|reflexivity].
        congruence.
      * exact IH.
Qed.

Lemma own_new (groups : Groups.t) (k k' : string) (council : Council.t) :
  Groups.own (groups ++ [(k, [council])])%list k'
  = match Groups.own groups k' with
    | Some members => Some members
    | None => if String.eqb k' k then Some [council] else None
    end.
Proof.
  induction groups as [|[key members] groups IH]; [reflexivity|].
  cbn [app Groups.own]. destruct (String.eqb k' key); [reflexivity|exact IH].
Qed.

Lemma extended_cons (before : option (list Council.t)) (council : Council.t)
    (more : list Council.t) :
  GroupSpec.extended
    (match before with
     | Some members => Some (members ++ [council])%list
     | None => Some [council]
     end) more
  = GroupSpec.extended before (council :: more).
Proof.
  destruct before as [members|]; cbn [GroupSpec.extended].
  - rewrite <- app_assoc. reflexivity.
  - reflexivity.
Qed.

Lemma reduce_thrown (key : Council.t -> string) (councils : list Council.t)
    (e : js_error) :
  fold_left (fun acc council => groups <- acc ;; Groups.add (key council) groups council)
            councils (Throw e)
  = Throw e.
Proof. induction councils as [|c councils IH]; [reflexivity|exact IH]. Qed.

Lemma get_plain (groups : Groups.t) (k : string) :
  GroupSpec.plain groups ->
  Groups.get groups k
  = match Groups.own groups k with
    | Some members => Groups.Own members
    | None =>
        if array_includes JsObject.object_prototype_keys k
        then Groups.Inherited else Groups.Absent
    end.
Proof. reflexivity. Qed.

Lemma add_plain (groups : Groups.t) (k : string) (council : Council.t) :
  GroupSpec.plain groups ->
  array_includes JsObject.object_prototype_keys k = false ->
  exists groups',
    Groups.add k groups council = Normal groups' /\
    GroupSpec.plain groups' /\
    forall k',
      Groups.own groups' k'
      = if String.eqb k' k
        then match Groups.own groups k with
             | Some members => Some (members ++ [council])%list
             | None => Some [council]
             end
        else Groups.own groups k'.
Proof.
  intros Hplain Hk. unfold Groups.add, Groups.get.
  destruct (Groups.own groups k) as [members|] eqn:Hown.
  - exists (Groups.push groups k council).
    assert (Hnew : forall k',
               Groups.own (Groups.push groups k council) k'
               = if String.eqb k' k then Some (members ++ [council])%list
                 else Groups.own groups k').
    { intros k'. rewrite own_push, Hown. reflexivity. }
    split; [reflexivity|]. split; [|exact Hnew].
    intros k' members' Hk'. rewrite Hnew in Hk'.
    destruct (String.eqb_spec k' k) as [->|_]; [exact Hk|].
    exact (Hplain _ _ Hk').
  - rewrite Hk. exists (groups ++ [(k, [council])])%list.
    assert (Hnew : forall k',
               Groups.own (groups ++ [(k, [council])])%list k'
               = if String.eqb k' k then Some [council]
                 else Groups.own groups k').
    { intros k'. rewrite own_new.
      destruct (String.eqb_spec k' k) as [->|_].
      - rewrite Hown. reflexivity.
      - destruct (Groups.own groups k'); reflexivity. }
    split; [reflexivity|]. split; [|exact Hnew].
    intros k' members' Hk'. rewrite Hnew in Hk'.
    destruct (String.eqb_spec k' k) as [->|_]; [exact Hk|].
    exact (Hplain _ _ Hk').
Qed.

Lemma add_inherited (groups : Groups.t) (k : string) (council : Council.t) :
  GroupSpec.plain groups ->
  array_includes JsObject.object_prototype_keys k = true ->
  exists e, Groups.add k groups council = Throw e.
Proof.
  intros Hplain Hk. unfold Groups.add, Groups.get.
  destruct (Groups.own groups k) as [members|] eqn:Hown.
  - rewrite (Hplain _ _ Hown) in Hk. discriminate.
  - rewrite Hk. eexists. reflexivity.
Qed.

(** The loop of [reduce] from any plain accumulator. *)
Lemma reduce_from (key : Council.t -> string) (councils : list Council.t) :
  forall groups,
    GroupSpec.plain groups ->
    if UtilsData.inherited_key key councils
    then exists e,
        fold_left (fun acc council => g <- acc ;; Groups.add (key council) g council)
                  councils (Normal groups) = Throw e
    else exists groups',
        fold_left (fun acc council => g <- acc ;; Groups.add (key council) g council)
                  councils (Normal groups) = Normal groups' /\
        GroupSpec.plain groups' /\
        forall k,
          Groups.own groups' k
          = GroupSpec.extended (Groups.own groups k)
              (UtilsData.filed_under key k councils).
Proof.
  induction councils as [|council councils IH]; intros groups Hplain.
  - cbn [UtilsData.inherited_key existsb fold_left]. exists groups.
    split; [reflexivity|]. split; [exact Hplain|].
    intros k. cbn [UtilsData.filed_under filter].
    destruct (Groups.own groups k); cbn [GroupSpec.extended];
      [rewrite app_nil_r|]; reflexivity.
  - cbn [UtilsData.inherited_key existsb fold_left bind].
    destruct (array_includes JsObject.object_prototype_keys (key council)) eqn:Hk.
    + cbn [orb]. destruct (add_inherited groups _ council Hplain Hk) as [e He].
      exists e. rewrite He. apply reduce_thrown.
    + cbn [orb].
      destruct (add_plain groups _ council Hplain Hk) as [groups1 [Hadd [Hplain1 Hown1]]].
      rewrite Hadd. specialize (IH groups1 Hplain1).
      fold (UtilsData.inherited_key key councils).
      destruct (UtilsData.inherited_key key councils); [exact IH|].
      destruct IH as [groups' [Hfold [Hplain' Hown']]].
      exists groups'. split; [exact Hfold|]. split; [exact Hplain'|].
      intros k. rewrite Hown', Hown1.
      unfold UtilsData.filed_under. cbn [filter].
      rewrite (String.eqb_sym k (key council)).
      destruct (String.eqb_spec (key council) k) as [Heq|Hne].
      * subst k. apply extended_cons.
      * reflexivity.
Qed.

Lemma plain_empty : GroupSpec.plain [].
Proof. intros k members H. discriminate. Qed.

Lemma reduce_members (key : Council.t -> string) (councils : list Council.t) :
  if UtilsData.inherited_key key councils
  then exists e, Groups.reduce key councils = Throw e
  else exists groups,
      Groups.reduce key councils = Normal groups /\
      forall k,
        Groups.own groups k
        = match UtilsData.filed_under key k councils with
          | [] => None
          | members => Some members
          end.
Proof.
  pose proof (reduce_from key councils [] plain_empty) as H.
  unfold Groups.reduce.
  destruct (UtilsData.inherited_key key councils); [exact H|].
  destruct H as [groups [Hfold [_ Hown]]].
  exists groups. split; [exact Hfold|].
  intros k. rewrite Hown. cbn [Groups.own GroupSpec.extended].
  destruct (UtilsData.filed_under key k councils); reflexivity.
Qed.

(** [groupCouncilsByStatus] and [groupCouncilsByRegion] throw exactly when
    the key of some council is a property name of [Object.prototype];
    otherwise the group of a key holds the councils with that key, in
    their order, and a key without a council has no group. *)
Theorem grouping_files_every_council (councils : list Council.t) :
  (if UtilsData.inherited_key UtilsData.statusKey councils
   then exists e, UtilsData.groupCouncilsByStatus councils = Throw e
   else exists groups,
       UtilsData.groupCouncilsByStatus councils = Normal groups /\
       forall k,
         Groups.own groups k
         = match UtilsData.filed_under UtilsData.statusKey k councils with
           | [] => None
           | members => Some members
           end) /\
  (if UtilsData.inherited_key UtilsData.regionKey councils
   then exists e, UtilsData.groupCouncilsByRegion councils = Throw e
   else exists groups,
       UtilsData.groupCouncilsByRegion councils = Normal groups /\
       forall k,
         Groups.own groups k
         = match UtilsData.filed_under UtilsData.regionKey k councils with
           | [] => None
           | members => Some members
           end).
Proof.
  split.
  - exact (reduce_members UtilsData.statusKey councils).
  - exact (reduce_members UtilsData.regionKey councils).
Qed.

(* ------------------------------------------------------------------ *)
(** *** The statistics *)

Lemma count_app (p : Council.t -> bool) (l1 l2 : list Council.t) :
  StatsSpec.count p (l1 ++ l2)%list = StatsSpec.count p l1 + StatsSpec.count p l2.
Proof. unfold StatsSpec.count. rewrite filter_app, length_app. reflexivity. Qed.

Lemma list_sum_cons (x : nat) (l : list nat) :
  list_sum (x :: l) = x + list_sum l.
Proof. reflexivity. Qed.

Lemma total_app (measure : list Council.t -> nat) (g1 g2 : Groups.t) :
  GroupSpec.total measure (g1 ++ g2)%list
  = GroupSpec.total measure g1 + GroupSpec.total measure g2.
Proof. unfold GroupSpec.total. rewrite map_app, list_sum_app. reflexivity. Qed.

Lemma total_push (p : Council.t -> bool) (groups : Groups.t) (k : string)
    (council : Council.t) :
  Groups.own groups k <> None ->
  GroupSpec.total (StatsSpec.count p) (Groups.push groups k council)
  = GroupSpec.total (StatsSpec.count p) groups + StatsSpec.count p [council].
Proof.
  induction groups as [|[key members] groups IH]; intros Hown.
  - contradiction Hown. reflexivity.
  - cbn [Groups.push Groups.own] in *.
    destruct (String.eqb k key).
    + unfold GroupSpec.total. cbn [map snd].
      rewrite !list_sum_cons, count_app. lia.
    + specialize (IH Hown). unfold GroupSpec.total in *.
      cbn [map snd]. rewrite !list_sum_cons, IH. lia.
Qed.

Lemma add_total (p : Council.t -> bool) (groups groups' : Groups.t) (k : string)
    (council : Council.t) :
  Groups.add k groups council = Normal groups' ->
  GroupSpec.total (StatsSpec.count p) groups'
  = GroupSpec.total (StatsSpec.count p) groups + StatsSpec.count p [council].
Proof.
  unfold Groups.add, Groups.get.
  destruct (Groups.own groups k) as [members|] eqn:Hown.
  - intros H. injection H as <-. apply total_push. congruence.
  - destruct (array_includes _ _); [discriminate|].
    intros H. injection H as <-. rewrite total_app.
    unfold GroupSpec.total at 2. cbn [map snd].
    rewrite list_sum_cons. cbn [list_sum fold_right]. lia.
Qed.

Lemma reduce_total (p : Council.t -> bool) (key : Council.t -> string)
    (councils : list Council.t) :
  forall groups groups',
    fold_left (fun acc council => g <- acc ;; Groups.add (key council) g council)
              councils (Normal groups) = Normal groups' ->
    GroupSpec.total (StatsSpec.count p) groups'
    = GroupSpec.total (StatsSpec.count p) groups + StatsSpec.count p councils.
Proof.
  induction councils as [|council councils IH]; intros groups groups' H.
  - injection H as <-. cbn. lia.
  - cbn [fold_left bind] in H.
    destruct (Groups.add (key council) groups council) as [groups1|e] eqn:Hadd.
    + rewrite (IH _ _ H), (add_total p _ _ _ _ Hadd).
      change (council :: councils) with ([council] ++ councils)%list.
      rewrite count_app. lia.
    + rewrite reduce_thrown in H. discriminate.
Qed.

Lemma list_sum_Permutation (l1 l2 : list nat) :
  Permutation l1 l2 -> list_sum l1 = list_sum l2.
Proof.
  induction 1; rewrite ?list_sum_cons; lia.
Qed.

Lemma total_entries (measure : list Council.t -> nat) (groups : Groups.t) :
  GroupSpec.total measure (OwnKeys.entries groups) = GroupSpec.total measure groups.
Proof.
  unfold GroupSpec.total. apply list_sum_Permutation, Permutation_map,
    entries_Permutation.
Qed.

Lemma filter_length_split {A : Type} (p q r : A -> bool) (l : list A) :
  (forall x, r x = p x || q x) -> (forall x, p x && q x = false) ->
  List.length (filter r l) = List.length (filter p l) + List.length (filter q l).
Proof.
  intros Hr Hdisjoint. induction l as [|x l IH]; [reflexivity|].
  cbn [filter]. rewrite Hr. specialize (Hdisjoint x).
  destruct (p x); destruct (q x); cbn [orb List.length]; try discriminate; lia.
Qed.

Lemma statusKey_is (status : string) (council : Council.t) :
  status <> "" -> status <> "Unknown" ->
  String.eqb (UtilsData.statusKey council) status
  = UtilsData.has_status status council.
Proof.
  intros Hsome Hknown. unfold UtilsData.statusKey, UtilsData.or_default,
    UtilsData.has_status.
  destruct (Council.status council) as [s|].
  - unfold truthy_string. destruct (String.eqb_spec s "") as [->|_]; cbn [negb].
    + destruct (String.eqb_spec "Unknown" status) as [H|_]; [congruence|].
      destruct (String.eqb_spec "" status) as [H|_]; [congruence|reflexivity].
    + reflexivity.
  - destruct (String.eqb_spec "Unknown" status) as [H|_]; [congruence|reflexivity].
Qed.

Lemma statusKey_unknown (council : Council.t) :
  String.eqb (UtilsData.statusKey council) "Unknown"
  = UtilsData.has_status "Unknown" council || UtilsData.no_status council.
Proof.
  unfold UtilsData.statusKey, UtilsData.or_default, UtilsData.has_status,
    UtilsData.no_status.
  destruct (Council.status council) as [s|]; [|reflexivity].
  unfold truthy_string. destruct (String.eqb_spec s "") as [->|_]; cbn [negb].
  - reflexivity.
  - rewrite orb_false_r. reflexivity.
Qed.

Lemma group_length_filed (groups : Groups.t) (key : Council.t -> string)
    (k : string) (councils : list Council.t) :
  Groups.own groups k
  = match UtilsData.filed_under key k councils with
    | [] => None
    | members => Some members
    end ->
  UtilsData.group_length groups k
  = List.length (UtilsData.filed_under key k councils).
Proof.
  intros H. unfold UtilsData.group_length. rewrite H.
  destruct (UtilsData.filed_under key k councils); reflexivity.
Qed.

Lemma reduce_normal (key : Council.t -> string) (councils : list Council.t)
    (groups : Groups.t) :
  Groups.reduce key councils = Normal groups ->
  forall k,
    Groups.own groups k
    = match UtilsData.filed_under key k councils with
      | [] => None
      | members => Some members
      end.
Proof.
  intros H. pose proof (reduce_members key councils) as Hm.
  destruct (UtilsData.inherited_key key councils).
  - destruct Hm as [e He]. congruence.
  - destruct Hm as [groups' [Hg Hown]].
    assert (groups' = groups) by congruence. subst groups'. exact Hown.
Qed.

Lemma column_total (p : Council.t -> bool) (groups : Groups.t) :
  list_sum (map (fun entry : string * list Council.t => StatsSpec.count p (snd entry))
                (OwnKeys.entries groups))
  = GroupSpec.total (StatsSpec.count p) groups.
Proof. apply (total_entries (StatsSpec.count p)). Qed.

(** When [calculateCouncilStats] returns, [total] is the number of
    councils; [usingSgars] and [sgarFree] count the statuses "Yes" and
    "No"; [unknown] counts the status "Unknown" and the councils without a
    status.  The regional totals and the regional counts of "Yes" and "No"
    add up to the global figures, and the regional counts of the unknown
    add up to the councils with the status "Unknown" only: those without a
    status are left out of every region's count. *)
Theorem calculateCouncilStats_totals (councils : list Council.t) (stats : Stats.t) :
  UtilsData.calculateCouncilStats councils = Normal stats ->
  Stats.total stats = List.length councils /\
  Stats.usingSgars stats = UtilsData.count_status "Yes" councils /\
  Stats.sgarFree stats = UtilsData.count_status "No" councils /\
  Stats.unknown stats
  = UtilsData.count_status "Unknown" councils
    + StatsSpec.count UtilsData.no_status councils /\
  Stats.regions stats = List.length (Stats.byRegion stats) /\
  StatsSpec.column RegionStats.total stats = Stats.total stats /\
  StatsSpec.column RegionStats.usingSgars stats = Stats.usingSgars stats /\
  StatsSpec.column RegionStats.sgarFree stats = Stats.sgarFree stats /\
  StatsSpec.column RegionStats.unknown stats
  = UtilsData.count_status "Unknown" councils.
Proof.
  unfold UtilsData.calculateCouncilStats.
  destruct (UtilsData.groupCouncilsByStatus councils) as [byStatus|e] eqn:Hstatus;
    [|discriminate].
  destruct (UtilsData.groupCouncilsByRegion councils) as [byRegion|e] eqn:Hregion;
    [|discriminate].
  cbn [bind]. intros H. injection H as <-.
  pose proof (reduce_normal _ _ _ Hstatus) as Hown.
  assert (Hyes : UtilsData.group_length byStatus "Yes"
                 = UtilsData.count_status "Yes" councils).
  { rewrite (group_length_filed _ UtilsData.statusKey _ councils (Hown _)).
    unfold UtilsData.filed_under, UtilsData.count_status. f_equal.
    apply filter_ext. intros c. apply statusKey_is; discriminate. }
  assert (Hno : UtilsData.group_length byStatus "No"
                = UtilsData.count_status "No" councils).
  { rewrite (group_length_filed _ UtilsData.statusKey _ councils (Hown _)).
    unfold UtilsData.filed_under, UtilsData.count_status. f_equal.
    apply filter_ext. intros c. apply statusKey_is; discriminate. }
  assert (Hcolumn : forall p,
             list_sum (map (fun entry : string * list Council.t =>
                              StatsSpec.count p (snd entry))
                           (OwnKeys.entries byRegion))
             = StatsSpec.count p councils).
  { intros p. rewrite column_total.
    unfold UtilsData.groupCouncilsByRegion, Groups.reduce in Hregion.
    rewrite (reduce_total p _ _ _ _ Hregion). reflexivity. }
  cbn [Stats.total Stats.usingSgars Stats.sgarFree Stats.unknown Stats.regions
       Stats.byRegion].
  unfold StatsSpec.column. cbn [Stats.byRegion]. rewrite !map_map.
  split; [reflexivity|]. split; [exact Hyes|]. split; [exact Hno|].
  split.
  { rewrite (group_length_filed _ UtilsData.statusKey _ councils (Hown _)).
    unfold UtilsData.filed_under, UtilsData.count_status, StatsSpec.count.
    apply filter_length_split.
    - apply statusKey_unknown.
    - intros c. unfold UtilsData.has_status, UtilsData.no_status.
      destruct (Council.status c) as [s|]; [|reflexivity].
      destruct (String.eqb_spec s "Unknown") as [->|_]; reflexivity. }
  split; [rewrite length_map; reflexivity|].
  split.
  { transitivity (StatsSpec.count (fun _ => true) councils).
    - rewrite <- Hcolumn. f_equal. apply map_ext. intros [region members].
      cbn [RegionStats.total snd]. unfold StatsSpec.count.
      rewrite (filter_all (fun _ => true)); reflexivity.
    - unfold StatsSpec.count. rewrite (filter_all (fun _ => true)); reflexivity. }
  split.
  { rewrite Hyes. change (UtilsData.count_status "Yes" councils)
      with (StatsSpec.count (UtilsData.has_status "Yes") councils).
    rewrite <- Hcolumn. f_equal. apply map_ext. intros [region members].
    reflexivity. }
  split.
  { rewrite Hno. change (UtilsData.count_status "No" councils)
      with (StatsSpec.count (UtilsData.has_status "No") councils).
    rewrite <- Hcolumn. f_equal. apply map_ext. intros [region members].
    reflexivity. }
  change (UtilsData.count_status "Unknown" councils)
    with (StatsSpec.count (UtilsData.has_status "Unknown") councils).
  rewrite <- Hcolumn. f_equal. apply map_ext. intros [region members].
  reflexivity.
Qed.

Lemma calculateCouncilStats_totals_witness :
  let councils :=
    [ Council.mk "Sydney" (Some "Yes") (Some "") (Some "") "Metro South" "2025-01-22";
      Council.mk "Lithgow" None (Some "") (Some "") "Central West" "2025-01-22";
      Council.mk "Orange" (Some "Unknown") (Some "") (Some "") "Central West" "2025-01-22" ] in
  let stats :=
    Stats.mk 3 1 0 2 2
      [ RegionStats.mk "Metro South" 1 1 0 0;
        RegionStats.mk "Central West" 2 0 0 1 ] in
  Stats.total stats = List.length councils /\
  Stats.usingSgars stats = UtilsData.count_status "Yes" councils /\
  Stats.sgarFree stats = UtilsData.count_status "No" councils /\
  Stats.unknown stats
  = UtilsData.count_status "Unknown" councils
    + StatsSpec.count UtilsData.no_status councils /\
  Stats.regions stats = List.length (Stats.byRegion stats) /\
  StatsSpec.column RegionStats.total stats = Stats.total stats /\
  StatsSpec.column RegionStats.usingSgars stats = Stats.usingSgars stats /\
  StatsSpec.column RegionStats.sgarFree stats = Stats.sgarFree stats /\
  StatsSpec.column RegionStats.unknown stats
  = UtilsData.count_status "Unknown" councils.
Proof.
  intros councils stats.
  apply (calculateCouncilStats_totals councils stats).
  vm_compute. reflexivity.
Defined.

(* ------------------------------------------------------------------ *)
(** *** Sorting *)

Lemma string_leb_refl (s : string) : String.leb s s = true.
Proof.
  destruct (String.leb_total s s) as [H|H]; exact H.
Qed.

Lemma string_leb_trans (s1 s2 s3 : string) :
  String.leb s1 s2 = true -> String.leb s2 s3 = true -> String.leb s1 s3 = true.
Proof.
  unfold String.leb. intros H12 H23.
  destruct (String.compare s1 s2) eqn:C12; try discriminate.
  - apply String.compare_eq_iff in C12. subst s2. exact H23.
  - destruct (String.compare s2 s3) eqn:C23; try discriminate.
    + apply String.compare_eq_iff in C23. subst s3. rewrite C12. reflexivity.
    + assert (C13 : String.compare s1 s3 = Lt).
      { exact (@RelationClasses.StrictOrder_Transitive _ _
                 String_as_OT.lt_strorder s1 s2 s3 C12 C23). }
      rewrite C13. reflexivity.
Qed.

(** The comparator and the order of the values. *)
Lemma compareCouncils_inOrder (sortBy direction : string) (a b : Council.t) :
  (UtilsData.compareCouncils sortBy direction a b <=? 0)%Z = true <->
  SortSpec.inOrder sortBy direction a b.
Proof.
  unfold UtilsData.compareCouncils, SortSpec.inOrder, String.ltb, String.leb.
  rewrite (String.compare_antisym (UtilsData.sortValue sortBy a)
             (UtilsData.sortValue sortBy b)).
  destruct (String.compare (UtilsData.sortValue sortBy b)
              (UtilsData.sortValue sortBy a));
    destruct (String.eqb direction "desc"); cbn; split; congruence.
Qed.

Lemma inOrder_total (sortBy direction : string) (a b : Council.t) :
  SortSpec.inOrder sortBy direction a b \/ SortSpec.inOrder sortBy direction b a.
Proof.
  unfold SortSpec.inOrder. destruct (String.eqb direction "desc").
  - destruct (String.leb_total (UtilsData.sortValue sortBy a)
                (UtilsData.sortValue sortBy b)); [right|left]; assumption.
  - apply String.leb_total.
Qed.

Lemma inOrder_trans (sortBy direction : string) (a b c : Council.t) :
  SortSpec.inOrder sortBy direction a b -> SortSpec.inOrder sortBy direction b c ->
  SortSpec.inOrder sortBy direction a c.
Proof.
  unfold SortSpec.inOrder. destruct (String.eqb direction "desc"); intros H1 H2.
  - exact (string_leb_trans _ _ _ H2 H1).
  - exact (string_leb_trans _ _ _ H1 H2).
Qed.

Lemma inOrder_same_value (sortBy direction : string) (a b : Council.t) :
  UtilsData.sortValue sortBy a = UtilsData.sortValue sortBy b ->
  SortSpec.inOrder sortBy direction a b.
Proof.
  unfold SortSpec.inOrder. intros ->.
  destruct (String.eqb direction "desc"); apply string_leb_refl.
Qed.

Section InsertionSort.
Variables sortBy direction : string.


Lemma insert_sorted_Permutation (x : Council.t) (sorted : list Council.t) :
  Permutation (UtilsData.insert_sorted (UtilsData.compareCouncils sortBy direction) x sorted) (x :: sorted).
Proof.
  induction sorted as [|y sorted IH]; [apply Permutation_refl|].
  cbn [UtilsData.insert_sorted].
  destruct ((UtilsData.compareCouncils sortBy direction) x y <=? 0)%Z; [apply Permutation_refl|].
  rewrite IH. apply perm_swap.
Qed.

Lemma array_sort_Permutation (arr : list Council.t) :
  Permutation (UtilsData.array_sort (UtilsData.compareCouncils sortBy direction) arr) arr.
Proof.
  induction arr as [|x arr IH]; [apply Permutation_refl|].
  cbn [UtilsData.array_sort]. rewrite insert_sorted_Permutation.
  apply perm_skip, IH.
Qed.

Lemma insert_sorted_StronglySorted (x : Council.t) (sorted : list Council.t) :
  StronglySorted (SortSpec.inOrder sortBy direction) sorted ->
  StronglySorted (SortSpec.inOrder sortBy direction) (UtilsData.insert_sorted (UtilsData.compareCouncils sortBy direction) x sorted).
Proof.
  induction 1 as [|y sorted Hsorted IH Hall].
  - constructor; [constructor|constructor].
  - cbn [UtilsData.insert_sorted].
    destruct ((UtilsData.compareCouncils sortBy direction) x y <=? 0)%Z eqn:Hxy.
    + apply compareCouncils_inOrder in Hxy.
      constructor; [constructor; assumption|].
      constructor; [exact Hxy|].
      apply Forall_forall. intros z Hz.
      apply (inOrder_trans _ _ x y z Hxy).
      exact (proj1 (Forall_forall _ _) Hall z Hz).
    + constructor; [exact IH|].
      apply Forall_forall. intros z Hz.
      apply (Permutation_in _ (insert_sorted_Permutation x sorted)) in Hz.
      destruct Hz as [<-|Hz].
      * destruct (inOrder_total sortBy direction y x) as [H|H]; [exact H|].
        apply compareCouncils_inOrder in H. congruence.
      * exact (proj1 (Forall_forall _ _) Hall z Hz).
Qed.

Lemma array_sort_StronglySorted (arr : list Council.t) :
  StronglySorted (SortSpec.inOrder sortBy direction) (UtilsData.array_sort (UtilsData.compareCouncils sortBy direction) arr).
Proof.
  induction arr as [|x arr IH]; [constructor|].
  cbn [UtilsData.array_sort]. apply insert_sorted_StronglySorted, IH.
Qed.

Lemma insert_sorted_valued (value : string) (x : Council.t)
    (sorted : list Council.t) :
  SortSpec.valued sortBy value (UtilsData.insert_sorted (UtilsData.compareCouncils sortBy direction) x sorted)
  = SortSpec.valued sortBy value (x :: sorted).
Proof.
  induction sorted as [|y sorted IH]; [reflexivity|].
  cbn [UtilsData.insert_sorted].
  destruct ((UtilsData.compareCouncils sortBy direction) x y <=? 0)%Z eqn:Hxy; [reflexivity|].
  unfold SortSpec.valued in *. cbn [filter] in *. rewrite IH.
  destruct (String.eqb_spec (UtilsData.sortValue sortBy x) value) as [Hx|Hx];
    [|reflexivity].
  destruct (String.eqb_spec (UtilsData.sortValue sortBy y) value) as [Hy|Hy];
    [|reflexivity].
  exfalso.
  assert (H : SortSpec.inOrder sortBy direction x y)
    by (apply inOrder_same_value; congruence).
  apply compareCouncils_inOrder in H. congruence.
Qed.

Lemma array_sort_valued (value : string) (arr : list Council.t) :
  SortSpec.valued sortBy value (UtilsData.array_sort (UtilsData.compareCouncils sortBy direction) arr)
  = SortSpec.valued sortBy value arr.
Proof.
  induction arr as [|x arr IH]; [reflexivity|].
  cbn [UtilsData.array_sort]. rewrite insert_sorted_valued.
  unfold SortSpec.valued in *. cbn [filter]. rewrite IH. reflexivity.
Qed.

End InsertionSort.

(** [sortCouncils] returns the councils rearranged so that the lowercased
    values of the field grow (or fall, for "desc"); councils with the same
    value keep the order they had, in both directions. *)
Theorem sortCouncils_sorted_stable
    (councils : list Council.t) (sortBy direction : string) :
  let sorted := UtilsData.sortCouncils councils sortBy direction in
  Permutation sorted councils /\
  StronglySorted (SortSpec.inOrder sortBy direction) sorted /\
  forall value,
    SortSpec.valued sortBy value sorted = SortSpec.valued sortBy value councils.
Proof.
  cbv zeta. unfold UtilsData.sortCouncils. split; [|split].
  - apply array_sort_Permutation.
  - apply array_sort_StronglySorted.
  - intros value. apply array_sort_valued.
Qed.

(* ------------------------------------------------------------------ *)
(** *** Transformed councils *)

Lemma or_default_truthy (value : option string) (fallback : string) :
  fallback <> "" -> UtilsData.or_default value fallback <> "".
Proof.
  intros Hfallback. unfold UtilsData.or_default.
  destruct value as [s|]; [|exact Hfallback].
  unfold truthy_string. destruct (String.eqb_spec s ""); cbn [negb]; assumption.
Qed.

Lemma passesFilters_with_notes (filters : Filters.t) (council : Council.t) :
  Council.notes council <> None ->
  exists kept, Tracker.passesFilters filters council = Normal kept.
Proof.
  intros Hnotes. unfold Tracker.passesFilters.
  repeat match goal with
         | |- context [if ?b then _ else _] => destruct b
         end; try (eexists; reflexivity).
  destruct (Council.notes council); [eexists; reflexivity|contradiction].
Qed.

Lemma array_filter_total {A : Type} (p : A -> completion bool) (arr : list A) :
  (forall x, In x arr -> exists b, p x = Normal b) ->
  exists kept, array_filter p arr = Normal kept.
Proof.
  induction arr as [|x arr IH]; intros Hp; [eexists; reflexivity|].
  cbn [array_filter]. destruct (Hp x (or_introl eq_refl)) as [b Hb]. rewrite Hb.
  destruct IH as [kept Hkept]; [intros y Hy; apply Hp; right; exact Hy|].
  rewrite Hkept. eexists. reflexivity.
Qed.

(** Every council [transformCouncilData] returns has a name, a status, a
    region, and notes and an email that are strings; so the filter of the
    tracker, which reads the notes of a council, returns for them whatever
    the filters are. *)
Theorem transformed_councils_are_complete
    (rawData : option (list (string * RawEntry.t))) (today : string)
    (filters : Filters.t) :
  let councils := UtilsData.transformCouncilData rawData today in
  (forall council, In council councils ->
     Council.name council <> "" /\
     (exists status, Council.status council = Some status /\ status <> "") /\
     Council.notes council <> None /\
     Council.contactEmail council <> None /\
     Council.region council <> "") /\
  exists kept, Tracker.getFilteredCouncils councils filters = Normal kept.
Proof.
  cbv zeta.
  assert (Hall : forall council,
             In council (UtilsData.transformCouncilData rawData today) ->
             Council.name council <> "" /\
             (exists status, Council.status council = Some status /\ status <> "") /\
             Council.notes council <> None /\
             Council.contactEmail council <> None /\
             Council.region council <> "").
  { intros council Hin. unfold UtilsData.transformCouncilData in Hin.
    destruct rawData as [entries|]; [|destruct Hin].
    apply filter_In in Hin. destruct Hin as [Hin Hname].
    apply in_map_iff in Hin. destruct Hin as [[name data] [<- _]].
    cbn [Council.name Council.status Council.notes Council.contactEmail
         Council.region] in *.
    split.
    { unfold truthy_string in Hname. apply negb_true_iff in Hname.
      apply String.eqb_neq in Hname. exact Hname. }
    split.
    { eexists. split; [reflexivity|]. apply or_default_truthy. discriminate. }
    split; [discriminate|]. split; [discriminate|].
    apply or_default_truthy. discriminate. }
  split; [exact Hall|].
  unfold Tracker.getFilteredCouncils. apply array_filter_total.
  intros council Hin. apply passesFilters_with_notes.
  exact (proj1 (proj2 (proj2 (Hall council Hin)))).
Qed.

(* ------------------------------------------------------------------ *)
(** *** Retries *)

Lemma delays_sum (baseDelay : Z) (count : nat) :
  fold_right Z.add 0%Z (RetrySpec.delays baseDelay 1 count)
  = (baseDelay * (2 ^ Z.of_nat count - 1))%Z.
Proof.
  unfold RetrySpec.delays. induction count as [|count IH].
  - cbn. lia.
  - rewrite seq_S, map_app, fold_right_app. cbn [map fold_right Nat.add].
    assert (Hshift : forall l a,
               fold_right Z.add a l = (fold_right Z.add 0 l + a)%Z).
    { induction l as [|x l IHl]; intros a; cbn [fold_right]; [lia|].
      rewrite IHl. lia. }
    rewrite Hshift, IH. unfold RetrySpec.delay_after.
    replace (S count - 1) with count by lia.
    rewrite Nat2Z.inj_succ, Z.pow_succ_r by lia. lia.
Qed.

Lemma loop_first_success {A : Type} (func : nat -> completion A) (baseDelay : Z)
    (k : nat) (value : A) :
  func k = Normal value ->
  forall remaining attempt delays,
    attempt <= k -> k < attempt + remaining ->
    (forall j, attempt <= j -> j < k -> exists e, func j = Throw e) ->
    Retry.loop func baseDelay attempt remaining delays
    = Retry.mkRun (Normal (Some value)) k
        (delays ++ RetrySpec.delays baseDelay attempt (k - attempt)).
Proof.
  intros Hk. induction remaining as [|remaining IH]; intros attempt delays Hlow Hhigh Hfail.
  - lia.
  - cbn [Retry.loop]. destruct (Nat.eq_dec attempt k) as [->|Hne].
    + rewrite Hk, Nat.sub_diag. cbn. rewrite app_nil_r. reflexivity.
    + destruct (Hfail attempt (le_n _) ltac:(lia)) as [e He]. rewrite He.
      destruct remaining as [|remaining']; [lia|].
      rewrite IH; [|lia|lia|intros j Hj1 Hj2; apply Hfail; lia].
      f_equal. rewrite <- app_assoc. f_equal.
      replace (k - attempt) with (S (k - S attempt)) by lia.
      reflexivity.
Qed.

Lemma loop_exhausted {A : Type} (func : nat -> completion A) (baseDelay : Z)
    (errors : nat -> js_error) :
  forall remaining attempt delays,
    (forall j, attempt <= j -> j <= attempt + remaining ->
               func j = Throw (errors j)) ->
    Retry.loop func baseDelay attempt (S remaining) delays
    = Retry.mkRun (Throw (errors (attempt + remaining))) (attempt + remaining)
        (delays ++ RetrySpec.delays baseDelay attempt remaining).
Proof.
  induction remaining as [|remaining IH]; intros attempt delays Hfail.
  - cbn [Retry.loop]. rewrite (Hfail attempt) by lia.
    rewrite Nat.add_0_r. cbn. rewrite app_nil_r. reflexivity.
  - cbn [Retry.loop]. rewrite (Hfail attempt) by lia.
    cbn [Retry.loop] in IH. rewrite IH by (intros j Hj1 Hj2; apply Hfail; lia).
    replace (S attempt + remaining) with (attempt + S remaining) by lia.
    f_equal. rewrite <- app_assoc. reflexivity.
Qed.

(** When the [k]-th call of [func] is the first that succeeds and [k] is
    at most [maxRetries], [retryWithBackoff] resolves to its value after
    exactly [k] calls, having waited [baseDelay], [2 * baseDelay], ...
    after the failures: [baseDelay * (2^(k-1) - 1)] in all. *)
Theorem retry_first_success {A : Type} (func : nat -> completion A)
    (maxRetries : nat) (baseDelay : Z) (k : nat) (value : A) :
  1 <= k -> k <= maxRetries ->
  func k = Normal value ->
  (forall j, 1 <= j -> j < k -> exists e, func j = Throw e) ->
  let r := Retry.retryWithBackoff func maxRetries baseDelay in
  Retry.outcome r = Normal (Some value) /\
  Retry.calls r = k /\
  Retry.waited r = RetrySpec.delays baseDelay 1 (k - 1) /\
  Retry.total_wait r = (baseDelay * (2 ^ Z.of_nat (k - 1) - 1))%Z.
Proof.
  intros Hlow Hhigh Hk Hfail r. subst r. unfold Retry.retryWithBackoff.
  rewrite (loop_first_success func baseDelay k value Hk maxRetries 1 [])
    by (try lia; exact Hfail).
  cbn [app Retry.outcome Retry.calls Retry.waited]. unfold Retry.total_wait.
  cbn [Retry.waited]. rewrite delays_sum. repeat split; reflexivity.
Qed.

Lemma retry_first_success_witness :
  let func := fun k : nat =>
    if Nat.ltb k 3 then Throw (Error "Failed to fetch") else Normal "ok" in
  let r := Retry.retryWithBackoff func 3 1000 in
  Retry.outcome r = Normal (Some "ok") /\
  Retry.calls r = 3 /\
  Retry.waited r = RetrySpec.delays 1000 1 (3 - 1) /\
  Retry.total_wait r = (1000 * (2 ^ Z.of_nat (3 - 1) - 1))%Z.
Proof.
  intros func.
  apply (retry_first_success func 3 1000 3 "ok"); try lia.
  - reflexivity.
  - intros j Hj1 Hj2. exists (Error "Failed to fetch"). unfold func.
    destruct (Nat.ltb_spec j 3); [reflexivity|lia].
Defined.

(** When the first [maxRetries] calls of [func] all fail, [maxRetries]
    being positive, [retryWithBackoff] rejects with the error of the last
    call after exactly [maxRetries] calls; it does not wait after the last
    failure. *)
Theorem retry_exhausted {A : Type} (func : nat -> completion A)
    (maxRetries : nat) (baseDelay : Z) (errors : nat -> js_error) :
  1 <= maxRetries ->
  (forall j, 1 <= j -> j <= maxRetries -> func j = Throw (errors j)) ->
  let r := Retry.retryWithBackoff func maxRetries baseDelay in
  Retry.outcome r = Throw (errors maxRetries) /\
  Retry.calls r = maxRetries /\
  Retry.waited r = RetrySpec.delays baseDelay 1 (maxRetries - 1) /\
  Retry.total_wait r = (baseDelay * (2 ^ Z.of_nat (maxRetries - 1) - 1))%Z.
Proof.
  intros Hmax Hfail r. subst r. unfold Retry.retryWithBackoff.
  destruct maxRetries as [|remaining]; [lia|].
  rewrite (loop_exhausted func baseDelay errors remaining 1 [])
    by (intros j Hj1 Hj2; apply Hfail; lia).
  cbn [app Retry.outcome Retry.calls Retry.waited]. unfold Retry.total_wait.
  cbn [Retry.waited]. replace (S remaining - 1) with remaining by lia.
  rewrite delays_sum. repeat split; reflexivity.
Qed.

Lemma retry_exhausted_witness :
  let func := fun k : nat => @Throw string (Error "Failed to fetch") in
  let r := Retry.retryWithBackoff func 3 1000 in
  Retry.outcome r = Throw (Error "Failed to fetch") /\
  Retry.calls r = 3 /\
  Retry.waited r = RetrySpec.delays 1000 1 (3 - 1) /\
  Retry.total_wait r = (1000 * (2 ^ Z.of_nat (3 - 1) - 1))%Z.
Proof.
  intros func.
  apply (retry_exhausted func 3 1000 (fun _ => Error "Failed to fetch")); [lia|].
  intros j _ _. reflexivity.
Defined.

(* ------------------------------------------------------------------ *)
(** *** Memoization *)

Lemma find_snoc {A : Type} (p : A -> bool) (l : list A) (a : A) :
  find p (l ++ [a])
  = match find p l with
    | Some x => Some x
    | None => if p a then Some a else None
    end.
Proof.
  induction l as [|x l IH]; cbn [app find]; [reflexivity|].
  destruct (p x); [reflexivity|exact IH].
Qed.

Section Memoized.
Variables Args K R : Type.
Variable same_key : K -> K -> bool.
Variable keyGenerator : Args -> K.
Variable func : Args -> completion R.
Hypothesis same_key_spec : forall x y, same_key x y = true <-> x = y.

Lemma lookup_snoc (entries : Memoize.cache K R) (key k : K) (result : R) :
  Memoize.lookup same_key (entries ++ [(k, result)])%list key
  = match Memoize.lookup same_key entries key with
    | Some r => Some r
    | None => if same_key key k then Some result else None
    end.
Proof.
  induction entries as [|[k' r'] entries IH]; cbn [app Memoize.lookup];
    [reflexivity|].
  destruct (same_key key k'); [reflexivity|exact IH].
Qed.

Lemma after_snoc (history : list Args) (args : Args) :
  Memoize.after same_key keyGenerator func (history ++ [args])
  = snd (Memoize.call same_key keyGenerator func
           (Memoize.after same_key keyGenerator func history) args).
Proof. unfold Memoize.after. rewrite fold_left_app. reflexivity. Qed.

(** The cache holds, under a key, the result of the first call with that
    key in which [func] returned. *)
Lemma lookup_after (history : list Args) (key : K) :
  Memoize.lookup same_key (Memoize.after same_key keyGenerator func history) key
  = match find (fun earlier =>
                  same_key key (keyGenerator earlier) &&
                  match func earlier with Normal _ => true | Throw _ => false end)
               history with
    | Some earlier =>
        match func earlier with Normal r => Some r | Throw _ => None end
    | None => None
    end.
Proof.
  revert key. induction history as [|args history IH] using rev_ind;
    intros key; [reflexivity|].
  rewrite after_snoc, find_snoc. unfold Memoize.call.
  destruct (Memoize.lookup same_key
              (Memoize.after same_key keyGenerator func history)
              (keyGenerator args)) as [r|] eqn:Hcached.
  - cbn [snd]. rewrite IH.
    destruct (find _ history) as [earlier|] eqn:Hfind; [reflexivity|].
    destruct (same_key key (keyGenerator args)) eqn:Hkey; [|reflexivity].
    apply same_key_spec in Hkey. subst key.
    rewrite IH, Hfind in Hcached. discriminate.
  - destruct (func args) as [r|e] eqn:Hfunc; cbn [snd].
    + rewrite lookup_snoc, IH.
      destruct (find _ history) as [earlier|] eqn:Hfind.
      * destruct (func earlier) eqn:Hearlier; [reflexivity|].
        apply find_some in Hfind. destruct Hfind as [_ Hp].
        rewrite Hearlier, andb_false_r in Hp. discriminate.
      * rewrite andb_true_r. destruct (same_key key (keyGenerator args));
          [rewrite Hfunc|]; reflexivity.
    + rewrite IH, andb_false_r. destruct (find _ history); reflexivity.
Qed.

Lemma call_result (history : list Args) (args : Args) :
  fst (Memoize.call same_key keyGenerator func
         (Memoize.after same_key keyGenerator func history) args)
  = match Memoize.repeated same_key keyGenerator func history args with
    | Some earlier => func earlier
    | None => func args
    end.
Proof.
  unfold Memoize.call, Memoize.repeated. rewrite lookup_after.
  destruct (find _ history) as [earlier|] eqn:Hfind.
  - apply find_some in Hfind. destruct Hfind as [_ Hp].
    destruct (func earlier); [reflexivity|].
    rewrite andb_false_r in Hp. discriminate.
  - destruct (func args); reflexivity.
Qed.

End Memoized.

(** After any calls, the memoized function answers a call with what
    [func] returned in the first earlier call with the same key, and with
    [func] of its own arguments when there is none (an exception is not
    cached).  So it agrees with [func] when the key generator gives
    different arguments different keys, and otherwise repeats the result
    of other arguments. *)
Theorem memoized_result {Args K R : Type} (same_key : K -> K -> bool)
    (keyGenerator : Args -> K) (func : Args -> completion R)
    (history : list Args) (args : Args) :
  (forall x y, same_key x y = true <-> x = y) ->
  let answer :=
    fst (Memoize.call same_key keyGenerator func
           (Memoize.after same_key keyGenerator func history) args) in
  answer = match Memoize.repeated same_key keyGenerator func history args with
           | Some earlier => func earlier
           | None => func args
           end /\
  ((forall a b, keyGenerator a = keyGenerator b -> a = b) -> answer = func args).
Proof.
  intros Hsame answer. subst answer.
  pose proof (call_result Args K R same_key keyGenerator func Hsame history args)
    as Hresult.
  split; [exact Hresult|].
  intros Hinjective. rewrite Hresult. unfold Memoize.repeated.
  destruct (find _ history) as [earlier|] eqn:Hfind; [|reflexivity].
  apply find_some in Hfind. destruct Hfind as [_ Hp].
  apply andb_prop in Hp. destruct Hp as [Hkey _].
  apply Hsame, Hinjective in Hkey. subst earlier. reflexivity.
Qed.

Lemma memoized_result_witness :
  let keyGenerator := fun n : nat => Nat.modulo n 2 in
  let func := fun n : nat => @Normal nat (n * 10) in
  let answer :=
    fst (Memoize.call Nat.eqb keyGenerator func
           (Memoize.after Nat.eqb keyGenerator func [3; 4]) 5) in
  answer = match Memoize.repeated Nat.eqb keyGenerator func [3; 4] 5 with
           | Some earlier => func earlier
           | None => func 5
           end /\
  ((forall a b, keyGenerator a = keyGenerator b -> a = b) -> answer = func 5).
Proof.
  intros keyGenerator func.
  apply (memoized_result Nat.eqb keyGenerator func [3; 4] 5).
  exact Nat.eqb_eq.
Defined.

(* ------------------------------------------------------------------ *)
(** *** The toast notifications *)

Lemma splice1_length {A : Type} (arr : list A) (index : nat) :
  List.length (Toasts.splice1 arr index)
  = if Nat.ltb index (List.length arr) then List.length arr - 1
    else List.length arr.
Proof.
  unfold Toasts.splice1. rewrite length_app, length_firstn, length_skipn.
  destruct (Nat.ltb_spec index (List.length arr)); lia.
Qed.

Lemma processToastQueue_bounded (this : Toasts.t) :
  List.length (Toasts.activeToasts this) <= Toasts.maxToasts ->
  (2 <= List.length (Toasts.toastQueue this) ->
   2 <= List.length (Toasts.activeToasts this)) ->
  ToastSpec.bounded (Toasts.processToastQueue this).
Proof.
  intros Hmax Hqueue. unfold Toasts.processToastQueue, ToastSpec.bounded.
  unfold Toasts.maxToasts in *.
  destruct (Nat.leb_spec 3 (List.length (Toasts.activeToasts this))) as [Hfull|Hroom].
  - split; [exact Hmax|]. intros _. lia.
  - destruct (Toasts.toastQueue this) as [|toast rest] eqn:Hq.
    + split; [exact Hmax|]. intros H. rewrite Hq in H. contradiction.
    + cbn [Toasts.displayToast Toasts.activeToasts Toasts.toastQueue].
      rewrite length_app. cbn [List.length]. split; [lia|].
      intros Hrest. destruct rest as [|next rest]; [contradiction|].
      cbn [List.length] in Hqueue. lia.
Qed.

Lemma handle_bounded (this : Toasts.t) (e : Toasts.event) :
  ToastSpec.bounded this -> ToastSpec.bounded (Toasts.handle this e).
Proof.
  intros [Hmax Hqueue]. destruct e as [toast|toastId|]; cbn [Toasts.handle].
  - unfold Toasts.showToast. apply processToastQueue_bounded;
      cbn [Toasts.activeToasts Toasts.toastQueue]; [exact Hmax|].
    rewrite length_app. cbn [List.length]. intros Hlong.
    destruct (Toasts.toastQueue this) as [|first rest]; [cbn in Hlong; lia|].
    unfold Toasts.maxToasts in Hqueue. rewrite Hqueue by discriminate. lia.
  - unfold Toasts.dismissToast.
    destruct (Toasts.findIndex toastId (Toasts.activeToasts this)) as [index|];
      [|split; assumption].
    destruct (nth_error (Toasts.activeToasts this) index);
      split; assumption.
  - unfold Toasts.removalFires.
    destruct (Toasts.removals this) as [|timer rest]; [split; assumption|].
    apply processToastQueue_bounded;
      cbn [Toasts.activeToasts Toasts.toastQueue]; rewrite splice1_length.
    + destruct (Nat.ltb _ _); lia.
    + intros Hlong. unfold Toasts.maxToasts in Hqueue.
      rewrite Hqueue by (destruct (Toasts.toastQueue this);
                         [cbn in Hlong; lia|discriminate]).
      destruct (Nat.ltb _ _); lia.
Qed.

(** Whatever toasts are shown and dismissed, and whenever the timers
    fire, [activeToasts] never holds more than [maxToasts] toasts, and a
    toast waits in the queue only while [maxToasts] toasts are active. *)
Theorem active_toasts_bounded (events : list Toasts.event) :
  let this := Toasts.run Toasts.initial events in
  List.length (Toasts.activeToasts this) <= Toasts.maxToasts /\
  (Toasts.toastQueue this <> [] ->
   List.length (Toasts.activeToasts this) = Toasts.maxToasts).
Proof.
  cbv zeta. change (ToastSpec.bounded (Toasts.run Toasts.initial events)).
  assert (Hinitial : ToastSpec.bounded Toasts.initial).
  { split; [cbn; unfold Toasts.maxToasts; lia|intros H; contradiction H; reflexivity]. }
  unfold Toasts.run. revert Hinitial. generalize Toasts.initial.
  induction events as [|e events IH]; intros this H; [exact H|].
  cbn [fold_left]. apply IH, handle_bounded, H.
Qed.

Lemma findIndex_app (toastId : Z) (before rest : list Toasts.shown) :
  ~ In toastId (ToastSpec.ids before) ->
  Toasts.findIndex toastId (before ++ rest)
  = option_map (Nat.add (List.length before)) (Toasts.findIndex toastId rest).
Proof.
  induction before as [|entry before IH]; intros Hnotin.
  - cbn. destruct (Toasts.findIndex toastId rest); reflexivity.
  - cbn [app Toasts.findIndex].
    destruct (Z.eqb_spec (Toasts.id (Toasts.shown_toast entry)) toastId) as [Heq|_].
    + exfalso. apply Hnotin. left. exact Heq.
    + rewrite IH by (intros H; apply Hnotin; right; exact H).
      destruct (Toasts.findIndex toastId rest); reflexivity.
Qed.

Lemma findIndex_absent (toastId : Z) (entries : list Toasts.shown) :
  ~ In toastId (ToastSpec.ids entries) ->
  Toasts.findIndex toastId entries = None.
Proof.
  induction entries as [|entry entries IH]; intros Hnotin; [reflexivity|].
  cbn [Toasts.findIndex].
  destruct (Z.eqb_spec (Toasts.id (Toasts.shown_toast entry)) toastId) as [Heq|_].
  - exfalso. apply Hnotin. left. exact Heq.
  - rewrite IH by (intros H; apply Hnotin; right; exact H). reflexivity.
Qed.

Lemma splice1_middle {A : Type} (before after : list A) (x : A) :
  Toasts.splice1 (before ++ x :: after) (List.length before) = (before ++ after)%list.
Proof.
  unfold Toasts.splice1. induction before as [|y before IH]; [reflexivity|].
  cbn [app List.length firstn skipn] in *. rewrite IH. reflexivity.
Qed.

Lemma processToastQueue_empty (this : Toasts.t) :
  Toasts.toastQueue this = [] -> Toasts.processToastQueue this = this.
Proof.
  intros Hq. unfold Toasts.processToastQueue. rewrite Hq.
  destruct (Nat.leb _ _); reflexivity.
Qed.

Lemma filter_twice {A : Type} (p : A -> bool) (l : list A) :
  filter p (filter p l) = filter p l.
Proof.
  induction l as [|x l IH]; [reflexivity|].
  cbn [filter]. destruct (p x) eqn:Hp; [cbn [filter]; rewrite Hp, IH|];
    congruence.
Qed.

Lemma dismissToast_found (queue : list Toasts.toast)
    (before rest : list Toasts.shown) (a : Toasts.shown) (container : list nat)
    (removals : list Toasts.removal) (created : nat) :
  ~ In (Toasts.id (Toasts.shown_toast a)) (ToastSpec.ids before) ->
  Toasts.dismissToast
    (Toasts.mk queue (before ++ a :: rest) container removals created)
    (Toasts.id (Toasts.shown_toast a))
  = Toasts.mk queue (before ++ a :: rest) container
      (removals ++ [Toasts.mkRemoval (List.length before) (Toasts.element a)])
      created.
Proof.
  intros Hfirst. unfold Toasts.dismissToast. cbn [Toasts.activeToasts].
  rewrite (findIndex_app _ _ _ Hfirst). cbn [Toasts.findIndex].
  rewrite Z.eqb_refl. cbn [option_map]. rewrite Nat.add_0_r.
  rewrite nth_error_app2, Nat.sub_diag by lia. reflexivity.
Qed.

Lemma removalFires_empty_queue (active : list Toasts.shown)
    (container : list nat) (timer : Toasts.removal)
    (rest : list Toasts.removal) (created : nat) :
  Toasts.removalFires (Toasts.mk [] active container (timer :: rest) created)
  = Toasts.mk [] (Toasts.splice1 active (Toasts.toastIndex timer))
      (filter (fun e => negb (Nat.eqb e (Toasts.removed timer))) container)
      rest created.
Proof.
  unfold Toasts.removalFires. cbn [Toasts.removals].
  apply processToastQueue_empty. reflexivity.
Qed.

(** A toast dismissed twice before its removal takes the next toast with
    it.  When [dismissToast] is called twice for an active toast before
    the first of the two 300 ms timers fires, and no toast waits in the
    queue, the two timers remove from [activeToasts] that toast and the
    one that followed it; the element of the follower stays in the
    document, and dismissing the follower then does nothing, since it is
    no longer found in [activeToasts]. *)
Theorem double_dismissal_drops_next_toast
    (this : Toasts.t) (before after : list Toasts.shown) (a b : Toasts.shown) :
  Toasts.activeToasts this = (before ++ a :: b :: after)%list ->
  Toasts.toastQueue this = [] ->
  Toasts.removals this = [] ->
  ~ In (Toasts.id (Toasts.shown_toast a)) (ToastSpec.ids before) ->
  Toasts.element b <> Toasts.element a ->
  In (Toasts.element b) (Toasts.toastContainer this) ->
  let toastId := Toasts.id (Toasts.shown_toast a) in
  let this' :=
    Toasts.run this
      [ Toasts.Dismiss toastId; Toasts.Dismiss toastId;
        Toasts.RemovalFires; Toasts.RemovalFires ] in
  Toasts.activeToasts this' = (before ++ after)%list /\
  In (Toasts.element b) (Toasts.toastContainer this') /\
  Toasts.removals this' = [] /\
  (~ In (Toasts.id (Toasts.shown_toast b)) (ToastSpec.ids (before ++ after)) ->
   Toasts.dismissToast this' (Toasts.id (Toasts.shown_toast b)) = this').
Proof.
  destruct this as [queue active container removals created].
  cbn [Toasts.activeToasts Toasts.toastQueue Toasts.removals
       Toasts.toastContainer].
  intros -> -> -> Hfirst Helement Hshown. cbv zeta. unfold Toasts.run. cbn [fold_left Toasts.handle].
  rewrite !(dismissToast_found _ _ _ _ _ _ _ Hfirst). cbn [app].
  rewrite !removalFires_empty_queue. cbn [Toasts.toastIndex Toasts.removed].
  rewrite !splice1_middle.
  cbn [Toasts.activeToasts Toasts.toastContainer Toasts.removals].
  split; [reflexivity|]. split.
  { rewrite filter_twice. apply filter_In. split; [exact Hshown|].
    apply negb_true_iff, Nat.eqb_neq. exact Helement. }
  split; [reflexivity|].
  intros Habsent. unfold Toasts.dismissToast. cbn [Toasts.activeToasts].
  rewrite (findIndex_absent _ _ Habsent). reflexivity.
Qed.

Lemma double_dismissal_drops_next_toast_witness :
  let a := Toasts.mkShown (Toasts.mkToast 1001 4000) 0 in
  let b := Toasts.mkShown (Toasts.mkToast 1002 4000) 1 in
  let this := Toasts.run Toasts.initial
                [ Toasts.Show (Toasts.shown_toast a);
                  Toasts.Show (Toasts.shown_toast b) ] in
  let this' :=
    Toasts.run this
      [ Toasts.Dismiss 1001%Z; Toasts.Dismiss 1001%Z;
        Toasts.RemovalFires; Toasts.RemovalFires ] in
  Toasts.activeToasts this' = [] /\
  In 1 (Toasts.toastContainer this') /\
  Toasts.removals this' = [] /\
  (~ In 1002%Z (ToastSpec.ids []) ->
   Toasts.dismissToast this' 1002%Z = this').
Proof.
  intros a b this.
  apply (double_dismissal_drops_next_toast this [] [] a b).
  - reflexivity.
  - reflexivity.
  - reflexivity.
  - intros [].
  - discriminate.
  - right. left. reflexivity.
Defined.

(* ------------------------------------------------------------------ *)
(** *** Highlighting *)

Lemma backslash_special (c : ascii) :
  Ascii.eqb c "\"%char = true -> Highlight.is_special c = true.
Proof. intros H. apply Ascii.eqb_eq in H. subst c. reflexivity. Qed.

Lemma literal_of_escapeRegExp (s : string) :
  Highlight.literal_of (Highlight.escapeRegExp s) = Some s.
Proof.
  induction s as [|c s IH]; [reflexivity|].
  cbn [Highlight.escapeRegExp].
  destruct (Highlight.is_special c) eqn:Hc.
  - cbn [Highlight.literal_of]. rewrite Ascii.eqb_refl, Hc, IH. reflexivity.
  - cbn [Highlight.literal_of].
    destruct (Ascii.eqb c "\"%char) eqn:Hb.
    + rewrite (backslash_special _ Hb) in Hc. discriminate.
    + rewrite Hc, IH. reflexivity.
Qed.

(** Read as the source of a regular expression, the result of
    [escapeRegExp] is a sequence of characters that matches the string
    itself and nothing else: every syntax character is escaped, and no
    other character is.  A string without syntax characters, and only
    such a string, is returned as it is. *)
Theorem escapeRegExp_read_back (s : string) :
  Highlight.literal_of (Highlight.escapeRegExp s) = Some s /\
  (Highlight.escapeRegExp s = s <->
   Words.every (fun c => negb (Highlight.is_special c)) s = true).
Proof.
  split; [apply literal_of_escapeRegExp|].
  assert (Hlength : forall t,
             String.length t <= String.length (Highlight.escapeRegExp t)).
  { induction t as [|c t IH]; [apply le_n|].
    cbn [Highlight.escapeRegExp]. destruct (Highlight.is_special c);
      cbn [String.length]; lia. }
  induction s as [|c s IH]; [split; reflexivity|].
  cbn [Highlight.escapeRegExp Words.every].
  destruct (Highlight.is_special c) eqn:Hc; cbn [negb andb].
  - split; [|discriminate]. intros H.
    apply (f_equal String.length) in H. cbn [String.length] in H.
    pose proof (Hlength s). lia.
  - split.
    + intros H. injection H as H. apply IH. exact H.
    + intros H. f_equal. apply IH. exact H.
Qed.

Lemma match_ignoring_case_Some (lit s matched rest : string) :
  Highlight.match_ignoring_case lit s = Some (matched, rest) ->
  s = matched ++ rest /\
  String.length matched = String.length lit /\
  toUpperCase matched = toUpperCase lit.
Proof.
  revert s matched. induction lit as [|a lit IH]; intros s matched H.
  - injection H as <- <-. repeat split.
  - destruct s as [|c s]; [discriminate|]. cbn [Highlight.match_ignoring_case] in H.
    destruct (Ascii.eqb (upper_char a) (upper_char c)) eqn:Hc; [|discriminate].
    destruct (Highlight.match_ignoring_case lit s) as [[m r]|] eqn:Hm;
      [|discriminate].
    injection H as <- <-. destruct (IH _ _ Hm) as [Hs [Hlen Hup]].
    apply Ascii.eqb_eq in Hc.
    cbn [append String.length]. unfold toUpperCase in *. cbn [map_chars].
    rewrite Hs at 1. rewrite Hlen, Hup, Hc. repeat split.
Qed.

Lemma concat_cons (x : string) (l : list string) :
  String.concat "" (x :: l) = x ++ String.concat "" l.
Proof.
  destruct l as [|y l]; cbn [String.concat]; [|reflexivity].
  induction x as [|c x IH]; [reflexivity|]. cbn [append]. rewrite <- IH. reflexivity.
Qed.

Lemma drop_append (prefix rest : string) :
  Highlight.drop (String.length prefix) (prefix ++ rest) = rest.
Proof.
  induction prefix as [|c prefix IH]; [destruct rest; reflexivity|exact IH].
Qed.

Lemma drop_0 (s : string) : Highlight.drop 0 s = s.
Proof. destruct s; reflexivity. Qed.

Lemma text_of_pieces (lit : string) :
  lit <> "" ->
  forall s skip,
    Highlight.text_of (Highlight.pieces lit skip s) = Highlight.drop skip s.
Proof.
  intros Hlit. induction s as [|c t IH]; intros skip.
  - destruct skip; reflexivity.
  - cbn [Highlight.pieces]. destruct skip as [|k]; [|exact (IH k)].
    rewrite drop_0.
    destruct (Highlight.match_ignoring_case lit (String c t)) as [[matched rest]|] eqn:Hm.
    + unfold Highlight.text_of in *. cbn [map]. rewrite concat_cons, IH.
      destruct (match_ignoring_case_Some _ _ _ _ Hm) as [Hs [Hlen _]].
      destruct matched as [|m matched].
      * destruct lit; [contradiction|discriminate].
      * cbn [append] in Hs. injection Hs as <- ->.
        cbn [String.length] in Hlen. rewrite <- Hlen, Nat.sub_1_r. cbn [Nat.pred].
        rewrite drop_append. reflexivity.
    + unfold Highlight.text_of in *. cbn [map]. rewrite concat_cons, IH, drop_0.
      reflexivity.
Qed.

(** The match under the flag [i] finds every occurrence at the head. *)
Lemma match_ignoring_case_complete (lit : string) :
  forall text matched rest,
    HighlightSpec.occursAtHead lit text matched rest ->
    Highlight.match_ignoring_case lit text = Some (matched, rest).
Proof.
  induction lit as [|a lit IH]; intros text matched rest [Htext [Hlen Hup]].
  - destruct matched; [|discriminate]. cbn in Htext. subst text. reflexivity.
  - destruct matched as [|c matched]; [discriminate|].
    cbn [String.length] in Hlen. injection Hlen as Hlen.
    unfold toUpperCase in Hup. cbn [map_chars] in Hup. injection Hup as Hc Hup.
    subst text. cbn [append Highlight.match_ignoring_case].
    rewrite Hc, Ascii.eqb_refl.
    rewrite (IH (matched ++ rest) matched rest); [reflexivity|].
    split; [reflexivity|]. split; [exact Hlen|exact Hup].
Qed.

(** The pieces of [replace] are the cut of the text at the occurrences of
    the term. *)
Lemma pieces_scanned (lit : string) :
  lit <> "" ->
  forall s skip,
    HighlightSpec.scanned lit (Highlight.drop skip s) (Highlight.pieces lit skip s).
Proof.
  intros Hlit. induction s as [|c t IH]; intros skip.
  - destruct skip; constructor.
  - cbn [Highlight.pieces]. destruct skip as [|k]; [|exact (IH k)].
    rewrite drop_0.
    destruct (Highlight.match_ignoring_case lit (String c t)) as [[matched rest]|] eqn:Hm.
    + destruct (match_ignoring_case_Some _ _ _ _ Hm) as [Hs [Hlen Hup]].
      apply (HighlightSpec.scanned_marked lit _ matched rest).
      * split; [exact Hs|]. split; [exact Hlen|exact Hup].
      * specialize (IH (String.length lit - 1)).
        destruct matched as [|m matched].
        -- destruct lit; [contradiction|discriminate].
        -- cbn [append] in Hs. injection Hs as <- ->.
           cbn [String.length] in Hlen.
           rewrite <- Hlen, Nat.sub_1_r in *. cbn [Nat.pred] in *.
           rewrite drop_append in IH. exact IH.
    + apply HighlightSpec.scanned_plain.
      * intros matched behind Hocc.
        rewrite (match_ignoring_case_complete _ _ _ _ Hocc) in Hm. discriminate.
      * specialize (IH 0). rewrite drop_0 in IH. exact IH.
Qed.

(** A cut of a text holds the whole text. *)
Lemma scanned_text_of (term text : string) (ps : list Highlight.piece) :
  HighlightSpec.scanned term text ps -> Highlight.text_of ps = text.
Proof.
  intros H. induction H as [|text matched rest ps [Htext _] _ IH|c rest ps _ _ IH].
  - reflexivity.
  - unfold Highlight.text_of in *. cbn [map]. rewrite concat_cons, IH.
    symmetry. exact Htext.
  - unfold Highlight.text_of in *. cbn [map]. rewrite concat_cons, IH. reflexivity.
Qed.

(** [highlightText] returns an empty text, and any text for an empty
    search term, as it is.  For a text and a term of ASCII characters that
    are not empty, it returns the text with [<mark>] and [</mark>] put
    around the occurrences of the term, letter case ignored, found from
    the left without overlap, and nothing else changed (so the mark-up the
    text holds is kept as it is): where the text, or what remains of it
    behind an occurrence, begins with the term up to letter case, that
    part is marked; where it does not, its first character is copied. *)
Theorem highlightText_marks_occurrences (text searchTerm : string) :
  (text = "" \/ searchTerm = "" ->
   Highlight.highlightText text searchTerm = Some text) /\
  (text <> "" -> searchTerm <> "" ->
   Charset.ascii text = true -> Charset.ascii searchTerm = true ->
   exists ps,
     Highlight.highlightText text searchTerm = Some (Highlight.rendered ps) /\
     HighlightSpec.scanned searchTerm text ps /\
     Highlight.text_of ps = text).
Proof.
  unfold Highlight.highlightText, truthy_string. split.
  - intros [-> | ->]; [reflexivity|].
    destruct (String.eqb text ""); reflexivity.
  - intros Htext Hterm _ _.
    destruct (String.eqb_spec text "") as [|_]; [contradiction|].
    destruct (String.eqb_spec searchTerm "") as [|_]; [contradiction|].
    cbn [negb orb]. rewrite literal_of_escapeRegExp.
    exists (Highlight.pieces searchTerm 0 text).
    split; [reflexivity|].
    pose proof (pieces_scanned searchTerm Hterm text 0) as Hscanned.
    rewrite drop_0 in Hscanned.
    split; [exact Hscanned|exact (scanned_text_of _ _ _ Hscanned)].
Qed.

Lemma highlightText_marks_occurrences_witness :
  Highlight.highlightText "Lithgow City, city of Lithgow" "city"
  = Some "Lithgow <mark>City</mark>, <mark>city</mark> of Lithgow" /\
  (exists ps,
     Highlight.highlightText "Lithgow City, city of Lithgow" "city"
     = Some (Highlight.rendered ps) /\
     HighlightSpec.scanned "city" "Lithgow City, city of Lithgow" ps /\
     Highlight.text_of ps = "Lithgow City, city of Lithgow") /\
  Highlight.highlightText "aAaa" "aa" = Some "<mark>aA</mark><mark>aa</mark>" /\
  Highlight.highlightText "" "city" = Some "" /\
  Highlight.highlightText "Lithgow" "" = Some "Lithgow".
Proof.
  split; [|split; [|split; [|split]]].
  - vm_compute. reflexivity.
  - apply (proj2 (highlightText_marks_occurrences
                    "Lithgow City, city of Lithgow" "city"));
      solve [discriminate | reflexivity].
  - vm_compute. reflexivity.
  - apply (proj1 (highlightText_marks_occurrences "" "city")). left. reflexivity.
  - apply (proj1 (highlightText_marks_occurrences "Lithgow" "")). right. reflexivity.
Defined.

(* ------------------------------------------------------------------ *)
(** *** The rows of the export *)

Lemma read_quoted_field (field rest : string) :
  startsWith rest (String Csv.quote "") = false ->
  Csv.read_quoted (Csv.double_quotes field ++ String Csv.quote rest)
  = Some (field, rest).
Proof.
  intros Hrest. induction field as [|c field IH].
  - cbn [Csv.double_quotes append Csv.read_quoted]. rewrite Ascii.eqb_refl.
    destruct rest as [|d u]; [reflexivity|].
    cbn [startsWith] in Hrest. rewrite Ascii.eqb_sym in Hrest.
    destruct (Ascii.eqb d Csv.quote); [|reflexivity].
    destruct u; discriminate.
  - cbn [Csv.double_quotes]. destruct (Ascii.eqb c Csv.quote) eqn:Hc.
    + apply Ascii.eqb_eq in Hc. subst c.
      cbn [append Csv.read_quoted]. rewrite !Ascii.eqb_refl, IH. reflexivity.
    + cbn [append Csv.read_quoted]. rewrite Hc, IH. reflexivity.
Qed.

Lemma double_quotes_unquoted (s : string) :
  Csv.unquoted s = true -> Csv.double_quotes s = s.
Proof.
  unfold Csv.unquoted. induction s as [|c s IH]; [reflexivity|].
  cbn [Words.every Csv.double_quotes]. intros H. apply andb_prop in H.
  destruct H as [Hc Hs]. apply negb_true_iff in Hc. rewrite Hc, (IH Hs).
  reflexivity.
Qed.

Lemma append_assoc (a b c : string) : (a ++ b) ++ c = a ++ (b ++ c).
Proof. induction a as [|x a IH]; [reflexivity|]. cbn [append]. rewrite IH. reflexivity. Qed.

(** A record of fields with doubled quotation marks is read back. *)
Lemma read_record_fields (fields : list string) :
  fields <> [] ->
  forall fuel, List.length fields <= fuel ->
    Csv.read_record fuel
      (join "," (map (fun f => Csv.quoted (Csv.double_quotes f)) fields))
    = Some fields.
Proof.
  induction fields as [|f fields IH]; intros Hsome fuel Hfuel; [contradiction|].
  destruct fuel as [|fuel]; [cbn in Hfuel; lia|].
  destruct fields as [|g fields].
  - cbn [map join Csv.read_record Csv.quoted]. rewrite Ascii.eqb_refl.
    rewrite read_quoted_field by reflexivity. reflexivity.
  - change (join "," (map (fun f => Csv.quoted (Csv.double_quotes f)) (f :: g :: fields)))
      with (Csv.quoted (Csv.double_quotes f) ++ "," ++
            join "," (map (fun f => Csv.quoted (Csv.double_quotes f)) (g :: fields))).
    unfold Csv.quoted at 1. cbn [append Csv.read_record].
    rewrite Ascii.eqb_refl, append_assoc. cbn [append].
    rewrite read_quoted_field by reflexivity.
    rewrite Ascii.eqb_refl, IH; [reflexivity|discriminate|].
    cbn [List.length] in *. lia.
Qed.

(** A row of [generateCSV] is read back as the six fields of its council,
    whatever the notes hold, when no other field holds a quotation mark:
    only the notes have theirs doubled. *)
Theorem csv_row_read_back (council : Council.t) :
  Csv.unquoted (Council.name council) = true ->
  Csv.unquoted (Council.region council) = true ->
  Csv.unquoted (UtilsData.or_default (Council.status council) "") = true ->
  Csv.unquoted (UtilsData.or_default (Council.contactEmail council) "") = true ->
  Csv.unquoted (Council.lastUpdated council) = true ->
  Csv.read_record 6 (Csv.row council) = Some (Csv.fields council).
Proof.
  intros Hname Hregion Hstatus Hemail Hupdated.
  assert (Hdefault : forall s, Csv.unquoted s = true ->
             Csv.unquoted (UtilsData.or_default (Some s) "") = true).
  { intros s Hs. unfold UtilsData.or_default.
    destruct (truthy_string s); [exact Hs|reflexivity]. }
  rewrite <- (read_record_fields (Csv.fields council)) with (fuel := 6);
    [|discriminate|cbn; lia].
  unfold Csv.row, Csv.fields. cbn [map].
  rewrite (double_quotes_unquoted _ (Hdefault _ Hname)),
    (double_quotes_unquoted _ (Hdefault _ Hregion)),
    (double_quotes_unquoted _ Hstatus),
    (double_quotes_unquoted _ Hemail),
    (double_quotes_unquoted _ (Hdefault _ Hupdated)).
  reflexivity.
Qed.

Lemma csv_row_read_back_witness :
  let council :=
    Council.mk "Lithgow" (Some "No")
      (Some (String "S" (String Csv.quote (String "," (String Csv.quote "x")))))
      None "Central West" "2025-01-22" in
  Csv.read_record 6 (Csv.row council) = Some (Csv.fields council).
Proof.
  intros council. apply (csv_row_read_back council); reflexivity.
Defined.

(* ------------------------------------------------------------------ *)
(** *** Arrow keys *)



(* ------------------------------------------------------------------ *)
(** *** The region dropdown *)

Lemma region_of_In (table : list (string * list string)) (upperName : string) :
  In (Tracker.region_of table upperName) ("Other" :: map fst table).
Proof.
  induction table as [|[region councils] table IH]; [left; reflexivity|].
  cbn [Tracker.region_of map fst].
  destruct (array_includes councils upperName).
  - right. left. reflexivity.
  - destruct IH as [IH|IH]; [left; exact IH|right; right; exact IH].
Qed.

Lemma handle_councils (this : SGARTracker.t) (e : SGARTracker.event) :
  SGARTracker.councils (SGARTracker.handle this e) = SGARTracker.councils this.
Proof.
  destruct e; cbn [SGARTracker.handle];
    unfold SGARTracker.prevPage, SGARTracker.nextPage, SGARTracker.goToPage,
      SGARTracker.applyFilter, SGARTracker.clearAllFilters,
      SGARTracker.searchInput, SGARTracker.statusSelected,
      SGARTracker.regionSelected, SGARTracker.switchView, SGARTracker.resized;
    repeat match goal with
           | |- context [if ?b then _ else _] => destruct b
           end;
    rewrite ?rendered_councils; reflexivity.
Qed.

Lemma run_councils (events : list SGARTracker.event) (this : SGARTracker.t) :
  SGARTracker.councils (TrackerSpec.run this events) = SGARTracker.councils this.
Proof.
  unfold TrackerSpec.run. revert this.
  induction events as [|e events IH]; intros this; [reflexivity|].
  cbn [fold_left]. rewrite IH. apply handle_councils.
Qed.

Lemma array_filter_none {A : Type} (p : A -> completion bool) (arr : list A) :
  (forall x, In x arr -> p x = Normal false) ->
  array_filter p arr = Normal [].
Proof.
  induction arr as [|x arr IH]; intros Hp; [reflexivity|].
  cbn [array_filter]. rewrite (Hp x (or_introl eq_refl)).
  rewrite IH by (intros y Hy; apply Hp; right; exact Hy). reflexivity.
Qed.

Lemma passesFilters_other_region (filters : Filters.t) (council : Council.t)
    (label : string) :
  Filters.region filters = [label] ->
  Council.region council <> label ->
  Tracker.passesFilters filters council = Normal false.
Proof.
  intros Hregion Hother. unfold Tracker.passesFilters.
  destruct (Nat.ltb 0 (List.length (Filters.status filters)) && _); [reflexivity|].
  rewrite Hregion. unfold array_includes. cbn [List.length existsb Nat.ltb Nat.leb].
  destruct (String.eqb_spec (Council.region council) label) as [Heq|_];
    [contradiction|reflexivity].
Qed.

(** The four values that the region dropdown translates select no council
    at all, whatever the council document holds and whatever was done
    before: the labels they are translated to are none of the regions the
    constructor gives to a council. *)
Theorem translated_region_values_match_nothing
    (councilData : list (string * RawCouncil.t)) (innerWidth : nat)
    (events : list SGARTracker.event) (value : string) :
  In value Dropdowns.translated ->
  let this := TrackerSpec.run (SGARTracker.new councilData innerWidth) events in
  exists this',
    Dropdowns.regionChanged this value = Some this' /\
    SGARTracker.getFilteredCouncils this' = Normal [].
Proof.
  intros Hvalue this.
  assert (Hlabel : exists label,
             Dropdowns.regionValue value = Some [label] /\
             ~ In label ("Other" :: map fst Tracker.regions)).
  { assert (Hfar : forall label,
               existsb (String.eqb label) ("Other" :: map fst Tracker.regions) = false ->
               ~ In label ("Other" :: map fst Tracker.regions)).
    { intros label Hnone Hin.
      assert (Hsome : existsb (String.eqb label)
                        ("Other" :: map fst Tracker.regions) = true).
      { apply existsb_exists. exists label. split; [exact Hin|apply String.eqb_refl]. }
      congruence. }
    destruct Hvalue as [<-|[<-|[<-|[<-|[]]]]]; eexists;
      (split; [reflexivity|apply Hfar; vm_compute; reflexivity]). }
  destruct Hlabel as [label [Hregion Hfar]].
  unfold Dropdowns.regionChanged. rewrite Hregion. cbn [option_map].
  eexists. split; [reflexivity|].
  unfold SGARTracker.regionSelected. rewrite rendered_getFilteredCouncils.
  unfold SGARTracker.getFilteredCouncils, Tracker.getFilteredCouncils.
  cbn [SGARTracker.with_filters SGARTracker.councils SGARTracker.filters].
  apply array_filter_none. intros council Hin.
  apply (passesFilters_other_region _ _ label); [reflexivity|].
  subst this. rewrite run_councils in Hin. cbn [SGARTracker.new SGARTracker.councils] in Hin.
  unfold Tracker.councils_of in Hin. apply in_map_iff in Hin.
  destruct Hin as [[name data] [<- _]]. cbn [Council.region].
  intros Heq. apply Hfar. rewrite <- Heq. apply region_of_In.
Qed.

Lemma translated_region_values_match_nothing_witness :
  let councilData :=
    [ ("NEWCASTLE", RawCouncil.mk (Some "Yes") (Some "") (Some ""));
      ("LITHGOW CITY", RawCouncil.mk (Some "No") (Some "") (Some "")) ] in
  let this := TrackerSpec.run (SGARTracker.new councilData 1280) [SGARTracker.ViewSwitched "grid"] in
  exists this',
    Dropdowns.regionChanged this "hunter-region" = Some this' /\
    SGARTracker.getFilteredCouncils this' = Normal [].
Proof.
  intros councilData.
  apply (translated_region_values_match_nothing councilData 1280
           [SGARTracker.ViewSwitched "grid"] "hunter-region").
  right. right. left. reflexivity.
Defined.

(* ------------------------------------------------------------------ *)
(** *** The list and the map *)

(** A council that the list of the tracker shows is never hidden on the
    map under the same filters: a feature resolved to it keeps the fill of
    its status. *)
Theorem listed_council_is_drawn
    (this : MapController.t) (filters : Filters.t) (feature : Feature.t)
    (council : Council.t) (kept : list Council.t) :
  MapController.findCouncilByName this
    (MapController.probe feature MapController.nameKeys)
  = Normal (Some council) ->
  Tracker.getFilteredCouncils (MapController.councils this) filters = Normal kept ->
  In council kept ->
  MapController.filteredStyle this (Some filters) feature
  = Normal (Style.mk
              (Some (StatusColors.fill
                       (MapController.getStatusColors (Council.status council) false)))
              None) /\
  MapController.filteredStyle this (Some filters) feature
  <> Normal MapController.hiddenStyle.
Proof.
  intros Hresolved Hkept Hin.
  destruct (array_filter_kept _ _ _ Hkept council Hin) as [_ Hpasses].
  assert (Hstatus : Nat.ltb 0 (List.length (Filters.status filters)) &&
                    negb (Tracker.includes_status (Filters.status filters)
                            (Council.status council)) = false).
  { unfold Tracker.passesFilters in Hpasses.
    destruct (Nat.ltb 0 (List.length (Filters.status filters)) && _);
      [discriminate|reflexivity]. }
  assert (Hstyle : MapController.filteredStyle this (Some filters) feature
                   = Normal (Style.mk
                       (Some (StatusColors.fill
                                (MapController.getStatusColors
                                   (Council.status council) false)))
                       None)).
  { unfold MapController.filteredStyle. rewrite Hresolved. cbn [bind].
    rewrite Hstatus. unfold MapController.getLGAStyle. rewrite Hresolved.
    reflexivity. }
  split; [exact Hstyle|]. rewrite Hstyle. discriminate.
Qed.

Lemma listed_council_is_drawn_witness :
  let councils :=
    Tracker.councils_of
      [("DUBBO REGIONAL", RawCouncil.mk (Some "Yes") (Some "") (Some "council@dubbo.nsw.gov.au"))] in
  let this := Resolver.started councils (FetchRejects "offline") in
  let filters := Filters.mk ["Yes"] ["Orana"] "dubbo" None in
  let dubbo := [("lga_name_2021", JString "Dubbo Regional Council")] in
  MapController.filteredStyle this (Some filters) dubbo
  = Normal (Style.mk (Some "rgba(220, 53, 69, 0.7)") None) /\
  MapController.filteredStyle this (Some filters) dubbo
  <> Normal MapController.hiddenStyle.
Proof.
  intros councils this filters dubbo.
  pose (council := Council.mk "Dubbo Regional" (Some "Yes") (Some "")
                     (Some "council@dubbo.nsw.gov.au") "Orana" "2025-01-22").
  apply (listed_council_is_drawn this filters dubbo council [council]).
  - vm_compute. reflexivity.
  - vm_compute. reflexivity.
  - left. reflexivity.
Defined.
